(** * Media Studio: the image compositing engine

    A shallow embedding of the processing code of the repository
    ([services/image_processor.py], [services/logo_handler.py] and the
    [/generate] route of [api/media_studio.py]) together with the
    properties stated about it.

    Python [int] is [Z]; a finite Python [float] is an IEEE 754
    binary64 number, modelled in module [F64] as the rational it
    stands for, reached by rounding to nearest, ties to even; [str] is
    [string], read as a sequence of code points below 256. *)

From Stdlib Require Import ZArith QArith Qround Qpower Qabs Lia Lqa Bool List Morphisms.
From Stdlib Require Import String Ascii SpecFloat.
From stdpp Require Import gmap.
Import ListNotations.

Local Open Scope string_scope.
Local Open Scope Z_scope.

(* ===================================================================== *)
(** * Binary64 arithmetic *)
(* ===================================================================== *)

(** A finite Python float is a rational of the form [m * 2^e] with
    [|m| < 2^53] and [e >= -1074].  An arithmetic operation of the
    interpreter returns the float nearest to the exact result, ties
    going to the even significand: [round] below, which keeps 53
    significant bits from [2^-1022] upwards ([RN]) and a multiple of
    [2^-1074] below.  An exact result that [overflows] has no finite
    float: the operations of [Py] say what the interpreter does then. *)
Module F64.

Local Open Scope Q_scope.

Definition prec : Z := 53.

Definition pow2 (e : Z) : Q := 2 ^ e.

(** [ilog2 x] is the exponent of the binade of a positive [x]:
    [2^(ilog2 x) <= x < 2^(ilog2 x + 1)]. *)
Definition ilog2 (x : Q) : Z :=
  let d := (Z.log2 (Qnum x) - Z.log2 (Zpos (Qden x)))%Z in
  if Qle_bool (pow2 d) x then d else (d - 1)%Z.

(** Nearest integer, ties to even. *)
Definition rhe (z : Q) : Z :=
  let f := Qfloor z in
  match Qcompare (z - inject_Z f) (1 # 2) with
  | Lt => f
  | Gt => (f + 1)%Z
  | Eq => if Z.even f then f else (f + 1)%Z
  end.

(** Rounding of a positive rational to 53 significant bits. *)
Definition RN_pos (x : Q) : Q :=
  let e := (ilog2 x - (prec - 1))%Z in
  inject_Z (rhe (x / pow2 e)) * pow2 e.

(** Rounding of any rational to 53 significant bits, nearest even. *)
Definition RN (x : Q) : Q :=
  match Qnum x with
  | Z0 => 0
  | Zpos _ => RN_pos x
  | Zneg _ => - RN_pos (- x)
  end.

(** The exponent of the smallest subnormal number, and the bound of
    the exponent range. *)
Definition emin : Z := -1074.
Definition emax : Z := 1024.

(** The least normal number, [2^-1022]. *)
Definition tiny : Q := pow2 (emin + prec - 1).

(** Rounding to binary64, with gradual underflow: below [tiny] the
    floats are the multiples of [2^-1074]. *)
Definition round (x : Q) : Q :=
  if Qle_bool tiny (Qabs x) then RN x
  else inject_Z (rhe (x / pow2 emin)) * pow2 emin.

(** The exact value rounds past the largest finite float,
    [2^1024 - 2^971]: it is at least halfway from there to [2^1024]. *)
Definition overflows (x : Q) : bool :=
  Qle_bool (pow2 emax - pow2 (emax - prec - 1)) (Qabs x).

(** The operations of the interpreter, where the result is finite. *)
Definition of_int (n : Z) : Q := round (inject_Z n).
Definition fdiv (x y : Q) : Q := round (x / y).
Definition fmul (x y : Q) : Q := round (x * y).
Definition fsub (x y : Q) : Q := round (x - y).
Definition fadd (x y : Q) : Q := round (x + y).

(** [int(x)]: truncation toward zero. *)
Definition trunc (x : Q) : Z :=
  if Qle_bool 0 x then Qfloor x else Qceiling x.

(** A decimal literal denotes the float nearest to it. *)
Definition literal (n : Z) (d : positive) : Q := round (n # d).

End F64.

(** The Standard Library states IEEE 754 arithmetic in [SpecFloat]; its
    binary64 operations are the yardstick for [F64]. *)
Module F64Check.

Definition emax : Z := F64.emax.

(** The rational a finite [spec_float] stands for. *)
Definition to_Q (s : spec_float) : option Q :=
  match s with
  | S754_zero _ => Some 0%Q
  | S754_finite sign m e =>
      Some ((if sign then -1 else 1) * inject_Z (Zpos m) * F64.pow2 e)%Q
  | S754_infinity _ | S754_nan => None
  end.

Definition of_Z (n : Z) : spec_float := binary_normalize F64.prec emax n 0 false.

Definition same (a : spec_float) (b : Q) : bool :=
  match to_Q a with
  | Some x => Qeq_bool x b
  | None => false
  end.

(** Quotient of two integers, the product of the divisor with it, and
    the divisor over it: the three shapes [smart_crop] computes. *)
Definition agree (p : Z * Z) : bool :=
  let '(a, b) := p in
  let q := SFdiv F64.prec emax (of_Z a) (of_Z b) in
  let q' := F64.round (inject_Z a / inject_Z b) in
  same q q' &&
  same (SFmul F64.prec emax (of_Z b) q) (F64.fmul (F64.of_int b) q') &&
  same (SFdiv F64.prec emax (of_Z b) q) (F64.fdiv (F64.of_int b) q') &&
  same (SFsub F64.prec emax (SFmul F64.prec emax (of_Z b) q) (of_Z a))
       (F64.fsub (F64.fmul (F64.of_int b) q') (F64.of_int a)).

Definition grid (n : nat) : list (Z * Z) :=
  flat_map (fun a => map (fun b => (Z.of_nat (S a), Z.of_nat (S b))) (seq 0 n)) (seq 0 n).

(** The quotient of two integers at the ends of the range: [SFdiv]
    gives a finite float exactly when the quotient does not overflow,
    and then the one [F64.round] gives. *)
Definition agree_at_the_ends (p : Z * Z) : bool :=
  let '(a, b) := p in
  let q := SFdiv F64.prec emax (of_Z a) (of_Z b) in
  let exact := (inject_Z a / inject_Z b)%Q in
  if F64.overflows exact
  then match q with S754_infinity _ => true | _ => false end
  else same q (F64.round exact).

End F64Check.

(* ===================================================================== *)
(** * Python values *)
(* ===================================================================== *)

Module Py.

(** Exceptions that the modelled code can meet. *)
Inductive exn :=
  | ZeroDivisionError
  | OverflowError
  | MemoryError
  | ValueError (msg : string)
  | FileNotFoundError (path : string)
  | IsADirectoryError (path : string)
  | UnidentifiedImageError (path : string)
  | DecompressionBombError
  | OSError (path : string).

(** The outcome of a call: a value, or an exception on its way up. *)
Inductive result (A : Type) :=
  | Ok (a : A)
  | Raise (e : exn).
Arguments Ok {A} a.
Arguments Raise {A} e.

#[global] Instance result_ret : MRet result := fun _ a => Ok a.
#[global] Instance result_bind : MBind result := fun _ _ f m =>
  match m with
  | Ok a => f a
  | Raise e => Raise e
  end.

(** A number is an [int] or a [float]; mixed arithmetic converts the
    integer operand first. *)
Inductive num :=
  | Int (z : Z)
  | Float (q : Q).

Definition to_float (n : num) : Q :=
  match n with
  | Int z => F64.of_int z
  | Float q => q
  end.

Definition sub (a b : num) : num :=
  match a, b with
  | Int x, Int y => Int (x - y)
  | _, _ => Float (F64.fsub (to_float a) (to_float b))
  end.

Definition add (a b : num) : num :=
  match a, b with
  | Int x, Int y => Int (x + y)
  | _, _ => Float (F64.fadd (to_float a) (to_float b))
  end.

Definition mul (a b : num) : num :=
  match a, b with
  | Int x, Int y => Int (x * y)
  | _, _ => Float (F64.fmul (to_float a) (to_float b))
  end.

(** [int(n)] *)
Definition int (n : num) : Z :=
  match n with
  | Int z => z
  | Float q => F64.trunc q
  end.

(** [float(z)], also where an integer meets a float in an arithmetic
    operation: "int too large to convert to float" beyond the range. *)
Definition float_of_int (z : Z) : result Q :=
  if F64.overflows (inject_Z z) then Raise OverflowError
  else Ok (F64.of_int z).

(** [a / b] on two integers: the float nearest to the quotient, which
    is computed exactly; "integer division result too large for a
    float" beyond the range. *)
Definition truediv_int (a b : Z) : result Q :=
  if b =? 0 then Raise ZeroDivisionError
  else if F64.overflows (inject_Z a / inject_Z b) then Raise OverflowError
  else Ok (F64.round (inject_Z a / inject_Z b)).

(** [int(f)] of the float nearest to [exact]: beyond the range that
    float is an infinity, which [int] refuses ("cannot convert float
    infinity to integer"). *)
Definition int_of_rounded (exact : Q) : result Z :=
  if F64.overflows exact then Raise OverflowError
  else Ok (F64.trunc (F64.round exact)).

(** [int(x / y)] on floats *)
Definition int_truediv (x y : Q) : result Z :=
  if Qeq_bool y 0 then Raise ZeroDivisionError
  else int_of_rounded (x / y).

(** [int(x * y)] on floats *)
Definition int_mul (x y : Q) : result Z := int_of_rounded (x * y).

(** [x > y] on floats. *)
Definition gt (x y : Q) : bool := negb (Qle_bool x y).

(** Truth value of a string. *)
Definition truthy (s : string) : bool := negb (String.eqb s "").

(** [str.isspace] on one code point below 256. *)
Definition isspace (c : ascii) : bool :=
  let n := N_of_ascii c in
  ((9 <=? n) && (n <=? 13) || (28 <=? n) && (n <=? 32) || (n =? 133) || (n =? 160))%N.

Fixpoint lstrip (s : string) : string :=
  match s with
  | String c s' => if isspace c then lstrip s' else s
  | EmptyString => EmptyString
  end.

(** [rstrip]: a run of spaces is kept only when something follows it. *)
Fixpoint rstrip (s : string) : string :=
  match s with
  | EmptyString => EmptyString
  | String c s' =>
      match rstrip s' with
      | EmptyString => if isspace c then EmptyString else String c EmptyString
      | t => String c t
      end
  end.

(** [s.strip()] *)
Definition strip (s : string) : string := rstrip (lstrip s).

(** [s.split(sep)] for a separator of one character. *)
Fixpoint split (sep : ascii) (s : string) : list string :=
  match s with
  | EmptyString => [EmptyString]
  | String c s' =>
      if Ascii.eqb c sep then EmptyString :: split sep s'
      else match split sep s' with
           | piece :: rest => String c piece :: rest
           | [] => [String c EmptyString]
           end
  end.

(** [s.replace(a, b)] for single characters. *)
Fixpoint replace (a b : ascii) (s : string) : string :=
  match s with
  | EmptyString => EmptyString
  | String c s' => String (if Ascii.eqb c a then b else c) (replace a b s')
  end.

(** [sep.join(parts)] *)
Fixpoint join (sep : string) (parts : list string) : string :=
  match parts with
  | [] => EmptyString
  | [part] => part
  | part :: rest => part ++ sep ++ join sep rest
  end.

(** [s.lstrip("/")] *)
Fixpoint lstrip_slashes (s : string) : string :=
  match s with
  | String c s' => if Ascii.eqb c "/" then lstrip_slashes s' else s
  | EmptyString => EmptyString
  end.

(** [str(Path(s))] on a POSIX system: empty and ["."] components are
    dropped, runs of slashes collapse (two leading slashes are kept as
    they are), [".."] stays, and the empty path is ["."]. *)
Definition Path (s : string) : string :=
  let rel := lstrip_slashes s in
  let root :=
    match (String.length s - String.length rel)%nat with
    | O => ""
    | 2%nat => "//"
    | _ => "/"
    end in
  let parts :=
    List.filter (fun x => negb (String.eqb x "") && negb (String.eqb x "."))
                (split "/" rel) in
  let joined := root ++ join "/" parts in
  if String.eqb joined "" then "." else joined.

End Py.

(* ===================================================================== *)
(** * The imaging library *)
(* ===================================================================== *)

(** Pillow images as values: a mode, a size and the pixel at each
    coordinate.  What the library computes inside a pixel (resampling,
    blurring, blending, glyph rendering, text measurement) is not part
    of the repository; it is collected in a [Backend], a parameter of
    everything below, together with the memory of the machine: an
    image of a size the caller chooses may not fit. *)
Module PIL.

Inductive Mode := L | P | RGB | RGBA.

Definition Mode_eqb (a b : Mode) : bool :=
  match a, b with
  | L, L | P, P | RGB, RGB | RGBA, RGBA => true
  | _, _ => false
  end.

Record Pixel := { red : Z; green : Z; blue : Z; alpha : Z }.

Definition set_alpha (p : Pixel) (a : Z) : Pixel :=
  {| red := red p; green := green p; blue := blue p; alpha := a |}.

Record Image := {
  mode : Mode;
  width : Z;
  height : Z;
  getpixel : Z -> Z -> Pixel
}.

Definition size (im : Image) : Z * Z := (width im, height im).

(** A font face: a TrueType file at a size, or the built-in bitmap font. *)
Inductive Font :=
  | TrueType (path : string) (size : Z)
  | DefaultFont.

(** [(left, upper, right, lower)] *)
Definition Box : Type := Z * Z * Z * Z.

(** Sizes are C integers. *)
Definition INT_MAX : Z := 2 ^ 31 - 1.

Definition c_int (z : Z) : bool := (- INT_MAX - 1 <=? z) && (z <=? INT_MAX).

(** [Image.MAX_IMAGE_PIXELS]: twice as many pixels are refused as a
    decompression bomb. *)
Definition MAX_IMAGE_PIXELS : Z := 1024 * 1024 * 1024 / 4 / 3.

(** [Image._decompression_bomb_check(size)], the warning left out *)
Definition decompression_bomb_check (sz : Z * Z) : Py.result unit :=
  if 2 * MAX_IMAGE_PIXELS <? Z.max 1 (fst sz) * Z.max 1 (snd sz)
  then Py.Raise Py.DecompressionBombError
  else Py.Ok tt.

Definition Corners : Type := Py.num * Py.num * (Py.num * Py.num).

Record Backend := {
  (** pixels of [im.convert(mode)] *)
  convert_pixels : Mode -> Image -> Z -> Z -> Pixel;
  (** pixels of [im.resize(size, LANCZOS)] *)
  lanczos : Image -> Z * Z -> Z -> Z -> Pixel;
  (** [ImageFilter.GaussianBlur(radius)] on one band of the given size *)
  gaussian_blur : Z -> Z * Z -> (Z -> Z -> Z) -> Z -> Z -> Z;
  (** pixels of [base] after [base.paste(layer, pos, mask)] *)
  paste_pixels : Image -> Image -> Z * Z -> Image -> Z -> Z -> Pixel;
  (** pixels of [Image.alpha_composite(base, overlay)] *)
  composite_pixels : Image -> Image -> Z -> Z -> Pixel;
  (** [ImageFont.truetype(path, size)] *)
  truetype : string -> Z -> Py.result Font;
  (** [draw.textbbox((0, 0), text, font)] *)
  textbbox : string -> Font -> Box;
  (** pixels after [draw.rectangle(box, fill)] *)
  rectangle_pixels : Image -> Corners -> Pixel -> Z -> Z -> Pixel;
  (** pixels after [draw.rounded_rectangle(box, radius, fill)] *)
  rounded_rectangle_pixels : Image -> Corners -> Z -> Pixel -> Z -> Z -> Pixel;
  (** pixels after [draw.text(pos, text, font, fill)] *)
  text_pixels : Image -> Py.num * Py.num -> string -> Font -> Pixel -> Z -> Z -> Pixel;
  (** there is memory for the image that [resize] is asked for *)
  allocates : Z * Z -> bool
}.

(** The size of [im.crop(box)], or the error: a box whose right or
    lower edge comes before the left or upper one is refused, and so is
    one with more than twice [MAX_IMAGE_PIXELS] pixels. *)
Definition crop_size (box : Box) : Py.result (Z * Z) :=
  let '(x0, y0, x1, y1) := box in
  if x1 <? x0 then Py.Raise (Py.ValueError "Coordinate 'right' is less than 'left'")
  else if y1 <? y0 then Py.Raise (Py.ValueError "Coordinate 'lower' is less than 'upper'")
  else
    _ ← decompression_bomb_check (Z.abs (x1 - x0), Z.abs (y1 - y0));
    mret (x1 - x0, y1 - y0).

(** How [im.resize(size)] ends on an image of size [current]. *)
Inductive Resize :=
  | Copy        (** the size is the image's own: [self.copy()] *)
  | Resample.   (** a new image of the size asked for *)

(** A size that is the image's own is not looked at any further.
    Otherwise each side is converted to a C [int], must be positive,
    and the new image must fit in memory. *)
Definition resize_outcome (enough_memory : Z * Z -> bool) (current sz : Z * Z)
    : Py.result Resize :=
  if bool_decide (current = sz) then Py.Ok Copy
  else if negb (c_int (fst sz) && c_int (snd sz)) then Py.Raise Py.OverflowError
  else if (fst sz <? 1) || (snd sz <? 1)
  then Py.Raise (Py.ValueError "height and width must be > 0")
  else if negb (enough_memory sz) then Py.Raise Py.MemoryError
  else Py.Ok Resample.

Section Operations.
Variable pil : Backend.

(** [Image.new(mode, size, color)] *)
Definition new (m : Mode) (sz : Z * Z) (color : Pixel) : Image :=
  {| mode := m; width := fst sz; height := snd sz; getpixel := fun _ _ => color |}.

(** [im.convert(mode)]: always a new image of the same size. *)
Definition convert (im : Image) (m : Mode) : Image :=
  {| mode := m; width := width im; height := height im;
     getpixel := convert_pixels pil m im |}.

(** [im.crop(box)] *)
Definition crop (im : Image) (box : Box) : Py.result Image :=
  sz ← crop_size box;
  let '(x0, y0, _, _) := box in
  mret {| mode := mode im; width := fst sz; height := snd sz;
          getpixel := fun x y => getpixel im (x + x0) (y + y0) |}.

(** [im.resize(size, Image.Resampling.LANCZOS)] *)
Definition resize (im : Image) (sz : Z * Z) : Py.result Image :=
  how ← resize_outcome (allocates pil) (size im) sz;
  match how with
  | Copy => mret im
  | Resample => mret {| mode := mode im; width := fst sz; height := snd sz;
                        getpixel := lanczos pil im sz |}
  end.

(** [base.paste(layer, pos, mask)], as the value [base] holds afterwards *)
Definition paste (base layer : Image) (pos : Z * Z) (mask : Image) : Image :=
  {| mode := mode base; width := width base; height := height base;
     getpixel := paste_pixels pil base layer pos mask |}.

(** [Image.alpha_composite(base, overlay)] *)
Definition alpha_composite (base overlay : Image) : Image :=
  {| mode := RGBA; width := width base; height := height base;
     getpixel := composite_pixels pil base overlay |}.

(** What [draw.rectangle], [draw.rounded_rectangle] and [draw.text] leave
    in the image they draw on. *)
Definition rectangle (im : Image) (box : Corners) (fill : Pixel) : Image :=
  {| mode := mode im; width := width im; height := height im;
     getpixel := rectangle_pixels pil im box fill |}.

Definition rounded_rectangle (im : Image) (box : Corners) (radius : Z)
    (fill : Pixel) : Image :=
  {| mode := mode im; width := width im; height := height im;
     getpixel := rounded_rectangle_pixels pil im box radius fill |}.

Definition text (im : Image) (pos : Py.num * Py.num) (txt : string) (font : Font)
    (fill : Pixel) : Image :=
  {| mode := mode im; width := width im; height := height im;
     getpixel := text_pixels pil im pos txt font fill |}.

End Operations.

End PIL.

(* ===================================================================== *)
(** * services/image_processor.py *)
(* ===================================================================== *)

Module ImageProcessor.
Import PIL.

(** The crop box chosen by [smart_crop] (lines 49 to 61) for a
    [w] x [h] image and a [tw] x [th] target. *)
Definition smart_crop_box (w h tw th : Z) : Py.result Box :=
  img_ratio ← Py.truediv_int w h;
  target_ratio ← Py.truediv_int tw th;
  if Py.gt target_ratio img_ratio then
    (* Target is wider - crop height *)
    width ← Py.float_of_int w;
    new_height ← Py.int_truediv width target_ratio;
    let offset := (h - new_height) / 2 in
    mret (0, offset, w, offset + new_height)
  else
    (* Target is taller - crop width *)
    height ← Py.float_of_int h;
    new_width ← Py.int_mul height target_ratio;
    let offset := (w - new_width) / 2 in
    mret (offset, 0, offset + new_width, h).

(** The size that [resize_logo] (lines 70 to 73) asks for, for a
    [w] x [h] logo. *)
Definition resize_logo_size (w h size : Z) : Py.result (Z * Z) :=
  aspect_ratio ← Py.truediv_int w h;
  size' ← Py.float_of_int size;
  new_height ← Py.int_truediv size' aspect_ratio;
  mret (size, new_height).

Section WithBackend.
Variable pil : Backend.

(** [smart_crop] (lines 43 to 64) *)
Definition smart_crop (img : Image) (target_width target_height : Z) : Py.result Image :=
  let img := if Mode_eqb (mode img) RGB then img else convert pil img RGB in
  box ← smart_crop_box (width img) (height img) target_width target_height;
  img ← crop img box;
  resize pil img (target_width, target_height).

(** [ImageProcessor.resize_logo] (lines 70 to 73) *)
Definition resize_logo (logo : Image) (size : Z) : Py.result Image :=
  sz ← resize_logo_size (width logo) (height logo) size;
  resize pil logo sz.

End WithBackend.

(** The corner table of [ImageProcessor.add_logo] (lines 77 to 87) and
    the offset it yields. *)
Definition add_logo_positions (w h lw lh : Z) : gmap string (Z * Z) :=
  let padding := 40 in
  <["top-right" := (w - lw - padding, padding)]>
  (<["top-left" := (padding, padding)]>
  (<["bottom-right" := (w - lw - padding, h - lh - padding)]>
  (<["bottom-left" := (padding, h - lh - padding)]> ∅))).

Definition add_logo_pos (w h lw lh : Z) (position : string) : Z * Z :=
  let positions := add_logo_positions w h lw lh in
  default (positions !!! "top-right") (positions !! position).

(** The numbers [add_text_overlay] derives before it draws (lines 169
    to 201). *)
Record Layout := {
  title_width : Z;
  title_height : Z;
  cta_height : Z;
  total_text_height : Z;
  y_start : Py.num;
  bg_y1 : Z;
  bg_y2 : Z;
  title_x : Z
}.

Definition box_width (b : Box) : Z := let '(x0, _, x1, _) := b in x1 - x0.
Definition box_height (b : Box) : Z := let '(_, y0, _, y1) := b in y1 - y0.

Definition text_layout (width height : Z) (bbox_title bbox_cta : Box)
    (cta position : string) : Layout :=
  let title_width := box_width bbox_title in
  let title_height := box_height bbox_title in
  let cta_height :=
    if Py.truthy cta then box_height bbox_cta + 30 (* Padding between title and CTA *)
    else 0 in
  let total_text_height := title_height + cta_height + 40 (* Padding around *) in
  let y_start :=
    if String.eqb position "top" then
      Py.mul (Py.Int height) (Py.Float (F64.literal 15 100))
    else if String.eqb position "bottom" then
      Py.sub (Py.mul (Py.Int height) (Py.Float (F64.literal 85 100)))
             (Py.Int total_text_height)
    else Py.Int ((height - total_text_height) / 2) in
  let padding := 40 in
  {| title_width := title_width;
     title_height := title_height;
     cta_height := cta_height;
     total_text_height := total_text_height;
     y_start := y_start;
     bg_y1 := Py.int (Py.sub y_start (Py.Int padding));
     bg_y2 := Py.int (Py.add (Py.add y_start (Py.Int total_text_height)) (Py.Int padding));
     title_x := (width - title_width) / 2 |}.

End ImageProcessor.

(* ===================================================================== *)
(** * services/logo_handler.py *)
(* ===================================================================== *)

Module LogoHandler.
Import PIL.

(** [white_mask]: R, G and B all above the threshold. *)
Definition white_mask (threshold : Z) (p : Pixel) : bool :=
  (threshold <? red p) && (threshold <? green p) && (threshold <? blue p).

(** [np.where(white_mask, 0, a)] at one pixel *)
Definition masked_alpha (threshold : Z) (p : Pixel) : Z :=
  if white_mask threshold p then 0 else alpha p.

(** [lambda x: int(x * opacity)] *)
Definition scale_alpha (opacity : Q) (x : Z) : Z :=
  F64.trunc (F64.fmul (F64.of_int x) opacity).

(** A lookup table entry is stored as an unsigned byte. *)
Definition clip8 (v : Z) : Z := Z.max 0 (Z.min 255 v).

(** [band.point(f)]: the table [[f(i) for i in range(256)]] applied to a sample. *)
Definition point (f : Z -> Z) (sample : Z) : Z := clip8 (f sample).

(** The size that step 2 of [add_image_logo] (lines 184 to 187) asks
    for, for a [w] x [h] logo. *)
Definition resized_logo_size (w h logo_width : Z) : Py.result (Z * Z) :=
  aspect_ratio ← Py.truediv_int h w;
  logo_width' ← Py.float_of_int logo_width;
  new_height ← Py.int_mul logo_width' aspect_ratio;
  mret (logo_width, new_height).

Section WithBackend.
Variable pil : Backend.
(** [Image.open] *)
Variable image_open : string -> Py.result Image.

(** The image after line 46: white pixels made transparent, no feathering yet. *)
Definition white_removed (image : Image) (threshold : Z) : Image :=
  {| mode := RGBA; width := width image; height := height image;
     getpixel := fun x y =>
       let p := getpixel image x y in set_alpha p (masked_alpha threshold p) |}.

(** [remove_white_background] (lines 13 to 55) *)
Definition remove_white_background (image : Image) (threshold feather : Z) : Image :=
  let image := if Mode_eqb (mode image) RGBA then image else convert pil image RGBA in
  let result := white_removed image threshold in
  if 0 <? feather then
    let a := fun x y => alpha (getpixel result x y) in
    let a := gaussian_blur pil feather (size result) a in
    {| mode := RGBA; width := width result; height := height result;
       getpixel := fun x y => set_alpha (getpixel result x y) (a x y) |}
  else result.

(** [prepare_logo] (lines 58 to 82) *)
Definition prepare_logo (logo_path : string) (remove_background : bool)
    (threshold : Z) : Py.result Image :=
  logo ← image_open logo_path;
  let logo := if Mode_eqb (mode logo) RGBA then logo else convert pil logo RGBA in
  let logo := if remove_background
              then remove_white_background logo threshold 2
              else logo in
  mret logo.

(** Steps 1 and 2 of [add_image_logo]: the prepared logo at its target width. *)
Definition resized_logo (logo_path : string) (logo_width : Z)
    (remove_background : bool) : Py.result Image :=
  logo ← prepare_logo logo_path remove_background 240;
  sz ← resized_logo_size (width logo) (height logo) logo_width;
  resize pil logo sz.

(** Step 3: the alpha band through [point], the colour bands as they are. *)
Definition with_opacity (logo : Image) (opacity : Q) : Image :=
  {| mode := RGBA; width := width logo; height := height logo;
     getpixel := fun x y =>
       let p := getpixel logo x y in
       set_alpha p (point (scale_alpha opacity) (alpha p)) |}.

(** The layer that [add_image_logo] pastes. *)
Definition logo_layer (logo_path : string) (logo_width : Z) (opacity : Q)
    (remove_background : bool) : Py.result Image :=
  logo ← resized_logo logo_path logo_width remove_background;
  mret (with_opacity logo opacity).

End WithBackend.

(** Step 4 of [add_image_logo]: the corner table (lines 196 to 206). *)
Definition add_image_logo_positions (image_width image_height logo_w logo_h : Z)
    : gmap string (Z * Z) :=
  let padding := 40 in
  <["top-right" := (image_width - logo_w - padding, padding)]>
  (<["top-left" := (padding, padding)]>
  (<["bottom-right" := (image_width - logo_w - padding, image_height - logo_h - padding)]>
  (<["bottom-left" := (padding, image_height - logo_h - padding)]> ∅))).

Definition add_image_logo_pos (image_width image_height logo_w logo_h : Z)
    (position : string) : Z * Z :=
  let positions := add_image_logo_positions image_width image_height logo_w logo_h in
  default (positions !!! "top-right") (positions !! position).

(** Step 5 of [add_transparent_logo]: [int(255 * opacity)] *)
Definition alpha_value (opacity : Q) : Z :=
  F64.trunc (F64.fmul (F64.of_int 255) opacity).

End LogoHandler.

(* ===================================================================== *)
(** * Image objects and aliasing *)
(* ===================================================================== *)

(** Pillow images are objects: [paste] and the [ImageDraw] calls change
    the image they are applied to, for every name bound to it.  The
    functions that use them are modelled over a store of image objects;
    a Python name holds a reference into the store. *)
Module Objects.
Import PIL.

Abbreviation ref := positive.
Abbreviation store := (gmap positive Image).

#[global] Instance Image_inhabited : Inhabited Image :=
  populate {| mode := RGB; width := 0; height := 0;
              getpixel := fun _ _ => {| red := 0; green := 0; blue := 0; alpha := 0 |} |}.

(** A new object, at an address no object has yet. *)
Definition alloc (im : Image) (s : store) : ref * store :=
  let r := fresh (dom s) in (r, <[r := im]> s).

(** The object at [r] is replaced by [f] of it. *)
Definition update (r : ref) (f : Image -> Image) (s : store) : store :=
  <[r := f (s !!! r)]> s.

Section WithBackend.
Variable pil : Backend.
Variable image_open : string -> Py.result Image.
(** [os.path.exists] *)
Variable path_exists : string -> bool.

Definition copy (r : ref) (s : store) : ref * store := alloc (s !!! r) s.

Definition convert (r : ref) (m : Mode) (s : store) : ref * store :=
  alloc (PIL.convert pil (s !!! r) m) s.

Definition alpha_composite (a b : ref) (s : store) : ref * store :=
  alloc (PIL.alpha_composite pil (s !!! a) (s !!! b)) s.

(** [base.paste(layer, pos, mask)]: [base] is changed in place. *)
Definition paste (base layer : ref) (pos : Z * Z) (mask : ref) (s : store) : store :=
  update base (fun im => PIL.paste pil im (s !!! layer) pos (s !!! mask)) s.

(** The fonts of [add_text_overlay]: a bold face for the title and a
    regular one at half the size for the CTA, or the built-in font for
    both when either cannot be loaded.  ["bd.ttf"] occurs in the
    Windows path only. *)
Definition load_fonts (font_size : Z) : Font * Font :=
  let dejavu := "/usr/share/fonts/truetype/dejavu/DejaVuSans-Bold.ttf" in
  let '(font_path, cta_path) :=
    if path_exists dejavu then (dejavu, dejavu)
    else ("C:/Windows/Fonts/arialbd.ttf", "C:/Windows/Fonts/arial.ttf") in
  match truetype pil font_path font_size with
  | Py.Ok font_title =>
      match truetype pil cta_path (font_size / 2) with
      | Py.Ok font_cta => (font_title, font_cta)
      | Py.Raise _ => (DefaultFont, DefaultFont)
      end
  | Py.Raise _ => (DefaultFont, DefaultFont)
  end.

(** [ImageProcessor.add_text_overlay] (lines 136 to 241) *)
Definition add_text_overlay (image : ref) (title cta : string) (font_size : Z)
    (position : string) (s : store) : ref * store :=
  let '(img, s) := copy image s in
  let '(width, height) := size (s !!! img) in
  (* Create drawing context *)
  let '(overlay, s) := alloc (new RGBA (width, height)
                          {| red := 0; green := 0; blue := 0; alpha := 0 |}) s in
  let '(font_title, font_cta) := load_fonts font_size in
  (* Calculate text size *)
  let bbox_title := textbbox pil title font_title in
  let bbox_cta := textbbox pil cta font_cta in
  let lay := ImageProcessor.text_layout width height bbox_title bbox_cta cta position in
  let y_start := ImageProcessor.y_start lay in
  (* Draw semi-transparent background *)
  let s := update overlay (fun im =>
             rectangle pil im
               (Py.Int 0, Py.Int (ImageProcessor.bg_y1 lay),
                (Py.Int width, Py.Int (ImageProcessor.bg_y2 lay)))
               {| red := 0; green := 0; blue := 0; alpha := 153 |}) s in
  (* Draw title *)
  let s := update overlay (fun im =>
             text pil im (Py.Int (ImageProcessor.title_x lay), y_start) title font_title
               {| red := 255; green := 255; blue := 255; alpha := 255 |}) s in
  (* Draw CTA *)
  let s :=
    if Py.truthy cta then
      let cta_y := Py.add (Py.add y_start (Py.Int (ImageProcessor.title_height lay)))
                          (Py.Int 30) in
      let cta_w := ImageProcessor.box_width bbox_cta in
      let cta_h := ImageProcessor.box_height bbox_cta in
      let cta_x := (width - cta_w) / 2 in
      let button_padding := 15 in
      let s := update overlay (fun im =>
                 rounded_rectangle pil im
                   (Py.Int (cta_x - button_padding), Py.sub cta_y (Py.Int 5),
                    (Py.Int (cta_x + cta_w + button_padding),
                     Py.add (Py.add cta_y (Py.Int cta_h)) (Py.Int 10)))
                   8 {| red := 255; green := 215; blue := 0; alpha := 255 |}) s in
      update overlay (fun im =>
        text pil im (Py.Int cta_x, cta_y) cta font_cta
          {| red := 0; green := 0; blue := 0; alpha := 255 |}) s
    else s in
  (* Composite overlay onto image *)
  let '(rgba, s) := convert img RGBA s in
  let '(blended, s) := alpha_composite rgba overlay s in
  convert blended RGB s.

(** [logo_handler.add_image_logo] (lines 156 to 219).  The images of
    steps 1 to 3 are reachable from the logo only; the layer they end
    in is one object. *)
Definition add_image_logo (image : ref) (logo_path position : string)
    (logo_width : Z) (opacity : Q) (remove_background : bool) (s : store)
    : Py.result ref * store :=
  match LogoHandler.logo_layer pil image_open logo_path logo_width opacity
          remove_background with
  | Py.Raise e => (Py.Raise e, s)
  | Py.Ok layer =>
      let '(logo, s) := alloc layer s in
      (* Step 4: Calculate position *)
      let '(logo_w, logo_h) := size (s !!! logo) in
      let pos := LogoHandler.add_image_logo_pos
                   (width (s !!! image)) (height (s !!! image)) logo_w logo_h position in
      (* Step 5: Create transparent overlay and paste logo *)
      let '(image, s) :=
        if Mode_eqb (mode (s !!! image)) RGBA then (image, s)
        else convert image RGBA s in
      (* Create a copy to avoid modifying original *)
      let '(result, s) := copy image s in
      let s := paste result logo pos logo s in
      (* Step 6: Convert back to RGB for JPEG compatibility *)
      let '(out, s) := convert result RGB s in
      (Py.Ok out, s)
  end.

(** [ImageProcessor.add_logo] (lines 75 to 90) *)
Definition add_logo (img logo_image : ref) (position : string) (s : store)
    : ref * store :=
  let '(base, s) := convert img RGBA s in
  let '(w, h) := size (s !!! base) in
  let '(lw, lh) := size (s !!! logo_image) in
  let pos := ImageProcessor.add_logo_pos w h lw lh position in
  let s := paste base logo_image pos logo_image s in
  convert base RGB s.

End WithBackend.

End Objects.

(* ===================================================================== *)
(** * The asset pipeline *)
(* ===================================================================== *)

(** Which operations reach an output, and on what.  A canvas is written
    as the operations that produced it, and its size follows from
    them; files hold uploaded bytes or a saved canvas.  Whether bytes
    decode, to what size, whether a path can be written and whether a
    resized image fits in memory is the world's choice; whether a step
    raises is decided as in [ImageProcessor], [LogoHandler] and [PIL],
    on the sizes. *)
Module Flow.

(** What [logo_handler.add_logo] may be given as [logo_path]. *)
Inductive LogoSource :=
  | PathLike (path : string)
  | FileLike (data : string).

Inductive Canvas :=
  | Decoded (data : string)
  | Placeholder
  | SmartCrop (c : Canvas) (width height : Z)
  | ResizeLogo (logo : Canvas) (width height : Z)
  | AddLogo (c logo : Canvas) (position : string)
  | AddTextOverlay (c : Canvas) (title cta : string) (font_size : Z) (position : string)
  | AddImageLogo (c : Canvas) (logo : LogoSource) (position : string)
      (logo_width : Z) (opacity : Q)
  | AddTransparentLogo (c : Canvas) (text position : string) (opacity : Q).

(** Does a logo or watermark step occur in the canvas? *)
Fixpoint has_watermark (c : Canvas) : bool :=
  match c with
  | Decoded _ | Placeholder => false
  | SmartCrop c _ _ => has_watermark c
  | ResizeLogo c _ _ => has_watermark c
  | AddTextOverlay c _ _ _ _ => has_watermark c
  | AddLogo _ _ _ | AddImageLogo _ _ _ _ _ | AddTransparentLogo _ _ _ _ => true
  end.

Inductive File :=
  | Upload (content : string)
  | Saved (c : Canvas).

(** What the steps depend on and the code does not decide.  Text is
    measured and drawn by the library with the fonts the code ends up
    with, as in [PIL.Backend]. *)
Record World := {
  (** the bytes are an image Pillow can read *)
  decodable : string -> bool;
  (** the size of that image: it has at least one pixel *)
  size_of : string -> positive * positive;
  (** a file can be written at the path *)
  writable : string -> bool;
  (** there is memory for the image that [resize] is asked for *)
  allocates : Z * Z -> bool;
  (** the error, if any, that measuring and drawing the texts raises
      on a canvas of the size, with the fonts that are found: canvas
      size, title, CTA, font size and anchor *)
  text_error : Z * Z -> string -> string -> Z -> string -> option Py.exn;
  (** the same for the text watermark: canvas size, text and corner *)
  watermark_error : Z * Z -> string -> string -> option Py.exn;
  (** the directory that holds [static/] *)
  root : string
}.

Section InWorld.
Variable world : World.

(** [img.size] *)
Fixpoint canvas_size (c : Canvas) : Z * Z :=
  match c with
  | Decoded data => let '(w, h) := size_of world data in (Z.pos w, Z.pos h)
  | Placeholder => (1200, 1200)
  | SmartCrop _ width height => (width, height)
  | ResizeLogo _ width height => (width, height)
  | AddLogo c _ _ => canvas_size c
  | AddTextOverlay c _ _ _ _ => canvas_size c
  | AddImageLogo c _ _ _ _ => canvas_size c
  | AddTransparentLogo c _ _ _ => canvas_size c
  end.

(** The image that bytes decode to: [Image.open] checks its size. *)
Definition decode (content source : string) : Py.result Canvas :=
  if decodable world content then
    _ ← PIL.decompression_bomb_check (canvas_size (Decoded content));
    mret (Decoded content)
  else Py.Raise (Py.UnidentifiedImageError source).

(** [Image.open(path)], with the conversion that follows it.  The disk
    holds files; the one directory a path can name here is the current
    one. *)
Definition image_open (fs : gmap string File) (path : string) : Py.result Canvas :=
  if String.eqb path "." then Py.Raise (Py.IsADirectoryError path) else
  match fs !! path with
  | None => Py.Raise (Py.FileNotFoundError path)
  | Some (Saved c) =>
      _ ← PIL.decompression_bomb_check (canvas_size c);
      mret c
  | Some (Upload content) => decode content path
  end.

(** [open(path, "wb").write(content)] and [img.save(path)] *)
Definition write_file (fs : gmap string File) (path : string) (f : File)
    : Py.result (gmap string File) :=
  if writable world path then Py.Ok (<[path := f]> fs)
  else Py.Raise (Py.OSError path).

(** [img.save(path, "JPEG")] *)
Definition image_save (fs : gmap string File) (c : Canvas) (path : string)
    : Py.result (gmap string File) :=
  write_file fs path (Saved c).

(** ** logo_handler.add_image_logo and add_logo (lines 156 to 285) *)

(** [os.path.exists] and [Path.exists] *)
Definition path_exists (fs : gmap string File) (path : string) : bool :=
  String.eqb path "." || bool_decide (is_Some (fs !! path)).

Definition default_logo_path : string :=
  root world ++ "/static/logo/mako_logo.png".

(** Step 3 of [add_image_logo] builds the table [int(x * opacity)] for
    the 256 samples and hands it to Pillow, which reads each entry as a
    C [long].  The entry of 255 is the largest in magnitude. *)
Definition opacity_table (opacity : Q) : Py.result unit :=
  last ← Py.int_mul (F64.of_int 255) opacity;
  if (- 2 ^ 63 <=? last) && (last <? 2 ^ 63) then mret tt
  else Py.Raise Py.OverflowError.

(** [add_image_logo]: the logo is opened, scaled and faded before
    anything is pasted. *)
Definition add_image_logo (fs : gmap string File) (image : Canvas)
    (logo_path : LogoSource) (position : string) (logo_width : Z) (opacity : Q)
    : Py.result Canvas :=
  (* Step 1: Load logo and remove white background *)
  logo ← match logo_path with
         | PathLike path => image_open fs path
         | FileLike data => decode data "<_io.BytesIO>"
         end;
  (* Step 2: Resize logo maintaining aspect ratio (based on width) *)
  let '(original_width, original_height) := canvas_size logo in
  sz ← LogoHandler.resized_logo_size original_width original_height logo_width;
  _ ← PIL.resize_outcome (allocates world) (original_width, original_height) sz;
  (* Step 3: Apply opacity to logo *)
  _ ← opacity_table opacity;
  mret (AddImageLogo image logo_path position logo_width opacity).

(** [add_transparent_logo]: the font is loaded, the text measured and
    drawn. *)
Definition add_transparent_logo (image : Canvas) (text position : string) (opacity : Q)
    : Py.result Canvas :=
  match watermark_error world (canvas_size image) text position with
  | Some e => Py.Raise e
  | None => mret (AddTransparentLogo image text position opacity)
  end.

Definition add_logo (fs : gmap string File) (image : Canvas) (position : string)
    (logo_path : option LogoSource) (logo_width : Z) (opacity : Q)
    : Py.result Canvas :=
  let from_path path_obj :=
    (* Try image logo first *)
    if path_exists fs path_obj
    then add_image_logo fs image (PathLike path_obj) position logo_width opacity
    else
      (* Fallback to text watermark (35% opacity for text) *)
      add_transparent_logo image "KESHET" position (F64.literal 35 100) in
  match logo_path with
  | None =>
      (* Default logo path: static/logo/mako_logo.png *)
      from_path default_logo_path
  | Some (FileLike data) =>
      (* Assume it's a file-like object (BytesIO) *)
      add_image_logo fs image (FileLike data) position logo_width opacity
  | Some (PathLike path) =>
      (* It is a path *)
      from_path (Py.Path path)
  end.

(** ** ImageProcessor (lines 43 to 134) on canvases *)

(** [smart_crop]: the box, the crop and the resize decide whether it
    returns. *)
Definition smart_crop (img : Canvas) (width height : Z) : Py.result Canvas :=
  let '(w, h) := canvas_size img in
  box ← ImageProcessor.smart_crop_box w h width height;
  cropped ← PIL.crop_size box;
  _ ← PIL.resize_outcome (allocates world) cropped (width, height);
  mret (SmartCrop img width height).

Definition resize_logo (logo : Canvas) (size : Z) : Py.result Canvas :=
  let '(w, h) := canvas_size logo in
  sz ← ImageProcessor.resize_logo_size w h size;
  _ ← PIL.resize_outcome (allocates world) (w, h) sz;
  mret (ResizeLogo logo (fst sz) (snd sz)).

(** [ImageProcessor.add_logo] converts and pastes: images no larger
    than the ones it is given. *)
Definition add_logo_image (img logo : Canvas) (position : string) : Py.result Canvas :=
  mret (AddLogo img logo position).

(** [add_text_overlay]: the fonts are loaded, the texts measured and
    drawn. *)
Definition add_text_overlay (image : Canvas) (title cta : string) (font_size : Z)
    (position : string) : Py.result Canvas :=
  match text_error world (canvas_size image) title cta font_size position with
  | Some e => Py.Raise e
  | None => mret (AddTextOverlay image title cta font_size position)
  end.

(** [generate_asset] (lines 92 to 134).  [logo_path] is tested for
    truth: [None] and the empty path add no logo. *)
Definition generate_asset (fs : gmap string File)
    (input_image_path output_path : string) (width height : Z)
    (title cta : string) (font_size : Z) (text_position : string)
    (logo_path : option string) (logo_position : string) (logo_size : Z)
    : Py.result (string * gmap string File) :=
  (* Load and resize image *)
  img ← image_open fs input_image_path;
  img ← smart_crop img width height;
  (* Add logo *)
  img ← match logo_path with
        | Some p =>
            if Py.truthy p then
              logo ← image_open fs p;
              logo ← resize_logo logo logo_size;
              add_logo_image img logo logo_position
            else mret img
        | None => mret img
        end;
  (* Add text overlay *)
  img ← (if Py.truthy title || Py.truthy cta
         then add_text_overlay img title cta font_size text_position
         else mret img);
  (* Save *)
  fs ← image_save fs img output_path;
  mret (output_path, fs).

(** ** api/media_studio.py: POST /generate (lines 71 to 206) *)

Record Asset := {
  asset_format : string;
  asset_platform : string;
  asset_width : Z;
  asset_height : Z;
  (** the file that was read back and encoded into the data URL *)
  asset_url : File;
  asset_filename : string
}.

Inductive Response :=
  | Success (assets : list Asset) (count : nat) (mode : string)
  | Failure (status_code : Z) (error : Py.exn).

Definition catalog : list string := ["16:9"; "1:1"; "9:16"; "4:5"].

Definition dimensions : gmap string (Z * Z) :=
  <["16:9" := (1200, 675)]>
  (<["1:1" := (1080, 1080)]>
  (<["9:16" := (1080, 1920)]>
  (<["4:5" := (1080, 1350)]> ∅))).

Definition platform_names : gmap string string :=
  <["16:9" := "Facebook Feed"]>
  (<["1:1" := "Instagram Square"]>
  (<["9:16" := "Instagram Story"]>
  (<["4:5" := "Facebook/Instagram Portrait"]> ∅))).

(** [open(path, "rb").read()] *)
Definition read_file (fs : gmap string File) (path : string) : Py.result File :=
  match fs !! path with
  | Some f => Py.Ok f
  | None => Py.Raise (Py.FileNotFoundError path)
  end.

Section Request.
Variables (timestamp mode title cta : string) (title_font_size : Z)
  (text_position : string) (logo_enabled : bool) (logo_position : string)
  (logo_size : Z).

Definition input_path : string := "/tmp/input_" ++ timestamp ++ ".jpg".

Definition output_path_of (format_key : string) : string :=
  "/tmp/output_" ++ Py.replace ":" "x" format_key ++ "_" ++ timestamp ++ ".jpg".

(** The loop over the requested formats, from its state before
    [format_list] is entered.  A file the request has written is one
    it can remove. *)
Fixpoint generate_each (format_list : list string) (logo_path : option string)
    (fs : gmap string File) (results : list Asset) : Py.result (list Asset) :=
  match format_list with
  | [] => mret results
  | format_key :: rest =>
      if negb (bool_decide (format_key ∈ catalog)) then
        generate_each rest logo_path fs results
      else
        (* Map format to dimensions *)
        let '(width, height) := default (1080, 1080) (dimensions !! format_key) in
        (* Generate image *)
        let output_path := output_path_of format_key in
        '(_, fs) ← generate_asset fs input_path output_path width height
                     title cta title_font_size text_position
                     (if logo_enabled then logo_path else None)
                     logo_position logo_size;
        (* Read generated file and encode to base64 *)
        image_data ← read_file fs output_path;
        let results := (results ++ [
          {| asset_format := format_key;
             asset_platform := default "Social Media" (platform_names !! format_key);
             asset_width := width;
             asset_height := height;
             asset_url := image_data;
             asset_filename :=
               "media_studio_" ++ Py.replace ":" "x" format_key ++ "_" ++ timestamp ++ ".jpg" |}
          ])%list in
        (* Cleanup output *)
        let fs := delete output_path fs in
        generate_each rest logo_path fs results
  end.

Definition generate_assets (disk : gmap string File)
    (image logo_file : option string) (formats : string) : Response :=
  let body : Py.result (list Asset) :=
    (* Parse formats *)
    let format_list := map Py.strip (Py.split "," formats) in
    (* Determine base image *)
    fs ← match image with
         | Some content => write_file disk input_path (Upload content)
         | None =>
             (* Create placeholder if no image *)
             image_save disk Placeholder input_path
         end;
    (* Save logo if provided *)
    '(logo_path, fs) ←
      match logo_file with
      | Some content =>
          if logo_enabled then
            let logo_path := "/tmp/logo_" ++ timestamp ++ ".png" in
            fs ← write_file fs logo_path (Upload content);
            mret (Some logo_path, fs)
          else mret (None, fs)
      | None => mret (None, fs)
      end;
    (* Generate assets for each format *)
    generate_each format_list logo_path fs []
  in
  match body with
  | Py.Ok results => Success results (length results) mode
  | Py.Raise e => Failure 500 e
  end.

End Request.

(** ** What a request needs from the world *)

(** An upload that [Image.open] reads: the bytes decode, and the image
    passes the size check. *)
Definition readable (content : string) : Prop :=
  decodable world content = true /\
  let '(w, h) := size_of world content in
  Z.pos w * Z.pos h <= 2 * PIL.MAX_IMAGE_PIXELS.

(** A logo that [resize_logo] scales to the width [size]: the width
    and the height [int(size / (w / h))] are at least one pixel and
    fit a C integer, and there is memory for the result. *)
Definition scalable (content : string) (size : Z) : Prop :=
  let '(w, h) := size_of world content in
  let new_height :=
    F64.trunc (F64.fdiv (F64.of_int size)
                 (F64.round (inject_Z (Z.pos w) / inject_Z (Z.pos h)))) in
  0 < size <= PIL.INT_MAX /\ 1 <= new_height <= PIL.INT_MAX /\
  allocates world (size, new_height) = true.

End InWorld.

(** The asset is a saved canvas in which no logo or watermark step occurs. *)
Definition clean (a : Asset) : Prop :=
  exists c, asset_url a = Saved c /\ has_watermark c = false.

End Flow.

(* ===================================================================== *)
(** * The specification's wording *)
(* ===================================================================== *)

(** Definitions that follow the text of the specification rather than
    the code, to be compared with the code's. *)
Module Spec.

(** A rectangle in canvas pixel coordinates (section 3). *)
Record Rect := { rect_x : Z; rect_y : Z; rect_width : Z; rect_height : Z }.

Definition box_of (r : Rect) : PIL.Box :=
  (rect_x r, rect_y r, rect_x r + rect_width r, rect_y r + rect_height r).

(** Section 4.1: the crop of [cover_crop], in the arithmetic of the
    text: the aspects are the quotients themselves, [floor] is the
    floor and integer division truncates. *)
Definition cover_crop_box (width height targetWidth targetHeight : Z) : Rect :=
  let imageAspect := (inject_Z width / inject_Z height)%Q in
  let targetAspect := (inject_Z targetWidth / inject_Z targetHeight)%Q in
  if negb (Qle_bool targetAspect imageAspect) then
    let newHeight := Qfloor (inject_Z width / targetAspect) in
    {| rect_x := 0; rect_y := Z.quot (height - newHeight) 2;
       rect_width := width; rect_height := newHeight |}
  else
    let newWidth := Qfloor (inject_Z height * targetAspect) in
    {| rect_x := Z.quot (width - newWidth) 2; rect_y := 0;
       rect_width := newWidth; rect_height := height |}.

(** The same crop in double precision: the two aspects, the quotient
    and the product are each rounded to the nearest double before the
    floor is taken. *)
Definition cover_crop_box_in_doubles (width height targetWidth targetHeight : Z) : Rect :=
  let imageAspect := F64.round (inject_Z width / inject_Z height) in
  let targetAspect := F64.round (inject_Z targetWidth / inject_Z targetHeight) in
  if negb (Qle_bool targetAspect imageAspect) then
    let newHeight := Qfloor (F64.round (inject_Z width / targetAspect)) in
    {| rect_x := 0; rect_y := Z.quot (height - newHeight) 2;
       rect_width := width; rect_height := newHeight |}
  else
    let newWidth := Qfloor (F64.round (inject_Z height * targetAspect)) in
    {| rect_x := Z.quot (width - newWidth) 2; rect_y := 0;
       rect_width := newWidth; rect_height := height |}.

(** Two boxes that differ by at most one pixel on every side. *)
Definition within_a_pixel (a b : PIL.Box) : Prop :=
  let '(a0, a1, a2, a3) := a in
  let '(b0, b1, b2, b3) := b in
  Z.abs (a0 - b0) <= 1 /\ Z.abs (a1 - b1) <= 1 /\
  Z.abs (a2 - b2) <= 1 /\ Z.abs (a3 - b3) <= 1.

(** The rectangle lies within a [width] x [height] canvas. *)
Definition inside (width height : Z) (r : Rect) : Prop :=
  0 <= rect_x r /\ rect_x r + rect_width r <= width /\
  0 <= rect_y r /\ rect_y r + rect_height r <= height.

(** The rectangle spans one direction in full and is centred in the
    other: the margin after it exceeds the margin before it by at most
    one pixel. *)
Definition centred (width height : Z) (r : Rect) : Prop :=
  (rect_width r = width /\
   0 <= (height - rect_height r - rect_y r) - rect_y r <= 1) \/
  (rect_height r = height /\
   0 <= (width - rect_width r - rect_x r) - rect_x r <= 1).

(** [z] is an integer nearest to [q]. *)
Definition nearest_integer (z : Z) (q : Q) : Prop :=
  forall k : Z, (Qabs (q - inject_Z z) <= Qabs (q - inject_Z k))%Q.


End Spec.

(* ===================================================================== *)
(** * Sample inputs *)
(* ===================================================================== *)

(** Concrete backends, images and worlds on which the statements below
    are exercised. *)
Module Samples.
Import PIL.

Definition black : Pixel := {| red := 0; green := 0; blue := 0; alpha := 255 |}.
Definition white : Pixel := {| red := 255; green := 255; blue := 255; alpha := 255 |}.

(** A backend that leaves pixels where they are and measures every
    text as [10 x 20]. *)
Definition plain : Backend := {|
  convert_pixels := fun _ im => getpixel im;
  lanczos := fun im _ => getpixel im;
  gaussian_blur := fun _ _ band => band;
  paste_pixels := fun base _ _ _ => getpixel base;
  composite_pixels := fun base _ => getpixel base;
  truetype := fun path size => Py.Ok (TrueType path size);
  textbbox := fun _ _ => (0, 0, 10, 20);
  rectangle_pixels := fun im _ _ => getpixel im;
  rounded_rectangle_pixels := fun im _ _ _ => getpixel im;
  text_pixels := fun im _ _ _ _ => getpixel im;
  allocates := fun _ => true
|}.

(** The mean of a sample and its two horizontal neighbours, the edge
    samples repeated: the simplest filter that smooths an edge.  It
    stands for the Gaussian blur where a concrete filter is needed. *)
Definition mean3 (sz : Z * Z) (band : Z -> Z -> Z) (x y : Z) : Z :=
  let clamp v := Z.max 0 (Z.min (fst sz - 1) v) in
  (band (clamp (x - 1)) y + band x y + band (clamp (x + 1)) y) / 3.

Definition smoothing : Backend := {|
  convert_pixels := convert_pixels plain;
  lanczos := lanczos plain;
  gaussian_blur := fun _ => mean3;
  paste_pixels := paste_pixels plain;
  composite_pixels := composite_pixels plain;
  truetype := truetype plain;
  textbbox := textbbox plain;
  rectangle_pixels := rectangle_pixels plain;
  rounded_rectangle_pixels := rounded_rectangle_pixels plain;
  text_pixels := text_pixels plain;
  allocates := allocates plain
|}.

(** A [1200 x 800] photograph of one colour. *)
Definition photo : Image :=
  {| mode := RGB; width := 1200; height := 800;
     getpixel := fun _ _ => {| red := 73; green := 109; blue := 137; alpha := 255 |} |}.



(** A logo of two pixels: a white one on the left of a black one. *)
Definition white_then_black : Image :=
  {| mode := RGBA; width := 2; height := 1;
     getpixel := fun x _ => if x =? 0 then white else black |}.

(** A world where every upload is a [1200 x 800] image, every path can
    be written and memory never runs out. *)
Definition kind : Flow.World :=
  {| Flow.decodable := fun _ => true;
     Flow.size_of := fun _ => (1200%positive, 800%positive);
     Flow.writable := fun _ => true;
     Flow.allocates := fun _ => true;
     Flow.text_error := fun _ _ _ _ _ => None;
     Flow.watermark_error := fun _ _ _ => None;
     Flow.root := "/srv/app" |}.

(** The world [kind] with the output of the square format unwritable. *)
Definition square_unwritable : Flow.World :=
  {| Flow.decodable := fun _ => true;
     Flow.size_of := fun _ => (1200%positive, 800%positive);
     Flow.writable := fun path => negb (String.eqb path "/tmp/output_1x1_ts.jpg");
     Flow.allocates := fun _ => true;
     Flow.text_error := fun _ _ _ _ _ => None;
     Flow.watermark_error := fun _ _ _ => None;
     Flow.root := "/srv/app" |}.

(** A world whose uploads are never images. *)
Definition deaf : Flow.World :=
  {| Flow.decodable := fun _ => false;
     Flow.size_of := fun _ => (1%positive, 1%positive);
     Flow.writable := fun _ => true;
     Flow.allocates := fun _ => true;
     Flow.text_error := fun _ _ _ _ _ => None;
     Flow.watermark_error := fun _ _ _ => None;
     Flow.root := "/srv/app" |}.

End Samples.

(* ===================================================================== *)
(** * Text search *)
(* ===================================================================== *)

(** Substring tests.  In this module and in [Commands] a [str] is read
    as its UTF-8 encoding: on well-formed text a keyword occurs among
    the bytes exactly where it occurs among the code points. *)
Module Text.

(** [needle in s] *)
Fixpoint contains (needle s : string) : bool :=
  String.prefix needle s ||
  match s with
  | EmptyString => false
  | String _ s' => contains needle s'
  end.

(** [any(word in s for word in words)] *)
Definition any_in (words : list string) (s : string) : bool :=
  existsb (fun word => contains word s) words.

End Text.

(* ===================================================================== *)
(** * Numbers of either kind *)
(* ===================================================================== *)

(** Comparison, [min] and [max] on Python numbers.  An integer and a
    float are compared by their exact values. *)
Module PyNum.

Definition value (n : Py.num) : Q :=
  match n with
  | Py.Int z => inject_Z z
  | Py.Float q => q
  end.

(** [a < b] *)
Definition lt (a b : Py.num) : bool := negb (Qle_bool (value b) (value a)).

(** [min(a, b)]: the first argument unless the second is smaller. *)
Definition min (a b : Py.num) : Py.num := if lt b a then b else a.

(** [max(a, b)]: the first argument unless the second is larger. *)
Definition max (a b : Py.num) : Py.num := if lt a b then b else a.

End PyNum.

(* ===================================================================== *)
(** * api/media_studio.py: the format table and DELETE /generated *)
(* ===================================================================== *)

Module Assets.

Record FormatSpec := {
  name : string;
  format : string;
  width : Z;
  height : Z
}.

(** [FORMATS] (lines 27 to 52), what [GET /formats] lists. *)
Definition FORMATS : list FormatSpec := [
  {| name := "Facebook Feed"; format := "16:9"; width := 1200; height := 675 |};
  {| name := "Instagram Square"; format := "1:1"; width := 1080; height := 1080 |};
  {| name := "Instagram Story"; format := "9:16"; width := 1080; height := 1920 |};
  {| name := "Facebook/Instagram Portrait"; format := "4:5"; width := 1080; height := 1350 |}
].

(** [list_formats] (lines 271 to 279): the table and its length. *)
Definition list_formats : list FormatSpec * nat := (FORMATS, length FORMATS).

(** What a path names on the disk. *)
Inductive Node :=
  | RegularFile
  | Directory.

(** The detail of an error response: a fixed text, or the text of the
    exception that stopped the deletion. *)
Inductive Detail :=
  | Message (text : string)
  | FailedToDelete (e : Py.exn).

Inductive Response :=
  | Deleted (filename : string)
  | HTTPException (status_code : Z) (detail : Detail).

Section OnDisk.
(** [OUTPUT_DIR], a POSIX path *)
Variable output_dir : string.
(** the process may remove the file at this path *)
Variable may_unlink : string -> bool.

(** [OUTPUT_DIR / filename] for a name of one component: the empty name
    and ["."] name the directory itself.  Names of several components
    are turned away before the path is used. *)
Definition child (filename : string) : string :=
  if String.eqb filename "" || String.eqb filename "." then output_dir
  else output_dir ++ "/" ++ filename.

(** [Path.unlink], as on Linux: a directory is refused with
    [IsADirectoryError]. *)
Definition unlink (disk : gmap string Node) (path : string)
    : Py.result (gmap string Node) :=
  match disk !! path with
  | None => Py.Raise (Py.FileNotFoundError path)
  | Some Directory => Py.Raise (Py.IsADirectoryError path)
  | Some RegularFile =>
      if may_unlink path then Py.Ok (delete path disk)
      else Py.Raise (Py.OSError path)
  end.

(** [delete_asset] (lines 282 to 309): the response and the disk it leaves. *)
Definition delete_asset (disk : gmap string Node) (filename : string)
    : Response * gmap string Node :=
  let file_path := child filename in
  (* Security: Prevent path traversal *)
  if Text.contains ".." filename || Text.contains "/" filename
     || Text.contains "\" filename
  then (HTTPException 400 (Message "Invalid filename"), disk)
  else if negb (bool_decide (is_Some (disk !! file_path)))
  then (HTTPException 404 (Message "File not found"), disk)
  else match unlink disk file_path with
       | Py.Ok disk' => (Deleted filename, disk')
       | Py.Raise e => (HTTPException 500 (FailedToDelete e), disk)
       end.

End OnDisk.

End Assets.

(* ===================================================================== *)
(** * logo_handler.add_transparent_logo *)
(* ===================================================================== *)

(** The text watermark (lines 85 to 153), over the store of image
    objects. *)
Module Watermark.
Import PIL Objects.

(** [except IOError] catches the errors of the operating system. *)
Definition is_IOError (e : Py.exn) : bool :=
  match e with
  | Py.FileNotFoundError _ | Py.IsADirectoryError _ | Py.UnidentifiedImageError _
  | Py.OSError _ => true
  | Py.ZeroDivisionError | Py.OverflowError | Py.MemoryError | Py.ValueError _
  | Py.DecompressionBombError => false
  end.

Section WithBackend.
Variable pil : Backend.

(** Step 2: Arial, then DejaVu Sans Bold, then Arial at its Windows
    path, then the built-in font; an error that is not an [IOError]
    is not caught. *)
Definition load_font (font_size : Z) : Py.result Font :=
  match truetype pil "arial.ttf" font_size with
  | Py.Ok font => Py.Ok font
  | Py.Raise e =>
      if negb (is_IOError e) then Py.Raise e else
      match truetype pil "/usr/share/fonts/truetype/dejavu/DejaVuSans-Bold.ttf" font_size with
      | Py.Ok font => Py.Ok font
      | Py.Raise e =>
          if negb (is_IOError e) then Py.Raise e else
          match truetype pil "C:/Windows/Fonts/arial.ttf" font_size with
          | Py.Ok font => Py.Ok font
          | Py.Raise e =>
              if negb (is_IOError e) then Py.Raise e else Py.Ok DefaultFont
          end
      end
  end.

(** Step 4: the corner table, on the measured text. *)
Definition text_positions (image_width image_height text_width text_height : Z)
    : gmap string (Z * Z) :=
  let padding := 40 in
  <["top-right" := (image_width - text_width - padding, padding)]>
  (<["top-left" := (padding, padding)]>
  (<["bottom-right" := (image_width - text_width - padding,
                        image_height - text_height - padding)]>
  (<["bottom-left" := (padding, image_height - text_height - padding)]> ∅))).

Definition add_transparent_logo (image : ref) (text position : string)
    (opacity : Q) (font_size : Z) (color : Z * Z * Z) (s : store)
    : Py.result ref * store :=
  (* Step 1: Create transparent overlay (RGBA) *)
  let '(overlay, s) :=
    alloc (new RGBA (size (s !!! image))
             {| red := 255; green := 255; blue := 255; alpha := 0 |}) s in
  (* Step 2: Load font *)
  match load_font font_size with
  | Py.Raise e => (Py.Raise e, s)
  | Py.Ok font =>
      (* Step 3: Calculate text dimensions *)
      let bbox := textbbox pil text font in
      let text_width := ImageProcessor.box_width bbox in
      let text_height := ImageProcessor.box_height bbox in
      (* Step 4: Calculate position based on corner *)
      let positions :=
        text_positions (width (s !!! image)) (height (s !!! image))
          text_width text_height in
      let pos := default (positions !!! "top-right") (positions !! position) in
      (* Step 5: Draw text with opacity *)
      let alpha_value := LogoHandler.alpha_value opacity in
      let '(r, g, b) := color in
      let s := update overlay (fun im =>
                 PIL.text pil im (Py.Int (fst pos), Py.Int (snd pos)) text font
                   {| red := r; green := g; blue := b; alpha := alpha_value |}) s in
      (* Step 6: Composite overlay onto image *)
      let '(image, s) :=
        if Mode_eqb (mode (s !!! image)) RGBA then (image, s)
        else convert pil image RGBA s in
      let '(result, s) := alpha_composite pil image overlay s in
      (* Step 7: Convert back to RGB for JPEG compatibility *)
      let '(out, s) := convert pil result RGB s in
      (Py.Ok out, s)
  end.

End WithBackend.

End Watermark.

(* ===================================================================== *)
(** * api/media_studio.py: POST /parse-command *)
(* ===================================================================== *)

(** The keyword interpreter (lines 328 to 509).  The options are taken
    as numbers; an action is kept as its kind and the values its text
    shows.  [str.lower] and [str.strip] follow the Unicode tables of
    the interpreter and are a parameter. *)
Module Commands.
Import Text.

Inductive Value :=
  | VNum (n : Py.num)
  | VBool (b : bool)
  | VStr (s : string)
  | VList (l : list string).

Inductive Action :=
  | LogoSizeIncreased (old new : Py.num)
  | FontSizeIncreased (old new : Py.num)
  | LogoSizeDecreased (old new : Py.num)
  | FontSizeDecreased (old new : Py.num)
  | LogoMoved (corner : string)
  | LogoHidden
  | LogoShown
  | TextMoved (anchor : string)
  | OpacityReduced (old_percent new_percent : Z)
  | OpacityIncreased (old_percent new_percent : Z)
  | FormatsSet (formats : list string)
  | AllFormatsSelected
  | InstagramPreset
  | FacebookPreset
  | NotUnderstood.

Record CommandResponse := {
  action : Action;
  params : gmap string Value
}.

Definition respond (a : Action) (key : string) (v : Value) : option CommandResponse :=
  Some {| action := a; params := {[ key := v ]} |}.

(** [int(opacity * 100)] *)
Definition percent (opacity : Py.num) : Z := Py.int (Py.mul opacity (Py.Int 100)).

Section Parser.
(** [request.command.lower().strip()] *)
Variable normalize : string -> string.

Section Blocks.
Variable command : string.
Variables current_logo_size current_font_size current_opacity : Py.num.

(** Each block returns its response, or nothing when control falls
    through to the next block. *)

(* LOGO SIZE COMMANDS *)
Definition enlarge : option CommandResponse :=
  if any_in ["הגדל"; "גדול"; "enlarge"; "bigger"; "larger"] command then
    if any_in ["לוגו"; "logo"] command then
      let new_size := PyNum.min (Py.add current_logo_size (Py.Int 50)) (Py.Int 300) in
      respond (LogoSizeIncreased current_logo_size new_size) "logo_size" (VNum new_size)
    else if any_in ["פונט"; "טקסט"; "font"; "text"] command then
      let new_size := PyNum.min (Py.add current_font_size (Py.Int 10)) (Py.Int 120) in
      respond (FontSizeIncreased current_font_size new_size) "title_font_size" (VNum new_size)
    else None
  else None.

Definition reduce : option CommandResponse :=
  if any_in ["הקטן"; "קטן"; "smaller"; "reduce"] command then
    if any_in ["לוגו"; "logo"] command then
      let new_size := PyNum.max (Py.sub current_logo_size (Py.Int 50)) (Py.Int 80) in
      respond (LogoSizeDecreased current_logo_size new_size) "logo_size" (VNum new_size)
    else if any_in ["פונט"; "טקסט"; "font"; "text"] command then
      let new_size := PyNum.max (Py.sub current_font_size (Py.Int 10)) (Py.Int 60) in
      respond (FontSizeDecreased current_font_size new_size) "title_font_size" (VNum new_size)
    else None
  else None.

(* LOGO POSITION COMMANDS *)
Definition logo_position : option CommandResponse :=
  if any_in ["לוגו"; "logo"] command then
    if any_in ["שמאל"; "left"] command && any_in ["למעלה"; "top"; "עליון"] command then
      respond (LogoMoved "top-left") "logo_position" (VStr "top-left")
    else if any_in ["ימין"; "right"] command && any_in ["למעלה"; "top"; "עליון"] command then
      respond (LogoMoved "top-right") "logo_position" (VStr "top-right")
    else if any_in ["שמאל"; "left"] command && any_in ["למטה"; "bottom"; "תחתון"] command then
      respond (LogoMoved "bottom-left") "logo_position" (VStr "bottom-left")
    else if any_in ["ימין"; "right"] command && any_in ["למטה"; "bottom"; "תחתון"] command then
      respond (LogoMoved "bottom-right") "logo_position" (VStr "bottom-right")
    else None
  else None.

(* LOGO TOGGLE COMMANDS *)
Definition logo_hide : option CommandResponse :=
  if any_in ["בלי לוגו"; "הסר לוגו"; "ללא לוגו"; "no logo"; "remove logo"; "hide logo"] command
  then respond LogoHidden "logo_enabled" (VBool false)
  else None.

Definition logo_show : option CommandResponse :=
  if any_in ["הוסף לוגו"; "הצג לוגו"; "show logo"; "add logo"] command
  then respond LogoShown "logo_enabled" (VBool true)
  else None.

(* TEXT POSITION COMMANDS *)
Definition text_position : option CommandResponse :=
  if any_in ["טקסט"; "text"; "כותרת"; "title"] command then
    if any_in ["למעלה"; "top"; "עליון"; "מעל"] command then
      respond (TextMoved "top") "title_position" (VStr "top")
    else if any_in ["למטה"; "bottom"; "תחתון"; "מתחת"] command then
      respond (TextMoved "bottom") "title_position" (VStr "bottom")
    else if any_in ["מרכז"; "center"; "באמצע"] command then
      respond (TextMoved "center") "title_position" (VStr "center")
    else None
  else None.

(* OPACITY COMMANDS *)
Definition more_transparent : option CommandResponse :=
  if any_in ["שקוף"; "transparent"; "opacity"] command then
    if any_in ["יותר"; "more"; "פחות"] command then
      let new_opacity :=
        PyNum.max (Py.sub current_opacity (Py.Float (F64.literal 2 10)))
                  (Py.Float (F64.literal 1 10)) in
      respond (OpacityReduced (percent current_opacity) (percent new_opacity))
        "title_opacity" (VNum new_opacity)
    else None
  else None.

Definition more_solid : option CommandResponse :=
  if any_in ["אטום"; "solid"; "כהה"; "dark"] command then
    let new_opacity :=
      PyNum.min (Py.add current_opacity (Py.Float (F64.literal 2 10)))
                (Py.Float (F64.literal 9 10)) in
    respond (OpacityIncreased (percent current_opacity) (percent new_opacity))
      "title_opacity" (VNum new_opacity)
  else None.

(* FORMAT SELECTION COMMANDS *)
Definition only_formats : option CommandResponse :=
  if contains "רק" command || contains "only" command then
    let selected_formats := [] in
    let selected_formats :=
      if contains "16:9" command || contains "facebook" command || contains "פייסבוק" command
      then (selected_formats ++ ["16:9"])%list else selected_formats in
    let selected_formats :=
      if contains "1:1" command || contains "square" command || contains "ריבוע" command || contains "אינסטגרם" command
      then (selected_formats ++ ["1:1"])%list else selected_formats in
    let selected_formats :=
      if contains "9:16" command || contains "story" command || contains "סטורי" command
      then (selected_formats ++ ["9:16"])%list else selected_formats in
    let selected_formats :=
      if contains "4:5" command || contains "portrait" command || contains "פורטרט" command
      then (selected_formats ++ ["4:5"])%list else selected_formats in
    match selected_formats with
    | [] => None
    | _ => respond (FormatsSet selected_formats) "formats" (VList selected_formats)
    end
  else None.

Definition all_formats : option CommandResponse :=
  if contains "כל הפורמטים" command || contains "all formats" command
  then respond AllFormatsSelected "formats" (VList ["16:9"; "1:1"; "9:16"; "4:5"])
  else None.

(* PRESET COMMANDS *)
Definition instagram : option CommandResponse :=
  if any_in ["אינסטגרם"; "instagram"] command
  then respond InstagramPreset "formats" (VList ["1:1"; "9:16"; "4:5"])
  else None.

Definition facebook : option CommandResponse :=
  if any_in ["פייסבוק"; "facebook"] command
  then respond FacebookPreset "formats" (VList ["16:9"; "1:1"; "4:5"])
  else None.

(** The blocks in the order of the source. *)
Definition blocks : list (option CommandResponse) :=
  [enlarge; reduce; logo_position; logo_hide; logo_show; text_position;
   more_transparent; more_solid; only_formats; all_formats; instagram; facebook].

End Blocks.

(** The first block that returns decides; when none does, the command
    was not understood. *)
Fixpoint first_response (bs : list (option CommandResponse)) : CommandResponse :=
  match bs with
  | Some r :: _ => r
  | None :: rest => first_response rest
  | [] => {| action := NotUnderstood; params := ∅ |}
  end.

Definition parse_command (command : string)
    (current_options : option (gmap string Py.num)) : CommandResponse :=
  let command := normalize command in
  let current := default ∅ current_options in
  (* Get current values with defaults *)
  let current_logo_size := default (Py.Int 150) (current !! "logoSize") in
  let current_font_size := default (Py.Int 90) (current !! "titleFontSize") in
  let current_opacity := default (Py.Float (F64.literal 6 10)) (current !! "textOpacity") in
  first_response (blocks command current_logo_size current_font_size current_opacity).

End Parser.

End Commands.

(* ===================================================================== *)
(** * POST /generate and its temporary files

    [Flow.generate_assets] gives the response of the endpoint.  Here
    the same code is read with the disk it leaves behind: the uploads
    written to [/tmp], the outputs removed once they are encoded, and
    the cleanup of the inputs at the end of the [try] block (lines 185
    to 189), which an exception skips.  As in [Flow], a write that fails
    writes nothing, and the process can remove the files it has
    written. *)
(* ===================================================================== *)

Module Endpoint.
Import Flow.

Section Request.
Variable world : World.
Variables (timestamp mode title cta : string) (title_font_size : Z)
  (text_position : string) (logo_enabled : bool) (logo_position : string)
  (logo_size : Z).

(** The loop over the requested formats, with the disk at the point
    where it ends or raises. *)
Fixpoint generate_each (format_list : list string) (logo_path : option string)
    (fs : gmap string File) (results : list Asset)
    : Py.result (list Asset) * gmap string File :=
  match format_list with
  | [] => (Py.Ok results, fs)
  | format_key :: rest =>
      if negb (bool_decide (format_key ∈ catalog)) then
        generate_each rest logo_path fs results
      else
        (* Map format to dimensions *)
        let '(width, height) := default (1080, 1080) (dimensions !! format_key) in
        (* Generate image *)
        let output_path := output_path_of timestamp format_key in
        match generate_asset world fs (input_path timestamp) output_path width height
                title cta title_font_size text_position
                (if logo_enabled then logo_path else None)
                logo_position logo_size with
        | Py.Raise e => (Py.Raise e, fs)
        | Py.Ok (_, fs) =>
            (* Read generated file and encode to base64 *)
            match read_file fs output_path with
            | Py.Raise e => (Py.Raise e, fs)
            | Py.Ok image_data =>
                let results := (results ++ [
                  {| asset_format := format_key;
                     asset_platform :=
                       default "Social Media" (platform_names !! format_key);
                     asset_width := width;
                     asset_height := height;
                     asset_url := image_data;
                     asset_filename :=
                       "media_studio_" ++ Py.replace ":" "x" format_key ++ "_"
                         ++ timestamp ++ ".jpg" |}
                  ])%list in
                (* Cleanup output *)
                let fs := delete output_path fs in
                generate_each rest logo_path fs results
            end
        end
  end.

(** The two uploads are written before the loop; a write that fails
    leaves the disk as it was. *)
Definition save_uploads (disk : gmap string File) (image logo_file : option string)
    : Py.result (option string) * gmap string File :=
  let input_path := input_path timestamp in
  (* Determine base image *)
  match (match image with
         | Some content => write_file world disk input_path (Upload content)
         | None => image_save world disk Placeholder input_path
         end) with
  | Py.Raise e => (Py.Raise e, disk)
  | Py.Ok fs =>
      (* Save logo if provided *)
      match logo_file with
      | Some content =>
          if logo_enabled then
            let logo_path := "/tmp/logo_" ++ timestamp ++ ".png" in
            match write_file world fs logo_path (Upload content) with
            | Py.Raise e => (Py.Raise e, fs)
            | Py.Ok fs => (Py.Ok (Some logo_path), fs)
            end
          else (Py.Ok None, fs)
      | None => (Py.Ok None, fs)
      end
  end.

(** [generate_assets] (lines 71 to 206): the response and the disk. *)
Definition generate_assets (disk : gmap string File)
    (image logo_file : option string) (formats : string)
    : Response * gmap string File :=
  (* Parse formats *)
  let format_list := map Py.strip (Py.split "," formats) in
  let input_path := input_path timestamp in
  match save_uploads disk image logo_file with
  | (Py.Raise e, fs) => (Failure 500 e, fs)
  | (Py.Ok logo_path, fs) =>
      (* Generate assets for each format *)
      match generate_each format_list logo_path fs [] with
      | (Py.Ok results, fs) =>
          (* Cleanup input files *)
          let fs := delete input_path fs in
          let fs := match logo_path with
                    | Some logo_path => delete logo_path fs
                    | None => fs
                    end in
          (Success results (length results) mode, fs)
      | (Py.Raise e, fs) => (Failure 500 e, fs)
      end
  end.

End Request.

End Endpoint.

(* ===================================================================== *)
(** * Facts about binary64 rounding *)
(* ===================================================================== *)

Module F64Facts.
Import F64.
Local Open Scope Q_scope.

(** ** Powers of two and binades *)

Lemma pow2_pos e : 0 < pow2 e.
Proof. apply Qpower_0_lt. reflexivity. Qed.

Lemma pow2_add a b : pow2 (a + b) == pow2 a * pow2 b.
Proof. apply Qpower_plus. discriminate. Qed.

Lemma pow2_le a b : (a <= b)%Z -> pow2 a <= pow2 b.
Proof. intros H. apply Qpower_le_compat_l; [exact H | discriminate]. Qed.

Lemma pow2_lt a b : (a < b)%Z -> pow2 a < pow2 b.
Proof. intros H. apply Qpower_lt_compat_l; [exact H | reflexivity]. Qed.

Lemma pow2_lt_inv a b : pow2 a < pow2 b -> (a < b)%Z.
Proof. intros H. apply (Qpower_lt_compat_l_inv 2); [exact H | reflexivity]. Qed.

Lemma pow2_Z n : (0 <= n)%Z -> pow2 n == inject_Z (2 ^ n).
Proof. intros H. unfold pow2. rewrite Zpower_Qpower by exact H. reflexivity. Qed.

Lemma pow2_S e : pow2 (e + 1) == 2 * pow2 e.
Proof. rewrite pow2_add. unfold pow2 at 2. simpl. ring. Qed.

Lemma pow2_sub a b : pow2 (a - b) == pow2 a / pow2 b.
Proof.
  assert (H := pow2_add (a - b) b). replace (a - b + b)%Z with a in H by ring.
  rewrite H. field. apply Qnot_eq_sym, Qlt_not_eq, pow2_pos.
Qed.

Lemma Qpos_num x : 0 < x <-> (0 < Qnum x)%Z.
Proof. destruct x as [n d]. unfold Qlt. simpl. lia. Qed.

Lemma ilog2_spec x : 0 < x -> pow2 (ilog2 x) <= x /\ x < pow2 (ilog2 x + 1).
Proof.
  intros Hx. unfold ilog2.
  set (a := Qnum x). set (b := Zpos (Qden x)).
  assert (Ha : (0 < a)%Z) by (apply Qpos_num; exact Hx).
  assert (Hb : (0 < b)%Z) by (unfold b; lia).
  set (la := Z.log2 a). set (lb := Z.log2 b).
  destruct (Z.log2_spec a Ha) as [Ha1 Ha2].
  destruct (Z.log2_spec b Hb) as [Hb1 Hb2].
  fold la in Ha1, Ha2. fold lb in Hb1, Hb2.
  assert (Hla : (0 <= la)%Z) by apply Z.log2_nonneg.
  assert (Hlb : (0 <= lb)%Z) by apply Z.log2_nonneg.
  assert (Ex : x == inject_Z a / inject_Z b).
  { unfold a, b. destruct x as [n d]. simpl. apply Qmake_Qdiv. }
  assert (Hbq : 0 < inject_Z b) by (change 0 with (inject_Z 0); rewrite <- Zlt_Qlt; exact Hb).
  assert (Pa1 : pow2 la <= inject_Z a) by (rewrite pow2_Z by lia; rewrite <- Zle_Qle; exact Ha1).
  assert (Pa2 : inject_Z a < pow2 (la + 1)).
  { rewrite pow2_Z by lia. rewrite <- Zlt_Qlt. replace (la + 1)%Z with (Z.succ la) by lia. exact Ha2. }
  assert (Pb1 : pow2 lb <= inject_Z b) by (rewrite pow2_Z by lia; rewrite <- Zle_Qle; exact Hb1).
  assert (Pb2 : inject_Z b < pow2 (lb + 1)).
  { rewrite pow2_Z by lia. rewrite <- Zlt_Qlt. replace (lb + 1)%Z with (Z.succ lb) by lia. exact Hb2. }
  assert (Xb : x * inject_Z b == inject_Z a).
  { rewrite Ex. field. intros C. rewrite C in Hbq. apply (Qlt_irrefl 0), Hbq. }
  assert (Plb := pow2_pos lb). assert (Pd := pow2_pos (la - lb)).
  assert (Pd1 := pow2_pos (la - lb - 1)).
  assert (E1 : pow2 la == pow2 (la - lb) * pow2 lb).
  { rewrite <- pow2_add. replace (la - lb + lb)%Z with la by ring. reflexivity. }
  assert (E2 : pow2 (la - lb - 1 + 1) == 2 * pow2 (la - lb - 1)) by apply pow2_S.
  replace (la - lb - 1 + 1)%Z with (la - lb)%Z in E2 by ring.
  assert (E3 := pow2_S (la - lb)). assert (E4 := pow2_S lb). assert (E5 := pow2_S la).
  assert (Up : x < pow2 (la - lb + 1)).
  { apply Qnot_le_lt. intros C.
    assert (H : pow2 (la - lb + 1) * pow2 lb <= x * inject_Z b).
    { apply Qmult_le_compat_nonneg; split; lra. }
    assert (E6 : pow2 (la - lb + 1) * pow2 lb == pow2 (la + 1)).
    { rewrite <- pow2_add. replace (la - lb + 1 + lb)%Z with (la + 1)%Z by ring. reflexivity. }
    lra. }
  assert (Lo : pow2 (la - lb - 1) < x).
  { apply Qnot_le_lt. intros C.
    assert (H : x * inject_Z b < pow2 (la - lb - 1) * pow2 (lb + 1)).
    { apply Qle_lt_trans with (pow2 (la - lb - 1) * inject_Z b).
      - apply Qmult_le_compat_r; lra.
      - apply Qmult_lt_l; assumption. }
    assert (E6 : pow2 (la - lb - 1) * pow2 (lb + 1) == pow2 la).
    { rewrite <- pow2_add. replace (la - lb - 1 + (lb + 1))%Z with la by ring. reflexivity. }
    lra. }
  destruct (Qle_bool (pow2 (la - lb)) x) eqn:T.
  - apply Qle_bool_iff in T. split; assumption.
  - assert (~ pow2 (la - lb) <= x) by (rewrite <- Qle_bool_iff; congruence).
    replace (la - lb - 1 + 1)%Z with (la - lb)%Z by ring. split; lra.
Qed.

Lemma ilog2_unique x k : pow2 k <= x -> x < pow2 (k + 1) -> ilog2 x = k.
Proof.
  intros H1 H2.
  assert (Hx : 0 < x) by (pose proof (pow2_pos k); lra).
  destruct (ilog2_spec x Hx) as [L1 L2].
  assert (A : (ilog2 x < k + 1)%Z) by (apply pow2_lt_inv; lra).
  assert (B : (k < ilog2 x + 1)%Z) by (apply pow2_lt_inv; lra).
  lia.
Qed.

(** ** Nearest integer *)

Lemma rhe_comp z1 z2 : z1 == z2 -> rhe z1 = rhe z2.
Proof.
  intros H. unfold rhe. rewrite (Qfloor_comp _ _ H).
  assert (E : z1 - inject_Z (Qfloor z2) == z2 - inject_Z (Qfloor z2)) by (rewrite H; reflexivity).
  rewrite (Qcompare_comp _ _ E _ _ (Qeq_refl (1#2))). reflexivity.
Qed.

Lemma rhe_Z n : rhe (inject_Z n) = n.
Proof.
  unfold rhe. rewrite Qfloor_Z.
  assert (E : Qcompare (inject_Z n - inject_Z n) (1 # 2) = Lt) by (apply (proj1 (Qlt_alt _ _)); lra).
  rewrite E. reflexivity.
Qed.

Lemma rhe_floor z :
  (rhe z = Qfloor z /\ z - inject_Z (Qfloor z) <= 1 # 2) \/
  (rhe z = (Qfloor z + 1)%Z /\ (1 # 2) <= z - inject_Z (Qfloor z)).
Proof.
  unfold rhe. destruct (Qcompare (z - inject_Z (Qfloor z)) (1 # 2)) eqn:C.
  - apply Qeq_alt in C. destruct (Z.even (Qfloor z)); [left | right]; split; auto; lra.
  - apply Qlt_alt in C. left; split; auto; lra.
  - apply Qgt_alt in C. right; split; auto; lra.
Qed.

Lemma rhe_err z :
  inject_Z (rhe z) - (1 # 2) <= z /\ z <= inject_Z (rhe z) + (1 # 2).
Proof.
  pose proof (Qfloor_le z) as L. pose proof (Qlt_floor z) as U.
  rewrite inject_Z_plus in U.
  destruct (rhe_floor z) as [[E H] | [E H]]; rewrite E; try rewrite inject_Z_plus;
    change (inject_Z 1) with 1 in *; split; lra.
Qed.

Lemma rhe_mono z1 z2 : z1 <= z2 -> (rhe z1 <= rhe z2)%Z.
Proof.
  intros H. pose proof (Qfloor_resp_le _ _ H) as F.
  destruct (rhe_floor z1) as [[E1 H1] | [E1 H1]];
    destruct (rhe_floor z2) as [[E2 H2] | [E2 H2]]; try lia.
  destruct (Z.eq_dec (Qfloor z1) (Qfloor z2)) as [Ef | Nf]; [| lia].
  assert (Ez : z1 == z2) by (rewrite Ef in H1; lra).
  rewrite (rhe_comp _ _ Ez). lia.
Qed.

(** ** Rounding of positive rationals *)

Lemma pow2_neq0 e : ~ pow2 e == 0.
Proof. pose proof (pow2_pos e). lra. Qed.

Lemma Qdiv_pow2_le x y e : x <= y -> x / pow2 e <= y / pow2 e.
Proof.
  intros H. unfold Qdiv. apply Qmult_le_compat_r; [exact H |].
  apply Qlt_le_weak, Qinv_lt_0_compat, pow2_pos.
Qed.

Lemma scaled_eq x e k : x / pow2 e == x * pow2 (k - e) / pow2 k.
Proof. rewrite pow2_sub. field. split; apply pow2_neq0. Qed.

(** The scaled significand lies in [[2^52, 2^53)]. *)
Lemma scaled_range x :
  0 < x ->
  let e := (ilog2 x - (prec - 1))%Z in
  inject_Z (2 ^ 52) <= x / pow2 e /\ x / pow2 e < inject_Z (2 ^ 53).
Proof.
  intros Hx e. destruct (ilog2_spec x Hx) as [L U].
  assert (P := pow2_pos e).
  assert (E1 : pow2 (ilog2 x) == inject_Z (2 ^ 52) * pow2 e).
  { rewrite <- (pow2_Z 52) by lia. rewrite <- pow2_add. unfold e, prec.
    replace (52 + (ilog2 x - (53 - 1)))%Z with (ilog2 x) by ring. reflexivity. }
  assert (E2 : pow2 (ilog2 x + 1) == inject_Z (2 ^ 53) * pow2 e).
  { rewrite <- (pow2_Z 53) by lia. rewrite <- pow2_add. unfold e, prec.
    replace (53 + (ilog2 x - (53 - 1)))%Z with (ilog2 x + 1)%Z by ring. reflexivity. }
  split.
  - apply Qle_shift_div_l; [exact P | lra].
  - apply Qlt_shift_div_r; [exact P | lra].
Qed.

Lemma signif_range x :
  0 < x ->
  (2 ^ 52 <= rhe (x / pow2 (ilog2 x - (prec - 1))) <= 2 ^ 53)%Z.
Proof.
  intros Hx. destruct (scaled_range x Hx) as [L U]. split.
  - rewrite <- (rhe_Z (2 ^ 52)). apply rhe_mono, L.
  - rewrite <- (rhe_Z (2 ^ 53)). apply rhe_mono, Qlt_le_weak, U.
Qed.

Lemma RN_pos_bounds x :
  0 < x -> pow2 (ilog2 x) <= RN_pos x /\ RN_pos x <= pow2 (ilog2 x + 1).
Proof.
  intros Hx. destruct (signif_range x Hx) as [L U]. unfold RN_pos.
  set (e := (ilog2 x - (prec - 1))%Z) in *.
  set (m := rhe (x / pow2 e)) in *.
  assert (P := pow2_pos e).
  assert (E1 : pow2 (ilog2 x) == inject_Z (2 ^ 52) * pow2 e).
  { rewrite <- (pow2_Z 52) by lia. rewrite <- pow2_add. unfold e, prec.
    replace (52 + (ilog2 x - (53 - 1)))%Z with (ilog2 x) by ring. reflexivity. }
  assert (E2 : pow2 (ilog2 x + 1) == inject_Z (2 ^ 53) * pow2 e).
  { rewrite <- (pow2_Z 53) by lia. rewrite <- pow2_add. unfold e, prec.
    replace (53 + (ilog2 x - (53 - 1)))%Z with (ilog2 x + 1)%Z by ring. reflexivity. }
  rewrite E1, E2. split; apply Qmult_le_compat_r; try lra; rewrite <- Zle_Qle; assumption.
Qed.

Lemma RN_pos_pos x : 0 < x -> 0 < RN_pos x.
Proof.
  intros Hx. destruct (RN_pos_bounds x Hx) as [L _].
  pose proof (pow2_pos (ilog2 x)). lra.
Qed.

Lemma ilog2_mono x y : 0 < x -> x <= y -> (ilog2 x <= ilog2 y)%Z.
Proof.
  intros Hx H. assert (Hy : 0 < y) by lra.
  destruct (ilog2_spec x Hx) as [L1 U1]. destruct (ilog2_spec y Hy) as [L2 U2].
  assert (A : (ilog2 x < ilog2 y + 1)%Z) by (apply pow2_lt_inv; lra). lia.
Qed.

Lemma ilog2_comp x y : 0 < x -> x == y -> ilog2 x = ilog2 y.
Proof.
  intros Hx H. assert (Hy : 0 < y) by lra.
  apply Z.le_antisymm; apply ilog2_mono; lra.
Qed.

Lemma RN_pos_mono x y : 0 < x -> x <= y -> RN_pos x <= RN_pos y.
Proof.
  intros Hx H. assert (Hy : 0 < y) by lra.
  pose proof (ilog2_mono x y Hx H) as M.
  destruct (Z.eq_dec (ilog2 x) (ilog2 y)) as [E | N].
  - unfold RN_pos. rewrite E.
    apply Qmult_le_compat_r; [| apply Qlt_le_weak, pow2_pos].
    rewrite <- Zle_Qle. apply rhe_mono, Qdiv_pow2_le, H.
  - destruct (RN_pos_bounds x Hx) as [_ U]. destruct (RN_pos_bounds y Hy) as [L _].
    assert (pow2 (ilog2 x + 1) <= pow2 (ilog2 y)) by (apply pow2_le; lia). lra.
Qed.

Lemma RN_pos_comp x y : 0 < x -> x == y -> RN_pos x == RN_pos y.
Proof.
  intros Hx H. assert (Hy : 0 < y) by lra.
  apply Qle_antisym; apply RN_pos_mono; lra.
Qed.

(** Rationals with a significand of at most 53 bits are floats. *)
Lemma RN_pos_exact x m k :
  (0 < m < 2 ^ 53)%Z -> x == inject_Z m * pow2 k -> RN_pos x == x.
Proof.
  intros Hm Ex.
  assert (Pk := pow2_pos k).
  assert (Hm0 : 0 < inject_Z m) by (change 0 with (inject_Z 0); rewrite <- Zlt_Qlt; lia).
  assert (Hx : 0 < x) by (rewrite Ex; apply Qmult_lt_0_compat; assumption).
  destruct (ilog2_spec x Hx) as [L U].
  unfold RN_pos. set (e := (ilog2 x - (prec - 1))%Z).
  assert (Hek : (e <= k)%Z).
  { assert (B : x < pow2 (53 + k)).
    { rewrite Ex, pow2_add, (pow2_Z 53) by lia.
      apply Qmult_lt_r; [exact Pk |]. rewrite <- Zlt_Qlt. lia. }
    assert (ilog2 x < 53 + k)%Z by (apply pow2_lt_inv; lra).
    unfold e, prec. lia. }
  assert (Es : x / pow2 e == inject_Z (m * 2 ^ (k - e))).
  { rewrite inject_Z_mult, <- (pow2_Z (k - e)) by lia. rewrite pow2_sub, Ex.
    field. apply pow2_neq0. }
  rewrite (rhe_comp _ _ Es), rhe_Z.
  rewrite inject_Z_mult, <- (pow2_Z (k - e)) by lia. rewrite pow2_sub, Ex.
  field. apply pow2_neq0.
Qed.

Lemma RN_pos_pow2 k : RN_pos (pow2 k) == pow2 k.
Proof. apply (RN_pos_exact _ 1 k); [lia | ring]. Qed.

Lemma RN_pos_idem x : 0 < x -> RN_pos (RN_pos x) == RN_pos x.
Proof.
  intros Hx. destruct (signif_range x Hx) as [L U].
  set (e := (ilog2 x - (prec - 1))%Z) in *.
  destruct (Z.eq_dec (rhe (x / pow2 e)) (2 ^ 53)%Z) as [E | N].
  - apply (RN_pos_exact _ (2 ^ 52)%Z (e + 1)%Z); [lia |].
    unfold RN_pos. fold e. rewrite E, pow2_S.
    change (inject_Z (2 ^ 53)) with (2 * inject_Z (2 ^ 52)). ring.
  - apply (RN_pos_exact _ (rhe (x / pow2 e)) e); [lia | reflexivity].
Qed.

(** Half an ulp bounds the rounding error. *)
Lemma RN_pos_err x :
  0 < x ->
  let e := (ilog2 x - (prec - 1))%Z in
  RN_pos x - pow2 (e - 1) <= x /\ x <= RN_pos x + pow2 (e - 1).
Proof.
  intros Hx e. unfold RN_pos. fold e.
  destruct (rhe_err (x / pow2 e)) as [A B].
  assert (P := pow2_pos e).
  assert (E : pow2 (e - 1) == (1 # 2) * pow2 e).
  { assert (S := pow2_S (e - 1)). replace (e - 1 + 1)%Z with e in S by ring. lra. }
  assert (X : x == x / pow2 e * pow2 e) by (field; apply pow2_neq0).
  set (s := x / pow2 e) in *. set (m := inject_Z (rhe s)) in *.
  assert (A' : (m - (1 # 2)) * pow2 e <= s * pow2 e) by (apply Qmult_le_compat_r; lra).
  assert (B' : s * pow2 e <= (m + (1 # 2)) * pow2 e) by (apply Qmult_le_compat_r; lra).
  rewrite E. split; lra.
Qed.

(** ** Rounding of any rational *)

Lemma RN_of_pos x : 0 < x -> RN x = RN_pos x.
Proof. intros H. apply Qpos_num in H. unfold RN. destruct (Qnum x); try lia. reflexivity. Qed.

Lemma RN_of_zero x : x == 0 -> RN x = 0.
Proof.
  intros H. unfold RN. destruct x as [n d]. unfold Qeq in H. simpl in *.
  assert (n = 0%Z) by lia. subst n. reflexivity.
Qed.

Lemma RN_of_neg x : x < 0 -> RN x = - RN_pos (- x).
Proof.
  intros H. unfold RN. destruct x as [n d]. unfold Qlt in H. simpl in *.
  destruct n; try lia. reflexivity.
Qed.

Lemma Q_sign_cases x : x < 0 \/ x == 0 \/ 0 < x.
Proof. destruct (Q_dec x 0) as [[H | H] | H]; auto. Qed.

Lemma RN_mono x y : x <= y -> RN x <= RN y.
Proof.
  intros H.
  destruct (Q_sign_cases x) as [Hx | [Hx | Hx]]; destruct (Q_sign_cases y) as [Hy | [Hy | Hy]];
    try (exfalso; lra).
  - rewrite (RN_of_neg x Hx), (RN_of_neg y Hy).
    assert (RN_pos (- y) <= RN_pos (- x)) by (apply RN_pos_mono; lra). lra.
  - rewrite (RN_of_neg x Hx), (RN_of_zero y Hy).
    assert (0 < RN_pos (- x)) by (apply RN_pos_pos; lra). lra.
  - rewrite (RN_of_neg x Hx), (RN_of_pos y Hy).
    assert (0 < RN_pos (- x)) by (apply RN_pos_pos; lra).
    assert (0 < RN_pos y) by (apply RN_pos_pos; lra). lra.
  - rewrite (RN_of_zero x Hx), (RN_of_zero y Hy). lra.
  - rewrite (RN_of_zero x Hx), (RN_of_pos y Hy).
    assert (0 < RN_pos y) by (apply RN_pos_pos; lra). lra.
  - rewrite (RN_of_pos x Hx), (RN_of_pos y Hy). apply RN_pos_mono; assumption.
Qed.

#[global] Instance RN_Proper : Proper (Qeq ==> Qeq) RN.
Proof. intros x y H. apply Qle_antisym; apply RN_mono; lra. Qed.

Lemma RN_0 : RN 0 = 0.
Proof. reflexivity. Qed.

Lemma RN_nonneg x : 0 <= x -> 0 <= RN x.
Proof. intros H. apply (RN_mono 0 x H). Qed.

Lemma RN_positive x : 0 < x -> 0 < RN x.
Proof. intros H. rewrite (RN_of_pos x H). apply RN_pos_pos, H. Qed.

Lemma RN_opp x : RN (- x) == - RN x.
Proof.
  destruct (Q_sign_cases x) as [Hx | [Hx | Hx]].
  - rewrite (RN_of_neg x Hx), RN_of_pos by lra. ring.
  - rewrite (RN_of_zero x Hx), RN_of_zero by lra. reflexivity.
  - rewrite (RN_of_pos x Hx), RN_of_neg by lra.
    rewrite (RN_pos_comp (- - x) x); [reflexivity | lra | ring].
Qed.

Lemma RN_idem x : RN (RN x) == RN x.
Proof.
  destruct (Q_sign_cases x) as [Hx | [Hx | Hx]].
  - rewrite (RN_of_neg x Hx). rewrite RN_opp.
    assert (P : 0 < RN_pos (- x)) by (apply RN_pos_pos; lra).
    rewrite (RN_of_pos _ P), RN_pos_idem by lra. reflexivity.
  - rewrite (RN_of_zero x Hx). reflexivity.
  - rewrite (RN_of_pos x Hx).
    assert (P : 0 < RN_pos x) by (apply RN_pos_pos; lra).
    rewrite (RN_of_pos _ P). apply RN_pos_idem, Hx.
Qed.

(** Every rational [m * 2^k] with [|m| <= 2^53] is a float. *)
Lemma RN_exact x m k :
  (Z.abs m <= 2 ^ 53)%Z -> x == inject_Z m * pow2 k -> RN x == x.
Proof.
  assert (Pos : forall x m k, (0 < m <= 2 ^ 53)%Z -> x == inject_Z m * pow2 k -> RN x == x).
  { clear. intros x m k Hm Ex.
    assert (Pk := pow2_pos k).
    assert (Hm0 : 0 < inject_Z m) by (change 0 with (inject_Z 0); rewrite <- Zlt_Qlt; lia).
    assert (Hx : 0 < x) by (rewrite Ex; apply Qmult_lt_0_compat; assumption).
    rewrite (RN_of_pos x Hx).
    destruct (Z.eq_dec m (2 ^ 53)%Z) as [E | N].
    - apply (RN_pos_exact _ (2 ^ 52)%Z (k + 1)%Z); [lia |].
      rewrite Ex, E, pow2_S. change (inject_Z (2 ^ 53)) with (2 * inject_Z (2 ^ 52)). ring.
    - apply (RN_pos_exact _ m k); [lia | exact Ex]. }
  intros Hm Ex.
  destruct (Z.lt_trichotomy m 0) as [Hn | [Hz | Hp]].
  - assert (E : RN (- x) == - x).
    { apply (Pos _ (- m)%Z k); [lia |]. rewrite Ex, inject_Z_opp. ring. }
    rewrite RN_opp in E. lra.
  - subst m. rewrite RN_of_zero; rewrite Ex; ring.
  - apply (Pos _ m k); [lia | exact Ex].
Qed.

Lemma RN_int n : (Z.abs n <= 2 ^ 53)%Z -> RN (inject_Z n) == inject_Z n.
Proof. intros H. apply (RN_exact _ n 0 H). unfold pow2. simpl. ring. Qed.

(** Relative accuracy: one part in [2^53]. *)
Lemma RN_rel_err x : Qabs (RN x - x) <= Qabs x * pow2 (-53).
Proof.
  assert (Pos : forall x, 0 < x -> Qabs (RN_pos x - x) <= x * pow2 (-53)).
  { clear. intros x Hx. destruct (RN_pos_err x Hx) as [A B].
    destruct (ilog2_spec x Hx) as [L _].
    set (e := (ilog2 x - (prec - 1))%Z) in *.
    assert (E : pow2 (e - 1) == pow2 (ilog2 x) * pow2 (-53)).
    { rewrite <- pow2_add. unfold e, prec.
      replace (ilog2 x - (53 - 1) - 1)%Z with (ilog2 x + -53)%Z by ring. reflexivity. }
    assert (P := pow2_pos (-53)).
    assert (pow2 (ilog2 x) * pow2 (-53) <= x * pow2 (-53)) by (apply Qmult_le_compat_r; lra).
    apply Qabs_Qle_condition. split; lra. }
  destruct (Q_sign_cases x) as [Hx | [Hx | Hx]].
  - rewrite (RN_of_neg x Hx). rewrite (Qabs_neg x) by lra.
    assert (H := Pos (- x) ltac:(lra)).
    apply Qabs_Qle_condition. apply Qabs_Qle_condition in H. split; lra.
  - rewrite (RN_of_zero x Hx). rewrite Hx.
    change (Qabs (0 - 0)) with 0. change (Qabs 0) with 0. lra.
  - rewrite (RN_of_pos x Hx). rewrite (Qabs_pos x) by lra. apply Pos, Hx.
Qed.

(** ** Rounding to binary64 *)

Lemma tiny_pos : 0 < tiny.
Proof. apply pow2_pos. Qed.

Lemma round_normal x : tiny <= Qabs x -> round x = RN x.
Proof.
  intros H. unfold round. apply Qle_bool_iff in H. rewrite H. reflexivity.
Qed.

Lemma round_subnormal x :
  Qabs x < tiny -> round x = inject_Z (rhe (x / pow2 emin)) * pow2 emin.
Proof.
  intros H. unfold round.
  destruct (Qle_bool tiny (Qabs x)) eqn:E; [| reflexivity].
  apply Qle_bool_iff in E. lra.
Qed.

Lemma normal_or_not x : tiny <= Qabs x \/ Qabs x < tiny.
Proof. destruct (Qlt_le_dec (Qabs x) tiny); auto. Qed.

Lemma RN_pow2 k : RN (pow2 k) == pow2 k.
Proof. rewrite (RN_of_pos _ (pow2_pos k)). apply RN_pos_pow2. Qed.

Lemma tiny_scaled : tiny / pow2 emin == inject_Z (2 ^ 52).
Proof.
  unfold tiny. rewrite <- pow2_sub.
  replace (emin + prec - 1 - emin)%Z with 52%Z by reflexivity.
  apply pow2_Z. lia.
Qed.

(** Below the least normal number the rounded value stays within it. *)
Lemma subnormal_range x :
  Qabs x < tiny ->
  - tiny <= inject_Z (rhe (x / pow2 emin)) * pow2 emin <= tiny.
Proof.
  intros H. assert (P := pow2_pos emin).
  assert (A : - tiny < x < tiny).
  { destruct (Qlt_le_dec x 0).
    - rewrite Qabs_neg in H by lra. assert (T := tiny_pos). lra.
    - rewrite Qabs_pos in H by lra. assert (T := tiny_pos). lra. }
  assert (S : tiny == inject_Z (2 ^ 52) * pow2 emin).
  { rewrite <- tiny_scaled. field. lra. }
  assert (U : x / pow2 emin <= inject_Z (2 ^ 52)).
  { apply Qle_shift_div_r; [exact P | lra]. }
  assert (L : inject_Z (- 2 ^ 52) <= x / pow2 emin).
  { apply Qle_shift_div_l; [exact P |]. rewrite inject_Z_opp. lra. }
  apply rhe_mono in U. apply rhe_mono in L. rewrite rhe_Z in U, L.
  assert (U' : inject_Z (rhe (x / pow2 emin)) <= inject_Z (2 ^ 52))
    by (rewrite <- Zle_Qle; exact U).
  assert (L' : inject_Z (- 2 ^ 52) <= inject_Z (rhe (x / pow2 emin)))
    by (rewrite <- Zle_Qle; exact L).
  rewrite inject_Z_opp in L'.
  split.
  - assert (- inject_Z (2 ^ 52) * pow2 emin
            <= inject_Z (rhe (x / pow2 emin)) * pow2 emin)
      by (apply Qmult_le_compat_r; lra).
    lra.
  - assert (inject_Z (rhe (x / pow2 emin)) * pow2 emin
            <= inject_Z (2 ^ 52) * pow2 emin)
      by (apply Qmult_le_compat_r; lra).
    lra.
Qed.

Lemma round_mono x y : x <= y -> round x <= round y.
Proof.
  intros H. assert (T := tiny_pos). assert (P := pow2_pos emin).
  destruct (normal_or_not x) as [Nx | Sx], (normal_or_not y) as [Ny | Sy].
  - rewrite (round_normal x Nx), (round_normal y Ny). apply RN_mono, H.
  - (* x is normal and below a subnormal y: x <= - tiny *)
    rewrite (round_normal x Nx), (round_subnormal y Sy).
    destruct (subnormal_range y Sy) as [L _].
    assert (X : x <= - tiny).
    { destruct (Qlt_le_dec x 0).
      - rewrite Qabs_neg in Nx by lra. lra.
      - rewrite Qabs_pos in Nx by lra.
        destruct (Qlt_le_dec y 0).
        + lra.
        + rewrite Qabs_pos in Sy by lra. lra. }
    apply RN_mono in X. rewrite RN_opp in X. unfold tiny in X at 1. rewrite RN_pow2 in X.
    fold tiny in X. lra.
  - rewrite (round_subnormal x Sx), (round_normal y Ny).
    destruct (subnormal_range x Sx) as [_ U].
    assert (Y : tiny <= y).
    { destruct (Qlt_le_dec y 0).
      - rewrite Qabs_neg in Ny by lra.
        destruct (Qlt_le_dec x 0).
        + rewrite Qabs_neg in Sx by lra. lra.
        + lra.
      - rewrite Qabs_pos in Ny by lra. lra. }
    apply RN_mono in Y. unfold tiny in Y at 1. rewrite RN_pow2 in Y. fold tiny in Y. lra.
  - rewrite (round_subnormal x Sx), (round_subnormal y Sy).
    apply Qmult_le_compat_r; [| lra].
    rewrite <- Zle_Qle. apply rhe_mono.
    apply Qmult_le_compat_r; [exact H |]. apply Qlt_le_weak, Qinv_lt_0_compat, P.
Qed.

#[global] Instance round_Proper : Proper (Qeq ==> Qeq) round.
Proof. intros x y H. apply Qle_antisym; apply round_mono; lra. Qed.

Lemma round_0 : round 0 == 0.
Proof.
  rewrite round_subnormal by (change (Qabs 0) with 0; apply tiny_pos).
  assert (E : 0 / pow2 emin == inject_Z 0) by (unfold Qdiv; ring).
  rewrite (rhe_comp _ _ E), rhe_Z. ring.
Qed.

Lemma round_nonneg x : 0 <= x -> 0 <= round x.
Proof. intros H. rewrite <- round_0. apply round_mono, H. Qed.

Lemma round_nonpos x : x <= 0 -> round x <= 0.
Proof. intros H. rewrite <- round_0. apply round_mono, H. Qed.

Lemma one_is_normal : tiny <= 1.
Proof. change 1 with (pow2 0). apply pow2_le. unfold emin, prec. lia. Qed.

(** From 1 upwards, and at 0, the two roundings agree. *)
Lemma round_large x : 1 <= Qabs x -> round x = RN x.
Proof. intros H. apply round_normal. pose proof one_is_normal. lra. Qed.

Lemma round_int n : (Z.abs n <= 2 ^ 53)%Z -> round (inject_Z n) == inject_Z n.
Proof.
  intros H. destruct (Z.eq_dec n 0%Z) as [-> | N].
  - apply round_0.
  - rewrite round_large; [apply RN_int, H |].
    destruct (Z_lt_le_dec n 0).
    + rewrite Qabs_neg by (change 0 with (inject_Z 0); rewrite <- Zle_Qle; lia).
      rewrite <- inject_Z_opp. change 1 with (inject_Z 1). rewrite <- Zle_Qle. lia.
    + rewrite Qabs_pos by (change 0 with (inject_Z 0); rewrite <- Zle_Qle; lia).
      change 1 with (inject_Z 1). rewrite <- Zle_Qle. lia.
Qed.

(** A float is a rational that rounding leaves as it is. *)
Lemma round_idem x : round (round x) == round x.
Proof.
  assert (T := tiny_pos). assert (P := pow2_pos emin).
  destruct (normal_or_not x) as [Nx | Sx].
  - rewrite (round_normal x Nx).
    assert (N' : tiny <= Qabs (RN x)).
    { destruct (Qlt_le_dec x 0).
      - rewrite Qabs_neg in Nx by lra.
        assert (X : x <= - tiny) by lra.
        apply RN_mono in X. rewrite RN_opp in X. unfold tiny in X at 1.
        rewrite RN_pow2 in X. fold tiny in X.
        rewrite Qabs_neg by lra. lra.
      - rewrite Qabs_pos in Nx by lra.
        assert (X := Nx). apply RN_mono in X. unfold tiny in X at 1.
        rewrite RN_pow2 in X. fold tiny in X.
        rewrite Qabs_pos by lra. lra. }
    rewrite (round_normal _ N'). apply RN_idem.
  - rewrite (round_subnormal x Sx).
    set (m := rhe (x / pow2 emin)).
    destruct (subnormal_range x Sx) as [L U]. fold m in L, U.
    destruct (normal_or_not (inject_Z m * pow2 emin)) as [N' | S'].
    + rewrite (round_normal _ N').
      apply (RN_exact _ m emin); [| reflexivity].
      assert (S : tiny == inject_Z (2 ^ 52) * pow2 emin).
      { rewrite <- tiny_scaled. field. lra. }
      assert (B : - inject_Z (2 ^ 52) <= inject_Z m <= inject_Z (2 ^ 52)).
      { split.
        - apply (Qmult_le_r _ _ (pow2 emin) P). lra.
        - apply (Qmult_le_r _ _ (pow2 emin) P). lra. }
      rewrite <- inject_Z_opp in B. rewrite <- !Zle_Qle in B. lia.
    + rewrite (round_subnormal _ S').
      assert (E : inject_Z m * pow2 emin / pow2 emin == inject_Z m) by (field; lra).
      rewrite (rhe_comp _ _ E), rhe_Z. reflexivity.
Qed.

Lemma round_exact x m k :
  (Z.abs m <= 2 ^ 53)%Z -> x == inject_Z m * pow2 k -> tiny <= Qabs x \/ x == 0 ->
  round x == x.
Proof.
  intros Hm Ex [N | Z].
  - rewrite (round_normal x N). apply (RN_exact x m k Hm Ex).
  - rewrite Z. apply round_0.
Qed.

(** Relative accuracy, one part in [2^53], where the number is normal. *)
Lemma round_rel_err x :
  tiny <= Qabs x \/ x == 0 -> Qabs (round x - x) <= Qabs x * pow2 (-53).
Proof.
  intros [N | Z].
  - rewrite (round_normal x N). apply RN_rel_err.
  - rewrite Z, round_0. change (Qabs (0 - 0)) with 0. change (Qabs 0) with 0. lra.
Qed.

(** Accuracy over the whole range: one part in [2^53], or half the
    spacing of the subnormal numbers. *)
Lemma round_abs_err x :
  Qabs (round x - x) <= Qabs x * pow2 (-53) + pow2 (emin - 1).
Proof.
  assert (P := pow2_pos (emin - 1)).
  destruct (normal_or_not x) as [N | S].
  - pose proof (round_rel_err x (or_introl N)). lra.
  - rewrite (round_subnormal x S).
    assert (Pe := pow2_pos emin).
    destruct (rhe_err (x / pow2 emin)) as [L U].
    assert (Ex : x / pow2 emin * pow2 emin == x) by (field; lra).
    assert (Eh : pow2 emin == 2 * pow2 (emin - 1)).
    { rewrite <- pow2_S. replace (emin - 1 + 1)%Z with emin by ring. reflexivity. }
    assert (A : (inject_Z (rhe (x / pow2 emin)) - (1 # 2)) * pow2 emin
                <= x / pow2 emin * pow2 emin) by (apply Qmult_le_compat_r; lra).
    assert (B : x / pow2 emin * pow2 emin
                <= (inject_Z (rhe (x / pow2 emin)) + (1 # 2)) * pow2 emin)
      by (apply Qmult_le_compat_r; lra).
    assert (A' : (inject_Z (rhe (x / pow2 emin)) - (1 # 2)) * pow2 emin
                 == inject_Z (rhe (x / pow2 emin)) * pow2 emin - (1 # 2) * pow2 emin)
      by ring.
    assert (B' : (inject_Z (rhe (x / pow2 emin)) + (1 # 2)) * pow2 emin
                 == inject_Z (rhe (x / pow2 emin)) * pow2 emin + (1 # 2) * pow2 emin)
      by ring.
    assert (Na : 0 <= Qabs x * pow2 (-53)).
    { apply Qmult_le_0_compat; [apply Qabs_nonneg | apply Qlt_le_weak, pow2_pos]. }
    apply Qabs_Qle_condition. split; lra.
Qed.

Lemma spacing_small : pow2 (emin - 1) <= pow2 (-53).
Proof. apply pow2_le. unfold emin. lia. Qed.

Lemma round_positive x : tiny <= x -> 0 < round x.
Proof.
  intros H. assert (T := tiny_pos).
  rewrite round_normal by (rewrite Qabs_pos; lra). apply RN_positive. lra.
Qed.

(** The quotient of two positive C integers is a normal number. *)
Lemma ratio_normal a b :
  (0 < a <= 2 ^ 31)%Z -> (0 < b <= 2 ^ 31)%Z ->
  tiny <= inject_Z a / inject_Z b /\ overflows (inject_Z a / inject_Z b) = false.
Proof.
  intros Ha Hb.
  assert (Pa : 0 < inject_Z a) by (change 0 with (inject_Z 0); rewrite <- Zlt_Qlt; lia).
  assert (Pb : 0 < inject_Z b) by (change 0 with (inject_Z 0); rewrite <- Zlt_Qlt; lia).
  assert (Ua : inject_Z a <= inject_Z (2 ^ 31)) by (rewrite <- Zle_Qle; lia).
  assert (Ub : inject_Z b <= inject_Z (2 ^ 31)) by (rewrite <- Zle_Qle; lia).
  assert (La : 1 <= inject_Z a) by (change 1 with (inject_Z 1); rewrite <- Zle_Qle; lia).
  assert (Lb : 1 <= inject_Z b) by (change 1 with (inject_Z 1); rewrite <- Zle_Qle; lia).
  assert (Q1 : pow2 (-31) <= inject_Z a / inject_Z b).
  { apply Qle_shift_div_l; [exact Pb |].
    assert (E : pow2 (-31) * inject_Z (2 ^ 31) == 1) by reflexivity.
    assert (pow2 (-31) * inject_Z b <= pow2 (-31) * inject_Z (2 ^ 31)).
    { apply Qmult_le_l; [apply pow2_pos | exact Ub]. }
    lra. }
  assert (Q2 : inject_Z a / inject_Z b <= inject_Z (2 ^ 31)).
  { apply Qle_shift_div_r; [exact Pb |].
    assert (inject_Z (2 ^ 31) * 1 <= inject_Z (2 ^ 31) * inject_Z b).
    { apply Qmult_le_l; [reflexivity | exact Lb]. }
    lra. }
  split.
  - assert (tiny <= pow2 (-31)) by (apply pow2_le; unfold emin, prec; lia). lra.
  - unfold overflows. destruct (Qle_bool _ _) eqn:E; [| reflexivity].
    apply Qle_bool_iff in E.
    assert (A : Qabs (inject_Z a / inject_Z b) == inject_Z a / inject_Z b)
      by (apply Qabs_pos; assert (T := pow2_pos (-31)); lra).
    rewrite A in E.
    assert (B : inject_Z (2 ^ 31) < pow2 emax - pow2 (emax - prec - 1)).
    { assert (X : pow2 32 <= pow2 emax - pow2 (emax - prec - 1)).
      { assert (Y : pow2 (emax - prec - 1) <= pow2 (emax - 1)) by (apply pow2_le; unfold prec; lia).
        assert (Z : pow2 emax == 2 * pow2 (emax - 1)).
        { rewrite <- pow2_S. replace (emax - 1 + 1)%Z with emax by ring. reflexivity. }
        assert (W : pow2 32 <= pow2 (emax - 1)) by (apply pow2_le; unfold emax; lia).
        lra. }
      assert (V : inject_Z (2 ^ 31) < pow2 32).
      { rewrite (pow2_Z 32) by lia. rewrite <- Zlt_Qlt. lia. }
      lra. }
    lra.
Qed.

(** ** Truncation *)

Lemma trunc_nonneg x : 0 <= x -> trunc x = Qfloor x.
Proof. intros H. unfold trunc. apply Qle_bool_iff in H. rewrite H. reflexivity. Qed.

Lemma trunc_le x n : 0 <= x -> x <= inject_Z n -> (0 <= trunc x <= n)%Z.
Proof.
  intros H0 H. rewrite trunc_nonneg by exact H0. split.
  - rewrite <- (Qfloor_Z 0). apply Qfloor_resp_le, H0.
  - rewrite <- (Qfloor_Z n). apply Qfloor_resp_le, H.
Qed.

End F64Facts.

(** ** Agreement with [SpecFloat] *)

(** On every pair of integers from 1 to 40, on the sizes of the
    catalog and at the two ends of the exponent range, [F64] and the
    library's binary64 give the same floats. *)
Example F64_agrees_on_grid : forallb F64Check.agree (F64Check.grid 40) = true.
Proof. vm_compute. reflexivity. Qed.

Example F64_agrees_on_catalog :
  forallb F64Check.agree
    [(1200, 675); (1080, 1080); (1080, 1920); (1080, 1350); (1200, 800);
     (675, 1200); (1920, 1080); (1, 49); (255, 100); (35, 100); (15, 100); (85, 100)]
  = true.
Proof. vm_compute. reflexivity. Qed.

Example F64_agrees_at_the_ends :
  forallb F64Check.agree_at_the_ends
    [(1, 3 * 2 ^ 1021); (5, 7 * 2 ^ 1020); (1, 2 ^ 1023); (7, 2 ^ 1022 + 12345);
     (2 ^ 1024 - 2 ^ 970, 1); (2 ^ 1024 - 2 ^ 970 - 1, 1); (2 ^ 1023, 1); (1, 3)]
  = true.
Proof. vm_compute. reflexivity. Qed.
(* ===================================================================== *)
(** * Cropping *)
(* ===================================================================== *)

Section CropFacts.
Import F64 F64Facts PIL ImageProcessor.

Lemma inject_Z_pos n : 0 < n -> (0 < inject_Z n)%Q.
Proof. intros H. change 0%Q with (inject_Z 0). rewrite <- Zlt_Qlt. exact H. Qed.

Lemma inject_Z_nonneg n : 0 <= n -> (0 <= inject_Z n)%Q.
Proof. intros H. change 0%Q with (inject_Z 0). rewrite <- Zle_Qle. exact H. Qed.

Lemma of_int_exact n : Z.abs n <= 2 ^ 53 -> (of_int n == inject_Z n)%Q.
Proof. apply round_int. Qed.

Lemma dim_exact n : 0 < n <= INT_MAX -> (of_int n == inject_Z n)%Q.
Proof. intros H. apply of_int_exact. unfold INT_MAX in H. lia. Qed.

Lemma ratio_pos a b : 0 < a -> 0 < b -> (0 < inject_Z a / inject_Z b)%Q.
Proof.
  intros Ha Hb. apply Qlt_shift_div_l; [apply inject_Z_pos, Hb |].
  rewrite Qmult_0_l. apply inject_Z_pos, Ha.
Qed.

Lemma gt_true x y : Py.gt x y = true <-> (y < x)%Q.
Proof.
  unfold Py.gt. rewrite negb_true_iff. split.
  - intros H. apply Qnot_le_lt. intros C. apply Qle_bool_iff in C. congruence.
  - intros H. destruct (Qle_bool x y) eqn:E; [| reflexivity].
    apply Qle_bool_iff in E. lra.
Qed.

Lemma gt_false x y : Py.gt x y = false <-> (x <= y)%Q.
Proof.
  unfold Py.gt. rewrite negb_false_iff. apply Qle_bool_iff.
Qed.

(** ** The operations, inside the range *)

Lemma pow2_m53 : (pow2 (-53) == 1 # 9007199254740992)%Q.
Proof. reflexivity. Qed.

Lemma pow2_m52 : (pow2 (-52) == 1 # 4503599627370496)%Q.
Proof. reflexivity. Qed.

Lemma pow2_m51 : (pow2 (-51) == 1 # 2251799813685248)%Q.
Proof. reflexivity. Qed.

(** Nothing up to [2^64] overflows, and nothing from [2^-64] upwards
    is subnormal. *)
Lemma finite_below x : (Qabs x <= pow2 64)%Q -> overflows x = false.
Proof.
  intros H. unfold overflows. destruct (Qle_bool _ _) eqn:E; [| reflexivity].
  apply Qle_bool_iff in E.
  assert (Y : (pow2 (emax - prec - 1) <= pow2 (emax - 1))%Q)
    by (apply pow2_le; unfold prec; lia).
  assert (Z : (pow2 emax == 2 * pow2 (emax - 1))%Q).
  { rewrite <- pow2_S. replace (emax - 1 + 1) with emax by ring. reflexivity. }
  assert (W : (pow2 64 < pow2 (emax - 1))%Q) by (apply pow2_lt; unfold emax; lia).
  lra.
Qed.

Lemma normal_above x : (pow2 (-64) <= x)%Q -> (tiny <= Qabs x)%Q.
Proof.
  intros H. assert (P := pow2_pos (-64)).
  assert (T : (tiny <= pow2 (-64))%Q) by (apply pow2_le; unfold emin, prec; lia).
  rewrite Qabs_pos by lra. lra.
Qed.

Lemma float_of_int_ok n : 0 <= n <= INT_MAX -> Py.float_of_int n = Py.Ok (of_int n).
Proof.
  intros H. unfold Py.float_of_int. rewrite finite_below; [reflexivity |].
  rewrite Qabs_pos by (apply inject_Z_nonneg; lia).
  rewrite (pow2_Z 64) by lia. rewrite <- Zle_Qle. unfold INT_MAX in H. lia.
Qed.

(** The quotient of two positive C integers, as a float: it is
    positive, accurate to one part in [2^53], and far from both ends
    of the range. *)
Lemma ratio_float a b :
  0 < a <= INT_MAX -> 0 < b <= INT_MAX ->
  let y := (inject_Z a / inject_Z b)%Q in
  Py.truediv_int a b = Py.Ok (round y) /\
  (y - y * pow2 (-53) <= round y <= y + y * pow2 (-53))%Q /\
  (pow2 (-32) <= round y <= pow2 32)%Q.
Proof.
  intros Ha Hb y.
  destruct (ratio_normal a b) as [N O]; try (unfold INT_MAX in *; lia).
  fold y in N, O.
  assert (Py : (0 < y)%Q) by (apply ratio_pos; lia).
  split; [| split].
  - unfold Py.truediv_int. destruct (Z.eqb_spec b 0); [lia |].
    fold y. rewrite O. reflexivity.
  - pose proof (round_rel_err y) as R. rewrite (Qabs_pos y) in R by lra.
    specialize (R (or_introl N)). apply Qabs_Qle_condition in R. lra.
  - pose proof (round_rel_err y) as R. rewrite (Qabs_pos y) in R by lra.
    specialize (R (or_introl N)). apply Qabs_Qle_condition in R.
    rewrite pow2_m53 in R.
    assert (Pa := inject_Z_pos a ltac:(lia)). assert (Pb := inject_Z_pos b ltac:(lia)).
    assert (Ua : (inject_Z a <= inject_Z (2 ^ 31))%Q)
      by (rewrite <- Zle_Qle; unfold INT_MAX in Ha; lia).
    assert (Ub : (inject_Z b <= inject_Z (2 ^ 31))%Q)
      by (rewrite <- Zle_Qle; unfold INT_MAX in Hb; lia).
    assert (La : (1 <= inject_Z a)%Q) by (change 1%Q with (inject_Z 1); rewrite <- Zle_Qle; lia).
    assert (Lb : (1 <= inject_Z b)%Q) by (change 1%Q with (inject_Z 1); rewrite <- Zle_Qle; lia).
    assert (Q1 : (pow2 (-31) <= y)%Q).
    { apply Qle_shift_div_l; [exact Pb |].
      assert (E : (pow2 (-31) * inject_Z (2 ^ 31) == 1)%Q) by reflexivity.
      assert (pow2 (-31) * inject_Z b <= pow2 (-31) * inject_Z (2 ^ 31))%Q
        by (apply Qmult_le_l; [apply pow2_pos | exact Ub]).
      lra. }
    assert (Q2 : (y <= inject_Z (2 ^ 31))%Q).
    { apply Qle_shift_div_r; [exact Pb |].
      assert (inject_Z (2 ^ 31) * 1 <= inject_Z (2 ^ 31) * inject_Z b)%Q
        by (apply Qmult_le_l; [reflexivity | exact Lb]).
      lra. }
    assert (E31 : (pow2 (-31) == 2 * pow2 (-32))%Q) by reflexivity.
    assert (E32 : (pow2 32 == 2 * inject_Z (2 ^ 31))%Q) by reflexivity.
    assert (P32 := pow2_pos (-32)).
    split; lra.
Qed.

(** [int(s / r)] and [int(s * r)] for a positive C integer [s] and a
    float [r] between [2^-32] and [2^32]. *)
Lemma int_truediv_ok s r :
  0 < s <= INT_MAX -> (pow2 (-32) <= r <= pow2 32)%Q ->
  Py.int_truediv (of_int s) r = Py.Ok (trunc (fdiv (of_int s) r)) /\
  (tiny <= Qabs (inject_Z s / r))%Q.
Proof.
  intros Hs [Lr Ur]. assert (P32 := pow2_pos (-32)).
  assert (Ps := inject_Z_pos s ltac:(lia)).
  assert (Us : (inject_Z s <= inject_Z (2 ^ 31))%Q)
    by (rewrite <- Zle_Qle; unfold INT_MAX in Hs; lia).
  assert (Ls : (1 <= inject_Z s)%Q) by (change 1%Q with (inject_Z 1); rewrite <- Zle_Qle; lia).
  assert (Lo : (pow2 (-64) <= inject_Z s / r)%Q).
  { apply Qle_shift_div_l; [lra |].
    assert (E : (pow2 (-64) * pow2 32 == pow2 (-32))%Q) by (rewrite <- pow2_add; reflexivity).
    assert (pow2 (-64) * r <= pow2 (-64) * pow2 32)%Q
      by (apply Qmult_le_l; [apply pow2_pos | exact Ur]).
    assert (pow2 (-32) <= 1)%Q by (apply (pow2_le (-32) 0); lia).
    lra. }
  assert (Hi : (inject_Z s / r <= pow2 64)%Q).
  { apply Qle_shift_div_r; [lra |].
    assert (E : (pow2 64 * pow2 (-32) == pow2 32)%Q) by (rewrite <- pow2_add; reflexivity).
    assert (pow2 64 * pow2 (-32) <= pow2 64 * r)%Q
      by (apply Qmult_le_l; [apply pow2_pos | exact Lr]).
    assert (inject_Z (2 ^ 31) <= pow2 32)%Q by (rewrite (pow2_Z 32) by lia; rewrite <- Zle_Qle; lia).
    lra. }
  split; [| apply normal_above, Lo].
  unfold Py.int_truediv. destruct (Qeq_bool r 0) eqn:E.
  { apply Qeq_bool_iff in E. lra. }
  unfold Py.int_of_rounded, fdiv. rewrite finite_below; [reflexivity |].
  rewrite (dim_exact s Hs). assert (P := pow2_pos (-64)). rewrite Qabs_pos by lra. exact Hi.
Qed.

Lemma int_mul_ok s r :
  0 < s <= INT_MAX -> (pow2 (-32) <= r <= pow2 32)%Q ->
  Py.int_mul (of_int s) r = Py.Ok (trunc (fmul (of_int s) r)) /\
  (tiny <= Qabs (inject_Z s * r))%Q.
Proof.
  intros Hs [Lr Ur]. assert (P32 := pow2_pos (-32)).
  assert (Ps := inject_Z_pos s ltac:(lia)).
  assert (Us : (inject_Z s <= inject_Z (2 ^ 31))%Q)
    by (rewrite <- Zle_Qle; unfold INT_MAX in Hs; lia).
  assert (Ls : (1 <= inject_Z s)%Q) by (change 1%Q with (inject_Z 1); rewrite <- Zle_Qle; lia).
  assert (Lo : (pow2 (-64) <= inject_Z s * r)%Q).
  { assert (1 * pow2 (-32) <= inject_Z s * r)%Q.
    { apply Qle_trans with (inject_Z s * pow2 (-32))%Q.
      - apply Qmult_le_compat_r; lra.
      - apply Qmult_le_l; lra. }
    assert (pow2 (-64) <= pow2 (-32))%Q by (apply pow2_le; lia).
    lra. }
  assert (Hi : (inject_Z s * r <= pow2 64)%Q).
  { assert (inject_Z s * r <= inject_Z (2 ^ 31) * pow2 32)%Q.
    { apply Qle_trans with (inject_Z s * pow2 32)%Q.
      - apply Qmult_le_l; lra.
      - apply Qmult_le_compat_r; [lra | apply Qlt_le_weak, pow2_pos]. }
    assert (E : (inject_Z (2 ^ 31) * pow2 32 == pow2 63)%Q) by reflexivity.
    assert (pow2 63 <= pow2 64)%Q by (apply pow2_le; lia).
    lra. }
  split; [| apply normal_above, Lo].
  unfold Py.int_mul, Py.int_of_rounded, fmul. rewrite finite_below; [reflexivity |].
  rewrite (dim_exact s Hs). assert (P := pow2_pos (-64)). rewrite Qabs_pos by lra. exact Hi.
Qed.

(** ** Accuracy of the scaled sizes *)

(** The quotient [s / (a / b)] in double precision is [s * b / a] to
    within a relative [2^-51]. *)
Lemma quotient_accuracy s a b :
  0 < s <= INT_MAX -> 0 < a <= INT_MAX -> 0 < b <= INT_MAX ->
  let e := (inject_Z s * inject_Z b / inject_Z a)%Q in
  let q := fdiv (of_int s) (round (inject_Z a / inject_Z b)) in
  (e * (1 - pow2 (-51)) <= q <= e * (1 + pow2 (-51)))%Q.
Proof.
  intros Hs Ha Hb e q.
  assert (Pa := inject_Z_pos a ltac:(lia)). assert (Pb := inject_Z_pos b ltac:(lia)).
  assert (Ps := inject_Z_pos s ltac:(lia)).
  destruct (ratio_float a b Ha Hb) as (_ & R & Rg).
  set (y := (inject_Z a / inject_Z b)%Q) in *.
  assert (Py : (0 < y)%Q) by (apply ratio_pos; lia).
  set (r := round y) in *.
  assert (Pr : (0 < r)%Q) by (assert (P := pow2_pos (-32)); lra).
  assert (Ey : (e * y == inject_Z s)%Q) by (unfold e, y; field; lra).
  set (t := (inject_Z s / r)%Q).
  assert (Et : (t * r == inject_Z s)%Q) by (unfold t; field; lra).
  assert (Pt : (0 < t)%Q) by (unfold t; apply Qlt_shift_div_l; lra).
  assert (Pe : (0 < e)%Q).
  { unfold e. apply Qlt_shift_div_l; [exact Pa |]. rewrite Qmult_0_l.
    apply Qmult_lt_0_compat; assumption. }
  rewrite pow2_m53 in R.
  assert (A : (e <= t * (1 + (1 # 9007199254740992)))%Q).
  { apply (Qmult_le_r _ _ y Py).
    assert (t * r <= t * (y + y * (1 # 9007199254740992)))%Q
      by (apply Qmult_le_l; [exact Pt | lra]).
    assert (t * (1 + (1 # 9007199254740992)) * y
            == t * (y + y * (1 # 9007199254740992)))%Q by ring.
    lra. }
  assert (B : (t * (1 - (1 # 9007199254740992)) <= e)%Q).
  { apply (Qmult_le_r _ _ y Py).
    assert (t * (y - y * (1 # 9007199254740992)) <= t * r)%Q
      by (apply Qmult_le_l; [exact Pt | lra]).
    assert (t * (1 - (1 # 9007199254740992)) * y
            == t * (y - y * (1 # 9007199254740992)))%Q by ring.
    lra. }
  assert (Eq : (q == round t)%Q).
  { unfold q, fdiv, t. rewrite (dim_exact s Hs). reflexivity. }
  destruct (int_truediv_ok s r Hs Rg) as [_ N]. fold t in N.
  pose proof (round_rel_err t (or_introl N)) as S. rewrite (Qabs_pos t) in S by lra.
  apply Qabs_Qle_condition in S. rewrite pow2_m53 in S.
  rewrite Eq, pow2_m51. split; lra.
Qed.

(** The product [s * (a / b)] in double precision is [s * a / b] to
    within a relative [2^-51]. *)
Lemma product_accuracy s a b :
  0 < s <= INT_MAX -> 0 < a <= INT_MAX -> 0 < b <= INT_MAX ->
  let e := (inject_Z s * inject_Z a / inject_Z b)%Q in
  let q := fmul (of_int s) (round (inject_Z a / inject_Z b)) in
  (e * (1 - pow2 (-51)) <= q <= e * (1 + pow2 (-51)))%Q.
Proof.
  intros Hs Ha Hb e q.
  assert (Pa := inject_Z_pos a ltac:(lia)). assert (Pb := inject_Z_pos b ltac:(lia)).
  assert (Ps := inject_Z_pos s ltac:(lia)).
  destruct (ratio_float a b Ha Hb) as (_ & R & Rg).
  set (y := (inject_Z a / inject_Z b)%Q) in *.
  assert (Py : (0 < y)%Q) by (apply ratio_pos; lia).
  set (r := round y) in *.
  assert (Pr : (0 < r)%Q) by (assert (P := pow2_pos (-32)); lra).
  assert (Ey : (e == inject_Z s * y)%Q) by (unfold e, y; field; lra).
  set (t := (inject_Z s * r)%Q).
  assert (Pt : (0 < t)%Q) by (apply Qmult_lt_0_compat; assumption).
  assert (Pe : (0 < e)%Q) by (rewrite Ey; apply Qmult_lt_0_compat; assumption).
  rewrite pow2_m53 in R.
  assert (A : (inject_Z s * (y - y * (1 # 9007199254740992)) <= t)%Q)
    by (apply Qmult_le_l; [exact Ps | lra]).
  assert (B : (t <= inject_Z s * (y + y * (1 # 9007199254740992)))%Q)
    by (apply Qmult_le_l; [exact Ps | lra]).
  assert (A' : (inject_Z s * (y - y * (1 # 9007199254740992))
                == e * (1 - (1 # 9007199254740992)))%Q) by (rewrite Ey; ring).
  assert (B' : (inject_Z s * (y + y * (1 # 9007199254740992))
                == e * (1 + (1 # 9007199254740992)))%Q) by (rewrite Ey; ring).
  assert (Eq : (q == round t)%Q).
  { unfold q, fmul, t. rewrite (dim_exact s Hs). reflexivity. }
  destruct (int_mul_ok s r Hs Rg) as [_ N]. fold t in N.
  pose proof (round_rel_err t (or_introl N)) as S. rewrite (Qabs_pos t) in S by lra.
  apply Qabs_Qle_condition in S. rewrite pow2_m53 in S.
  rewrite Eq, pow2_m51. split; lra.
Qed.

(** A relative [2^-51] of a size is less than half a pixel. *)
Lemma half_pixel e n :
  0 < n <= INT_MAX -> (0 <= e <= inject_Z n)%Q -> (e * pow2 (-51) < 1 # 2)%Q.
Proof.
  intros Hn [E0 E1]. rewrite pow2_m51.
  assert (inject_Z n <= inject_Z (2 ^ 31))%Q by (rewrite <- Zle_Qle; unfold INT_MAX in Hn; lia).
  assert (inject_Z (2 ^ 31) == 2147483648)%Q by reflexivity.
  lra.
Qed.

(** Two rationals less than a pixel apart have floors at most one
    apart. *)
Lemma floor_close x y :
  (x - 1 < y < x + 1)%Q -> Z.abs (Qfloor x - Qfloor y) <= 1.
Proof.
  intros [L U].
  pose proof (Qfloor_le x) as Fx. pose proof (Qlt_floor x) as Gx.
  pose proof (Qfloor_le y) as Fy. pose proof (Qlt_floor y) as Gy.
  rewrite inject_Z_plus in Gx, Gy. change (inject_Z 1) with 1%Q in Gx, Gy.
  assert (A : (inject_Z (Qfloor x) < inject_Z (Qfloor y + 2))%Q).
  { rewrite inject_Z_plus. change (inject_Z 2) with 2%Q. lra. }
  assert (B : (inject_Z (Qfloor y) < inject_Z (Qfloor x + 2))%Q).
  { rewrite inject_Z_plus. change (inject_Z 2) with 2%Q. lra. }
  rewrite <- Zlt_Qlt in A, B. lia.
Qed.

(** ** The crop box *)

(** A float above the rounded ratio is above the ratio itself. *)
Lemma above_rounded x y : (round y < round x)%Q -> (y < round x)%Q.
Proof.
  intros H. apply Qnot_le_lt. intros C.
  apply round_mono in C. rewrite round_idem in C. lra.
Qed.

(** Height-limited crop: the new height fits the image. *)
Lemma new_height_range w h tw th :
  0 < w <= INT_MAX -> 0 < h <= INT_MAX -> 0 < tw <= INT_MAX -> 0 < th <= INT_MAX ->
  let tr := round (inject_Z tw / inject_Z th) in
  (round (inject_Z w / inject_Z h) < tr)%Q ->
  (0 <= fdiv (of_int w) tr <= inject_Z h)%Q.
Proof.
  intros Hw Hh Htw Hth tr Hgt.
  destruct (ratio_float tw th Htw Hth) as (_ & _ & Rg). fold tr in Rg.
  assert (Ptr : (0 < tr)%Q) by (assert (P := pow2_pos (-32)); lra).
  assert (Hex := above_rounded _ _ Hgt). fold tr in Hex.
  assert (Pw := inject_Z_pos w ltac:(lia)). assert (Ph := inject_Z_pos h ltac:(lia)).
  assert (Hq : (inject_Z w / tr <= inject_Z h)%Q).
  { apply Qle_shift_div_r; [exact Ptr |].
    assert (inject_Z w / inject_Z h * inject_Z h == inject_Z w)%Q by (field; lra).
    assert (inject_Z w / inject_Z h * inject_Z h <= tr * inject_Z h)%Q
      by (apply Qmult_le_compat_r; lra).
    rewrite (Qmult_comm (inject_Z h) tr). lra. }
  unfold fdiv. rewrite (dim_exact w Hw). split.
  - apply round_nonneg. apply Qle_shift_div_l; [exact Ptr | lra].
  - rewrite <- (round_int h) by (unfold INT_MAX in Hh; lia).
    apply round_mono. exact Hq.
Qed.

(** Width-limited crop: the new width fits the image. *)
Lemma new_width_range w h tw th :
  0 < w <= INT_MAX -> 0 < h <= INT_MAX -> 0 < tw <= INT_MAX -> 0 < th <= INT_MAX ->
  let tr := round (inject_Z tw / inject_Z th) in
  (tr <= round (inject_Z w / inject_Z h))%Q ->
  (0 <= fmul (of_int h) tr < inject_Z (w + 1))%Q.
Proof.
  intros Hw Hh Htw Hth tr Hle.
  destruct (ratio_float tw th Htw Hth) as (_ & _ & Rg). fold tr in Rg.
  assert (Ptr : (0 < tr)%Q) by (assert (P := pow2_pos (-32)); lra).
  assert (Pw := inject_Z_pos w ltac:(lia)). assert (Ph := inject_Z_pos h ltac:(lia)).
  assert (Bw : (inject_Z w <= inject_Z (2 ^ 52))%Q)
    by (rewrite <- Zle_Qle; unfold INT_MAX in Hw; lia).
  unfold fmul. rewrite (dim_exact h Hh). split.
  - apply round_nonneg. apply Qmult_le_0_compat; lra.
  - destruct (ratio_float w h Hw Hh) as (_ & R & _).
    set (y := (inject_Z w / inject_Z h)%Q) in *.
    assert (Py : (0 < y)%Q) by (apply ratio_pos; lia).
    assert (Ey : (inject_Z h * y == inject_Z w)%Q) by (unfold y; field; lra).
    destruct R as [_ R].
    assert (P53' : (0 < pow2 (-53))%Q) by apply pow2_pos.
    (* h * tr <= w + 1/2 *)
    assert (B : (inject_Z h * tr <= inject_Z w + (1 # 2))%Q).
    { assert (B1 : (inject_Z h * tr <= inject_Z h * (y + y * pow2 (-53)))%Q).
      { apply Qmult_le_l; [exact Ph | lra]. }
      assert (B2 : (inject_Z h * (y + y * pow2 (-53)) == inject_Z w + inject_Z w * pow2 (-53))%Q).
      { rewrite <- Ey. ring. }
      assert (B3 : (inject_Z w * pow2 (-53) <= inject_Z (2 ^ 52) * pow2 (-53))%Q).
      { apply Qmult_le_compat_r; lra. }
      assert (B4 : (inject_Z (2 ^ 52) * pow2 (-53) == 1 # 2)%Q) by reflexivity.
      lra. }
    assert (L1 : (1 <= inject_Z w)%Q)
      by (change 1%Q with (inject_Z 1); rewrite <- Zle_Qle; lia).
    assert (E : (round (inject_Z w + (1 # 2)) == inject_Z w + (1 # 2))%Q).
    { apply (round_exact _ (2 * w + 1) (-1)); [unfold INT_MAX in Hw; lia | |].
      - rewrite inject_Z_plus, inject_Z_mult. change (pow2 (-1)) with (1 # 2)%Q.
        change (inject_Z 2) with 2%Q. change (inject_Z 1) with 1%Q. ring.
      - left. assert (T := one_is_normal). rewrite Qabs_pos by lra. lra. }
    apply round_mono in B. rewrite E in B.
    rewrite inject_Z_plus. change (inject_Z 1) with 1%Q. lra.
Qed.

Lemma trunc_floor_range q n :
  (0 <= q)%Q -> (q <= inject_Z n)%Q -> trunc q = Qfloor q /\ 0 <= Qfloor q <= n.
Proof.
  intros H0 H. pose proof (trunc_le q n H0 H) as T.
  rewrite (trunc_nonneg q H0) in *. split; [reflexivity | exact T].
Qed.

Lemma floor_below q n :
  (0 <= q < inject_Z (n + 1))%Q -> trunc q = Qfloor q /\ 0 <= Qfloor q <= n.
Proof.
  intros [Q0 Q1]. split; [apply trunc_nonneg, Q0 |]. split.
  - rewrite <- (Qfloor_Z 0). apply Qfloor_resp_le, Q0.
  - pose proof (Qfloor_le q) as F.
    assert (L : (inject_Z (Qfloor q) < inject_Z (n + 1))%Q) by lra.
    rewrite <- Zlt_Qlt in L. lia.
Qed.

(** For sizes in the range of a C integer no step fails, and the box is
    the one of the branch taken. *)
Lemma smart_crop_box_eval (w h tw th : Z) :
  0 < w <= INT_MAX -> 0 < h <= INT_MAX -> 0 < tw <= INT_MAX -> 0 < th <= INT_MAX ->
  let ir := round (inject_Z w / inject_Z h) in
  let tr := round (inject_Z tw / inject_Z th) in
  smart_crop_box w h tw th =
    Py.Ok (if Py.gt tr ir then
             let new_height := trunc (fdiv (of_int w) tr) in
             let offset := (h - new_height) / 2 in
             (0, offset, w, offset + new_height)
           else
             let new_width := trunc (fmul (of_int h) tr) in
             let offset := (w - new_width) / 2 in
             (offset, 0, offset + new_width, h)).
Proof.
  intros Hw Hh Htw Hth ir tr. unfold smart_crop_box.
  destruct (ratio_float w h Hw Hh) as (E1 & _ & _).
  destruct (ratio_float tw th Htw Hth) as (E2 & _ & Rg).
  rewrite E1, E2. cbn [mbind Py.result_bind]. fold ir tr. fold tr in Rg.
  destruct (Py.gt tr ir).
  - rewrite float_of_int_ok by lia. cbn [mbind Py.result_bind].
    destruct (int_truediv_ok w tr Hw Rg) as [-> _]. reflexivity.
  - rewrite float_of_int_ok by lia. cbn [mbind Py.result_bind].
    destruct (int_mul_ok h tr Hh Rg) as [-> _]. reflexivity.
Qed.

(** ** The box in double precision and the box of the text *)

Lemma floor_unique x n :
  (inject_Z n <= x < inject_Z (n + 1))%Q -> Qfloor x = n.
Proof.
  intros [L U].
  pose proof (Qfloor_le x) as F. pose proof (Qlt_floor x) as G.
  assert (A : (inject_Z (Qfloor x) < inject_Z (n + 1))%Q) by lra.
  assert (B : (inject_Z n < inject_Z (Qfloor x + 1))%Q) by lra.
  rewrite <- Zlt_Qlt in A, B. lia.
Qed.

Section Aspects.
Variables w h tw th : Z.
Hypothesis Hw : 0 < w <= INT_MAX.
Hypothesis Hh : 0 < h <= INT_MAX.
Hypothesis Htw : 0 < tw <= INT_MAX.
Hypothesis Hth : 0 < th <= INT_MAX.

Let ia : Q := (inject_Z w / inject_Z h)%Q.
Let ta : Q := (inject_Z tw / inject_Z th)%Q.
Let ir : Q := round ia.
Let tr : Q := round ta.

Lemma aspects_pos : (0 < ia)%Q /\ (0 < ta)%Q.
Proof. split; apply ratio_pos; lia. Qed.

Lemma image_aspect_times_height : (ia * inject_Z h == inject_Z w)%Q.
Proof. unfold ia. assert (Ph := inject_Z_pos h ltac:(lia)). field. lra. Qed.

(** The exact quotient is the height [w * th / tw] and the exact
    product the width [h * tw / th]. *)
Lemma exact_quotient : (inject_Z w / ta == inject_Z w * inject_Z th / inject_Z tw)%Q.
Proof.
  unfold ta. assert (P1 := inject_Z_pos tw ltac:(lia)).
  assert (P2 := inject_Z_pos th ltac:(lia)). field. split; lra.
Qed.

Lemma exact_product : (inject_Z h * ta == inject_Z h * inject_Z tw / inject_Z th)%Q.
Proof.
  unfold ta. assert (P2 := inject_Z_pos th ltac:(lia)). field. lra.
Qed.

Lemma exact_height_range : (ia < ta)%Q -> (0 <= inject_Z w / ta < inject_Z h)%Q.
Proof.
  intros G. destruct aspects_pos as [Pi Pt].
  assert (Pw := inject_Z_pos w ltac:(lia)). assert (Ph := inject_Z_pos h ltac:(lia)).
  assert (E := image_aspect_times_height). split.
  - apply Qle_shift_div_l; [exact Pt | lra].
  - apply Qlt_shift_div_r; [exact Pt |].
    assert (ia * inject_Z h < ta * inject_Z h)%Q by (apply Qmult_lt_compat_r; assumption).
    rewrite (Qmult_comm (inject_Z h) ta). lra.
Qed.

Lemma exact_width_range : (ta <= ia)%Q -> (0 <= inject_Z h * ta <= inject_Z w)%Q.
Proof.
  intros G. destruct aspects_pos as [Pi Pt].
  assert (Pw := inject_Z_pos w ltac:(lia)). assert (Ph := inject_Z_pos h ltac:(lia)).
  assert (E := image_aspect_times_height). split.
  - apply Qmult_le_0_compat; lra.
  - assert (ta * inject_Z h <= ia * inject_Z h)%Q by (apply Qmult_le_compat_r; lra).
    rewrite (Qmult_comm (inject_Z h) ta). lra.
Qed.

(** Where the text takes the height-limited branch, the height in
    double precision is within a pixel of the exact one. *)
Lemma heights_close :
  (ia < ta)%Q ->
  Z.abs (Qfloor (fdiv (of_int w) tr) - Qfloor (inject_Z w / ta)) <= 1 /\
  0 <= Qfloor (inject_Z w / ta) <= h - 1.
Proof.
  intros G. destruct (exact_height_range G) as [E0 E1].
  pose proof (quotient_accuracy w tw th Hw Htw Hth) as A. cbn zeta in A.
  fold ta tr in A. rewrite <- exact_quotient in A.
  assert (Hp := half_pixel (inject_Z w / ta) h Hh ltac:(split; lra)).
  split.
  - apply floor_close. split; lra.
  - split.
    + rewrite <- (Qfloor_Z 0). apply Qfloor_resp_le, E0.
    + pose proof (Qfloor_le (inject_Z w / ta)) as F.
      assert (L : (inject_Z (Qfloor (inject_Z w / ta)) < inject_Z h)%Q) by lra.
      rewrite <- Zlt_Qlt in L. lia.
Qed.

(** Where the text takes the width-limited branch, the width in double
    precision is within a pixel of the exact one. *)
Lemma widths_close :
  (ta <= ia)%Q ->
  Z.abs (Qfloor (fmul (of_int h) tr) - Qfloor (inject_Z h * ta)) <= 1 /\
  0 <= Qfloor (inject_Z h * ta) <= w.
Proof.
  intros G. destruct (exact_width_range G) as [E0 E1].
  pose proof (product_accuracy h tw th Hh Htw Hth) as A. cbn zeta in A.
  fold ta tr in A. rewrite <- exact_product in A.
  assert (Hp := half_pixel (inject_Z h * ta) w Hw ltac:(split; lra)).
  split.
  - apply floor_close. split; lra.
  - split.
    + rewrite <- (Qfloor_Z 0). apply Qfloor_resp_le, E0.
    + rewrite <- (Qfloor_Z w). apply Qfloor_resp_le, E1.
Qed.

(** Two aspects that differ but round to the same double: the text
    crops one row, the code at most one column. *)
Lemma crossing :
  (tr <= ir)%Q -> (ia < ta)%Q ->
  Qfloor (inject_Z w / ta) = h - 1 /\ w - 1 <= Qfloor (fmul (of_int h) tr).
Proof.
  intros Le G. destruct aspects_pos as [Pi Pt].
  assert (Pw := inject_Z_pos w ltac:(lia)). assert (Ph := inject_Z_pos h ltac:(lia)).
  assert (E := image_aspect_times_height).
  destruct (ratio_float w h Hw Hh) as (_ & Ri & _).
  destruct (ratio_float tw th Htw Hth) as (_ & Rt & _).
  fold ia ir in Ri. fold ta tr in Rt. rewrite pow2_m53 in Ri, Rt.
  assert (Uh : (inject_Z h <= 2147483648)%Q).
  { assert (inject_Z h <= inject_Z (2 ^ 31))%Q
      by (rewrite <- Zle_Qle; unfold INT_MAX in Hh; lia).
    assert (inject_Z (2 ^ 31) == 2147483648)%Q by reflexivity. lra. }
  assert (Uw : (inject_Z w <= 2147483648)%Q).
  { assert (inject_Z w <= inject_Z (2 ^ 31))%Q
      by (rewrite <- Zle_Qle; unfold INT_MAX in Hw; lia).
    assert (inject_Z (2 ^ 31) == 2147483648)%Q by reflexivity. lra. }
  (* w <= ia * 2^31 *)
  assert (Li : (inject_Z w <= ia * 2147483648)%Q).
  { assert (ia * inject_Z h <= ia * 2147483648)%Q by (apply Qmult_le_l; assumption). lra. }
  (* with T := ta * h *)
  assert (T1 : (ta * inject_Z h - ta * (1 # 9007199254740992) * inject_Z h
                <= inject_Z w + inject_Z w * (1 # 9007199254740992))%Q).
  { assert (X : ((ta - ta * (1 # 9007199254740992)) * inject_Z h
                 <= (ia + ia * (1 # 9007199254740992)) * inject_Z h)%Q)
      by (apply Qmult_le_compat_r; lra).
    assert (Y : ((ia + ia * (1 # 9007199254740992)) * inject_Z h
                 == inject_Z w + inject_Z w * (1 # 9007199254740992))%Q)
      by (rewrite <- E; ring).
    assert (Z : ((ta - ta * (1 # 9007199254740992)) * inject_Z h
                 == ta * inject_Z h - ta * (1 # 9007199254740992) * inject_Z h)%Q) by ring.
    lra. }
  assert (T2 : (ta * (1 # 9007199254740992) * inject_Z h
                == ta * inject_Z h * (1 # 9007199254740992))%Q) by ring.
  assert (T3 : (inject_Z w < ta * inject_Z h)%Q).
  { assert (ia * inject_Z h < ta * inject_Z h)%Q by (apply Qmult_lt_compat_r; assumption).
    lra. }
  destruct (exact_height_range G) as [E0 E1].
  split.
  - apply floor_unique. replace (h - 1 + 1) with h by ring. split; [| exact E1].
    apply Qle_shift_div_l; [exact Pt |].
    unfold Z.sub. rewrite inject_Z_plus, inject_Z_opp. change (inject_Z 1) with 1%Q.
    assert ((inject_Z h - 1) * ta == ta * inject_Z h - ta)%Q by ring.
    lra.
  - assert (B : (inject_Z (w - 1) <= inject_Z h * tr)%Q).
    { unfold Z.sub. rewrite inject_Z_plus, inject_Z_opp. change (inject_Z 1) with 1%Q.
      assert (X : (inject_Z h * (ta - ta * (1 # 9007199254740992)) <= inject_Z h * tr)%Q)
        by (apply Qmult_le_l; [exact Ph | lra]).
      assert (Y : (inject_Z h * (ta - ta * (1 # 9007199254740992))
                   == ta * inject_Z h - ta * inject_Z h * (1 # 9007199254740992))%Q) by ring.
      lra. }
    apply round_mono in B. rewrite round_int in B by (unfold INT_MAX in Hw; lia).
    assert (C : (inject_Z (w - 1) <= fmul (of_int h) tr)%Q).
    { unfold fmul. rewrite (dim_exact h Hh). exact B. }
    rewrite <- (Qfloor_Z (w - 1)). apply Qfloor_resp_le, C.
Qed.

End Aspects.

Lemma centre_close n a b :
  0 <= a <= n -> 0 <= b <= n -> Z.abs (a - b) <= 1 ->
  Z.abs ((n - a) / 2 - (n - b) / 2) <= 1 /\
  Z.abs ((n - a) / 2 + a - ((n - b) / 2 + b)) <= 1.
Proof.
  intros Ha Hb D.
  pose proof (Z.div_mod (n - a) 2 ltac:(lia)) as Da.
  pose proof (Z.mod_pos_bound (n - a) 2 ltac:(lia)) as Ma.
  pose proof (Z.div_mod (n - b) 2 ltac:(lia)) as Db.
  pose proof (Z.mod_pos_bound (n - b) 2 ltac:(lia)) as Mb.
  lia.
Qed.

(** C2. The crop box of [smart_crop], for an image and a target whose
    sides are positive and no larger than a C integer: no step fails,
    and the box is the one of section 4.1 with the two aspects, the
    quotient and the product each rounded to the nearest double.  When
    the rounded target aspect exceeds the rounded image aspect it is
    the full width and [floor(width / targetAspect)] rows at the
    vertical offset [(height - newHeight) / 2] with truncating
    division; otherwise [floor(height * targetAspect)] columns of full
    height, centred horizontally.  The box lies inside the image, the
    margins on its two sides differ by at most one pixel, and every
    side of it is within one pixel of the box that exact arithmetic
    gives. *)
Theorem smart_crop_box_is_cover_crop_box_in_doubles (w h tw th : Z) :
  0 < w <= INT_MAX -> 0 < h <= INT_MAX -> 0 < tw <= INT_MAX -> 0 < th <= INT_MAX ->
  let r := Spec.cover_crop_box_in_doubles w h tw th in
  smart_crop_box w h tw th = Py.Ok (Spec.box_of r) /\
  Spec.inside w h r /\ Spec.centred w h r /\
  Spec.within_a_pixel (Spec.box_of r) (Spec.box_of (Spec.cover_crop_box w h tw th)).
Proof.
  intros Hw Hh Htw Hth r. subst r.
  rewrite smart_crop_box_eval by assumption.
  unfold Spec.cover_crop_box_in_doubles, Spec.cover_crop_box, Spec.inside, Spec.centred.
  set (ia := (inject_Z w / inject_Z h)%Q).
  set (ta := (inject_Z tw / inject_Z th)%Q).
  set (ir := round ia). set (tr := round ta).
  fold (Py.gt tr ir). fold (Py.gt ta ia).
  assert (Ew : Qfloor (round (inject_Z w / tr)) = Qfloor (fdiv (of_int w) tr)).
  { apply Qfloor_comp. unfold fdiv. rewrite (dim_exact w Hw). reflexivity. }
  assert (Eh : Qfloor (round (inject_Z h * tr)) = Qfloor (fmul (of_int h) tr)).
  { apply Qfloor_comp. unfold fmul. rewrite (dim_exact h Hh). reflexivity. }
  rewrite Ew, Eh.
  destruct (Py.gt tr ir) eqn:G.
  - apply gt_true in G.
    destruct (new_height_range w h tw th Hw Hh Htw Hth G) as [Q0 Qh].
    fold ta tr in Q0, Qh.
    destruct (trunc_floor_range _ _ Q0 Qh) as [Et Rg]. cbn zeta. rewrite Et.
    set (nh := Qfloor (fdiv (of_int w) tr)) in *.
    assert (Gx : (ia < ta)%Q).
    { apply Qnot_le_lt. intros C. apply round_mono in C. fold ir tr in C. lra. }
    assert (Gb : Py.gt ta ia = true) by (apply gt_true, Gx). rewrite Gb.
    pose proof (heights_close w h tw th Hw Hh Htw Hth) as Hc. cbn zeta in Hc.
    fold ia ta tr nh in Hc. destruct (Hc Gx) as [Cl Rs].
    set (nh' := Qfloor (inject_Z w / ta)) in *.
    unfold Spec.box_of, Spec.within_a_pixel.
    cbn [Spec.rect_x Spec.rect_y Spec.rect_width Spec.rect_height].
    rewrite !Z.quot_div_nonneg by lia.
    pose proof (Z.div_mod (h - nh) 2 ltac:(lia)) as D.
    pose proof (Z.mod_pos_bound (h - nh) 2 ltac:(lia)) as M.
    destruct (centre_close h nh nh' ltac:(lia) ltac:(lia) Cl) as [C1 C2].
    split; [repeat f_equal; lia |]. split; [lia |]. split; [left; lia |].
    repeat split; lia.
  - apply gt_false in G.
    destruct (new_width_range w h tw th Hw Hh Htw Hth G) as [Q0 Qw].
    fold ta tr in Q0, Qw.
    destruct (floor_below _ _ (conj Q0 Qw)) as [Et Rg]. cbn zeta. rewrite Et.
    set (nw := Qfloor (fmul (of_int h) tr)) in *.
    unfold Spec.box_of at 1 2 3.
    cbn [Spec.rect_x Spec.rect_y Spec.rect_width Spec.rect_height].
    rewrite Z.quot_div_nonneg by lia.
    pose proof (Z.div_mod (w - nw) 2 ltac:(lia)) as D.
    pose proof (Z.mod_pos_bound (w - nw) 2 ltac:(lia)) as M.
    split; [repeat f_equal; lia |]. split; [lia |]. split; [right; lia |].
    destruct (Py.gt ta ia) eqn:Gx.
    + apply gt_true in Gx.
      pose proof (crossing w h tw th Hw Hh Htw Hth) as Cr. cbn zeta in Cr.
      fold ia ta ir tr nw in Cr. destruct (Cr G Gx) as [Enh Lnw].
      unfold Spec.box_of, Spec.within_a_pixel.
      cbn [Spec.rect_x Spec.rect_y Spec.rect_width Spec.rect_height].
      rewrite Enh. replace (h - (h - 1)) with 1 by ring.
      change (1 ÷ 2) with 0.
      assert (O : (w - nw) / 2 = 0) by (apply Z.div_small; lia).
      rewrite O. repeat split; lia.
    + apply gt_false in Gx.
      pose proof (widths_close w h tw th Hw Hh Htw Hth) as Hc. cbn zeta in Hc.
      fold ia ta tr nw in Hc. destruct (Hc Gx) as [Cl Rs].
      set (nw' := Qfloor (inject_Z h * ta)) in *.
      unfold Spec.box_of, Spec.within_a_pixel.
      cbn [Spec.rect_x Spec.rect_y Spec.rect_width Spec.rect_height].
      rewrite !Z.quot_div_nonneg by lia.
      destruct (centre_close w nw nw' ltac:(lia) ltac:(lia) Cl) as [C1 C2].
      repeat split; lia.
Qed.

Lemma smart_crop_box_in_doubles_witness :
  (0 < 200 <= INT_MAX) /\ (0 < 398 <= INT_MAX) /\
  (0 < 100 <= INT_MAX) /\ (0 < 199 <= INT_MAX) /\
  smart_crop_box 200 398 100 199
  = Py.Ok (Spec.box_of (Spec.cover_crop_box_in_doubles 200 398 100 199)) /\
  Spec.inside 200 398 (Spec.cover_crop_box_in_doubles 200 398 100 199) /\
  Spec.centred 200 398 (Spec.cover_crop_box_in_doubles 200 398 100 199) /\
  Spec.within_a_pixel (Spec.box_of (Spec.cover_crop_box_in_doubles 200 398 100 199))
                      (Spec.box_of (Spec.cover_crop_box 200 398 100 199)).
Proof.
  assert (H1 : 0 < 200 <= INT_MAX) by (unfold INT_MAX; lia).
  assert (H2 : 0 < 398 <= INT_MAX) by (unfold INT_MAX; lia).
  assert (H3 : 0 < 100 <= INT_MAX) by (unfold INT_MAX; lia).
  assert (H4 : 0 < 199 <= INT_MAX) by (unfold INT_MAX; lia).
  exact (conj H1 (conj H2 (conj H3 (conj H4
           (smart_crop_box_is_cover_crop_box_in_doubles 200 398 100 199 H1 H2 H3 H4))))).
Defined.

(** The box of the text is not always the box computed.  [100 / 199]
    is rounded, and [398] times the rounded ratio is just below [200]
    in double precision: a [200 x 398] image cropped for a [100 x 199]
    target, which has its aspect exactly, loses a column, and a
    [1 x 49] image cropped for its own size keeps no column at all.  A
    target side too large for a double stops the computation with
    [OverflowError]. *)
Lemma exact_cover_crop_box_is_not_computed :
  (0 < 200 /\ 0 < 398 /\ 0 < 100 /\ 0 < 199 /\
   smart_crop_box 200 398 100 199 = Py.Ok (0, 0, 199, 398) /\
   Spec.box_of (Spec.cover_crop_box 200 398 100 199) = (0, 0, 200, 398) /\
   smart_crop_box 200 398 100 199
   <> Py.Ok (Spec.box_of (Spec.cover_crop_box 200 398 100 199))) /\
  (smart_crop_box 1 49 1 49 = Py.Ok (0, 0, 0, 49) /\
   Spec.box_of (Spec.cover_crop_box 1 49 1 49) = (0, 0, 1, 49)) /\
  (0 < 10 ^ 400 /\
   smart_crop_box 1200 800 (10 ^ 400) 1 = Py.Raise Py.OverflowError /\
   Spec.box_of (Spec.cover_crop_box 1200 800 (10 ^ 400) 1) = (0, 400, 1200, 400)).
Proof.
  split; [| split].
  - repeat (split; [lia |]).
    assert (E : smart_crop_box 200 398 100 199 = Py.Ok (0, 0, 199, 398))
      by (vm_compute; reflexivity).
    assert (F : Spec.box_of (Spec.cover_crop_box 200 398 100 199) = (0, 0, 200, 398))
      by (vm_compute; reflexivity).
    split; [exact E |]. split; [exact F |]. rewrite E, F. intros C. inversion C.
  - split; vm_compute; reflexivity.
  - split; [lia |]. split; vm_compute; reflexivity.
Qed.

(** An image that passes the size check has sides in the range of a
    C integer. *)
Lemma area_bounds w h :
  0 < w -> 0 < h -> w * h <= 2 * MAX_IMAGE_PIXELS -> w <= INT_MAX /\ h <= INT_MAX.
Proof.
  intros Hw Hh A.
  assert (B : 2 * MAX_IMAGE_PIXELS <= INT_MAX) by (vm_compute; discriminate).
  split; nia.
Qed.

Lemma resize_outcome_ok (enough : Z * Z -> bool) (current sz : Z * Z) :
  0 < fst sz <= INT_MAX -> 0 < snd sz <= INT_MAX -> enough sz = true ->
  exists how, resize_outcome enough current sz = Py.Ok how.
Proof.
  intros H1 H2 A. unfold resize_outcome.
  destruct (bool_decide (current = sz)); [eexists; reflexivity |].
  unfold c_int.
  destruct (Z.leb_spec (- INT_MAX - 1) (fst sz)); [| lia].
  destruct (Z.leb_spec (fst sz) INT_MAX); [| lia].
  destruct (Z.leb_spec (- INT_MAX - 1) (snd sz)); [| lia].
  destruct (Z.leb_spec (snd sz) INT_MAX); [| lia].
  destruct (Z.ltb_spec (fst sz) 1); [lia |]. destruct (Z.ltb_spec (snd sz) 1); [lia |].
  rewrite A. eexists; reflexivity.
Qed.

(** A box inside an image that passes the size check passes it too. *)
Lemma crop_size_inside (w h x0 y0 x1 y1 : Z) :
  0 < w -> 0 < h -> w * h <= 2 * MAX_IMAGE_PIXELS ->
  0 <= x0 <= x1 -> x1 <= w -> 0 <= y0 <= y1 -> y1 <= h ->
  crop_size (x0, y0, x1, y1) = Py.Ok (x1 - x0, y1 - y0).
Proof.
  intros Hw Hh A Hx Hx' Hy Hy'. unfold crop_size.
  destruct (Z.ltb_spec x1 x0); [lia |]. destruct (Z.ltb_spec y1 y0); [lia |].
  unfold decompression_bomb_check. cbn [fst snd].
  destruct (Z.ltb_spec (2 * MAX_IMAGE_PIXELS)
              (Z.max 1 (Z.abs (x1 - x0)) * Z.max 1 (Z.abs (y1 - y0)))) as [B |]; [| reflexivity].
  exfalso.
  assert (Z.max 1 (Z.abs (x1 - x0)) <= w) by lia.
  assert (Z.max 1 (Z.abs (y1 - y0)) <= h) by lia.
  assert (0 < Z.max 1 (Z.abs (x1 - x0))) by lia.
  assert (0 < Z.max 1 (Z.abs (y1 - y0))) by lia.
  nia.
Qed.

(** The three steps of [smart_crop]: the box, the crop and the resize
    all go through. *)
Lemma smart_crop_steps (enough : Z * Z -> bool) (w h tw th : Z) :
  0 < w <= INT_MAX -> 0 < h <= INT_MAX -> w * h <= 2 * MAX_IMAGE_PIXELS ->
  0 < tw <= INT_MAX -> 0 < th <= INT_MAX -> enough (tw, th) = true ->
  exists box sz how,
    smart_crop_box w h tw th = Py.Ok box /\
    crop_size box = Py.Ok sz /\
    resize_outcome enough sz (tw, th) = Py.Ok how.
Proof.
  intros Hw Hh A Htw Hth M.
  rewrite smart_crop_box_eval by assumption.
  set (ir := round (inject_Z w / inject_Z h)).
  set (tr := round (inject_Z tw / inject_Z th)).
  assert (R : forall sz, exists how, resize_outcome enough sz (tw, th) = Py.Ok how)
    by (intros sz; apply resize_outcome_ok; cbn [fst snd]; assumption).
  destruct (Py.gt tr ir) eqn:G.
  - apply gt_true in G.
    destruct (new_height_range w h tw th Hw Hh Htw Hth G) as [Q0 Qh]. fold tr in Q0, Qh.
    destruct (trunc_floor_range _ _ Q0 Qh) as [Et Rg]. cbn zeta. rewrite Et.
    set (nh := Qfloor _) in *.
    pose proof (Z.div_mod (h - nh) 2 ltac:(lia)) as D.
    pose proof (Z.mod_pos_bound (h - nh) 2 ltac:(lia)) as Md.
    destruct (R (w - 0, (h - nh) / 2 + nh - (h - nh) / 2)) as [how Hr].
    do 3 eexists. split; [reflexivity |]. split; [| exact Hr].
    apply (crop_size_inside w h); lia.
  - apply gt_false in G.
    destruct (new_width_range w h tw th Hw Hh Htw Hth G) as [Q0 Qw]. fold tr in Q0, Qw.
    destruct (floor_below _ _ (conj Q0 Qw)) as [Et Rg]. cbn zeta. rewrite Et.
    set (nw := Qfloor _) in *.
    pose proof (Z.div_mod (w - nw) 2 ltac:(lia)) as D.
    pose proof (Z.mod_pos_bound (w - nw) 2 ltac:(lia)) as Md.
    destruct (R ((w - nw) / 2 + nw - (w - nw) / 2, h - 0)) as [how Hr].
    do 3 eexists. split; [reflexivity |]. split; [| exact Hr].
    apply (crop_size_inside w h); lia.
Qed.

Section SmartCrop.
Variable pil : Backend.

Lemma resize_size (im : Image) (sz : Z * Z) (out : Image) :
  resize pil im sz = Py.Ok out -> size out = sz.
Proof.
  unfold resize, resize_outcome.
  destruct (bool_decide (size im = sz)) eqn:E.
  - apply bool_decide_eq_true in E. cbn. intros [= <-]. exact E.
  - destruct (negb _); [discriminate |]. destruct (_ || _); [discriminate |].
    destruct (negb _); [discriminate |]. cbn. intros [= <-]. destruct sz; reflexivity.
Qed.


End SmartCrop.



End CropFacts.

(* ===================================================================== *)
(** * Watermark preparation *)
(* ===================================================================== *)

Section LogoFacts.
Import F64 F64Facts PIL LogoHandler.

Lemma white_mask_spec threshold p :
  white_mask threshold p = true <->
  threshold < red p /\ threshold < green p /\ threshold < blue p.
Proof.
  unfold white_mask. rewrite !andb_true_iff, !Z.ltb_lt. tauto.
Qed.

(** C4 as stated fails: with the default feather the alpha that
    [remove_white_background] returns has been blurred.  Take a white
    pixel beside an opaque black one and a filter that averages
    neighbours, as a Gaussian blur does: the white pixel does not end
    at alpha 0, and the black pixel does not keep its alpha. *)
Lemma feathered_alpha_is_not_the_mask :
  let image := Samples.white_then_black in
  let out := remove_white_background Samples.smoothing image 240 2 in
  (getpixel image 0 0 = Samples.white /\ alpha (getpixel out 0 0) <> 0) /\
  (getpixel image 1 0 = Samples.black /\
   alpha (getpixel out 1 0) <> alpha (getpixel image 1 0)).
Proof.
  cbv zeta. split; (split; [reflexivity |]).
  - assert (E : alpha (getpixel (remove_white_background Samples.smoothing
                                   Samples.white_then_black 240 2) 0 0) = 85)
      by (vm_compute; reflexivity).
    rewrite E. discriminate.
  - assert (E : alpha (getpixel (remove_white_background Samples.smoothing
                                   Samples.white_then_black 240 2) 1 0) = 170)
      by (vm_compute; reflexivity).
    rewrite E. cbn. discriminate.
Qed.

(** C4, amended. The masking step of [remove_white_background] gives
    alpha 0 to exactly the pixels whose red, green and blue all exceed
    the threshold and leaves every other alpha as it was; the colours
    are not touched.  This is the alpha returned when [feather] is 0;
    for a positive [feather], the default 2 included, the returned
    alpha is the Gaussian blur of that mask.  With threshold 240 the
    mask of a (255,255,255) pixel is 0 and that of a (0,0,0) pixel is
    its own alpha. *)
Theorem remove_white_background_alpha (pil : Backend) (image : Image)
    (threshold feather x y : Z) :
  let src := if Mode_eqb (mode image) RGBA then image else convert pil image RGBA in
  let p := getpixel src x y in
  let mask := fun x y => masked_alpha threshold (getpixel src x y) in
  let out := remove_white_background pil image threshold feather in
  (threshold < red p /\ threshold < green p /\ threshold < blue p -> mask x y = 0) /\
  (~ (threshold < red p /\ threshold < green p /\ threshold < blue p) ->
     mask x y = alpha p) /\
  alpha (getpixel out x y)
    = (if 0 <? feather then gaussian_blur pil feather (size src) mask x y else mask x y) /\
  (red (getpixel out x y), green (getpixel out x y), blue (getpixel out x y))
    = (red p, green p, blue p) /\
  (forall a, masked_alpha 240 {| red := 255; green := 255; blue := 255; alpha := a |} = 0) /\
  (forall a, masked_alpha 240 {| red := 0; green := 0; blue := 0; alpha := a |} = a).
Proof.
  intros src p mask out.
  assert (M : mask x y = if white_mask threshold p then 0 else alpha p) by reflexivity.
  pose proof (white_mask_spec threshold p) as W.
  repeat split.
  - intros H. apply W in H. rewrite M, H. reflexivity.
  - intros H. rewrite M. destruct (white_mask threshold p) eqn:E; [| reflexivity].
    exfalso. apply H, W. reflexivity.
  - unfold out, remove_white_background. fold src.
    destruct (0 <? feather); reflexivity.
  - unfold out, remove_white_background. fold src.
    destruct (0 <? feather); reflexivity.
Qed.

Lemma remove_white_background_alpha_witness :
  (240 < 255 /\ 240 < 255 /\ 240 < 255) /\
  masked_alpha 240 (getpixel Samples.white_then_black 0 0) = 0.
Proof.
  assert (H : 240 < 255 /\ 240 < 255 /\ 240 < 255) by lia.
  exact (conj H (proj1 (remove_white_background_alpha Samples.plain
                          Samples.white_then_black 240 0 0 0) H)).
Defined.

(** ** Opacity *)

Lemma clip8_id v : 0 <= v <= 255 -> clip8 v = v.
Proof. unfold clip8. lia. Qed.

(** C5 as stated fails: at opacity 0.75 the alpha sample 1 becomes 0,
    and 0 is not an integer nearest to 0.75. *)
Lemma opacity_truncates :
  point (scale_alpha (3 # 4)) 1 = 0 /\
  ~ Spec.nearest_integer (point (scale_alpha (3 # 4)) 1) (inject_Z 1 * (3 # 4)).
Proof.
  split; [reflexivity |]. intros N. specialize (N 1).
  change (point (scale_alpha (3 # 4)) 1) with 0 in N.
  vm_compute in N. apply N. reflexivity.
Qed.

Lemma scale_alpha_range opacity a :
  (0 <= opacity <= 1)%Q -> 0 <= a <= 255 ->
  (0 <= fmul (of_int a) opacity <= inject_Z a)%Q.
Proof.
  intros [O0 O1] Ha.
  assert (Ea : (of_int a == inject_Z a)%Q) by (apply of_int_exact; lia).
  assert (Pa : (0 <= inject_Z a)%Q) by (change 0%Q with (inject_Z 0); rewrite <- Zle_Qle; lia).
  unfold fmul. rewrite Ea. split.
  - apply round_nonneg. apply Qmult_le_0_compat; assumption.
  - rewrite <- (round_int a) at 2 by lia. apply round_mono.
    assert (opacity * inject_Z a <= 1 * inject_Z a)%Q by (apply Qmult_le_compat_r; assumption).
    lra.
Qed.


Section Opacity.
Variable pil : Backend.
Variable image_open : string -> Py.result Image.

(** C5, amended. For an opacity factor in [[0,1]], the opacity step of
    [add_image_logo] maps an alpha sample [a] to the integer part of
    the product [a * factor] computed in double precision: it
    truncates, it does not round to nearest.  The value lies between 0
    and [a], and between the floor and the ceiling of the exact
    product.  The step is applied to the logo as prepared (background
    removed, feathered) and resized, and it leaves the colours alone. *)
Theorem opacity_scaling_truncates (logo_path : string) (logo_width : Z)
    (opacity : Q) (remove_background : bool) :
  (0 <= opacity <= 1)%Q ->
  (forall a, 0 <= a <= 255 ->
     point (scale_alpha opacity) a = Qfloor (fmul (of_int a) opacity) /\
     0 <= point (scale_alpha opacity) a <= a /\
     Qfloor (inject_Z a * opacity) <= point (scale_alpha opacity) a
       <= Qceiling (inject_Z a * opacity)) /\
  (forall layer,
     logo_layer pil image_open logo_path logo_width opacity remove_background = Py.Ok layer ->
     exists logo,
       resized_logo pil image_open logo_path logo_width remove_background = Py.Ok logo /\
       forall x y,
         let p := getpixel logo x y in
         getpixel layer x y = set_alpha p (point (scale_alpha opacity) (alpha p))).
Proof.
  intros Hop. split.
  - intros a Ha.
    destruct (scale_alpha_range opacity a Hop Ha) as [Q0 Q1].
    destruct (trunc_floor_range _ _ Q0 Q1) as [Et Rg].
    assert (Es : scale_alpha opacity a = Qfloor (fmul (of_int a) opacity)) by exact Et.
    assert (Ep : point (scale_alpha opacity) a = Qfloor (fmul (of_int a) opacity)).
    { unfold point. rewrite Es. apply clip8_id. lia. }
    rewrite Ep. split; [reflexivity |]. split; [exact Rg |].
    assert (Ea : (of_int a == inject_Z a)%Q) by (apply of_int_exact; lia).
    unfold fmul. rewrite Ea.
    set (e := (inject_Z a * opacity)%Q). split.
    + rewrite <- (Qfloor_Z (Qfloor e)). apply Qfloor_resp_le.
      rewrite <- (round_int (Qfloor e)).
      * apply round_mono, Qfloor_le.
      * assert (0 <= Qfloor e <= a); [| lia]. split.
        -- rewrite <- (Qfloor_Z 0). apply Qfloor_resp_le.
           apply Qmult_le_0_compat; [| apply Hop].
           change 0%Q with (inject_Z 0). rewrite <- Zle_Qle. lia.
        -- rewrite <- (Qfloor_Z a). apply Qfloor_resp_le.
           assert (opacity * inject_Z a <= 1 * inject_Z a)%Q.
           { apply Qmult_le_compat_r; [apply Hop |].
             change 0%Q with (inject_Z 0). rewrite <- Zle_Qle. lia. }
           unfold e. lra.
    + rewrite <- (Qfloor_Z (Qceiling e)). apply Qfloor_resp_le.
      rewrite <- (round_int (Qceiling e)).
      * apply round_mono, Qle_ceiling.
      * assert (0 <= Qceiling e <= a); [| lia]. split.
        -- rewrite <- (Qceiling_Z 0). apply Qceiling_resp_le.
           apply Qmult_le_0_compat; [| apply Hop].
           change 0%Q with (inject_Z 0). rewrite <- Zle_Qle. lia.
        -- rewrite <- (Qceiling_Z a). apply Qceiling_resp_le.
           assert (opacity * inject_Z a <= 1 * inject_Z a)%Q.
           { apply Qmult_le_compat_r; [apply Hop |].
             change 0%Q with (inject_Z 0). rewrite <- Zle_Qle. lia. }
           unfold e. lra.
  - intros layer E. unfold logo_layer in E.
    destruct (resized_logo pil image_open logo_path logo_width remove_background)
      as [logo | e]; [| discriminate].
    cbn in E. injection E as <-. exists logo. split; [reflexivity |].
    intros x y. reflexivity.
Qed.

End Opacity.

Lemma opacity_scaling_witness :
  (0 <= 3 # 4 <= 1)%Q /\
  point (scale_alpha (3 # 4)) 200 = Qfloor (fmul (of_int 200) (3 # 4)).
Proof.
  assert (H : (0 <= 3 # 4 <= 1)%Q) by (split; discriminate).
  assert (A : 0 <= 200 <= 255) by lia.
  exact (conj H (proj1 (proj1 (opacity_scaling_truncates Samples.plain
           (fun _ => Py.Ok Samples.photo) "logo.png" 150 (3 # 4) true H) 200 A))).
Defined.

(** ** Placement *)



End LogoFacts.

(* ===================================================================== *)
(** * Logo placement *)
(* ===================================================================== *)

Section PlacementFacts.



End PlacementFacts.

(* ===================================================================== *)
(** * Text layout *)
(* ===================================================================== *)

Section LayoutFacts.
Import F64 F64Facts PIL ImageProcessor.

Lemma literal_15 : (literal 15 100 == 5404319552844595 # 36028797018963968)%Q.
Proof. vm_compute. reflexivity. Qed.

Lemma literal_85 : (literal 85 100 == 7656119366529843 # 9007199254740992)%Q.
Proof. vm_compute. reflexivity. Qed.

Lemma spacing_tiny : (pow2 (emin - 1) <= 1 # 18014398509481984)%Q.
Proof.
  assert (E : (pow2 (-54) == 1 # 18014398509481984)%Q) by reflexivity.
  rewrite <- E. apply pow2_le. unfold emin. lia.
Qed.

(** [height * 0.15] is 15% of the height to within a relative [2^-52]. *)
Lemma top_anchor_accuracy height :
  0 <= height <= INT_MAX ->
  (Qabs (fmul (of_int height) (literal 15 100) - (15 # 100) * inject_Z height)
     <= inject_Z height * pow2 (-52))%Q.
Proof.
  intros Hh. destruct (Z.eq_dec height 0) as [-> | Nz]; [vm_compute; discriminate |].
  assert (Eh : (of_int height == inject_Z height)%Q) by (apply of_int_exact; unfold INT_MAX in Hh; lia).
  assert (Ph : (1 <= inject_Z height)%Q) by (change 1%Q with (inject_Z 1); rewrite <- Zle_Qle; lia).
  unfold fmul. rewrite Eh, literal_15.
  set (x := (inject_Z height * (5404319552844595 # 36028797018963968))%Q).
  pose proof (round_abs_err x) as R. assert (Sp := spacing_tiny).
  assert (Px : (0 <= x)%Q) by (unfold x; lra).
  rewrite (Qabs_pos x Px) in R. apply Qabs_Qle_condition in R.
  rewrite pow2_m53 in R. rewrite pow2_m52.
  apply Qabs_Qle_condition. unfold x in *. split; lra.
Qed.

(** [height * 0.85 - total] is 85% of the height less the total, to
    within [2^-51] of the magnitudes involved. *)
Lemma bottom_anchor_accuracy height total :
  0 <= height <= INT_MAX -> Z.abs total <= INT_MAX ->
  (Qabs (fsub (fmul (of_int height) (literal 85 100)) (of_int total)
         - ((85 # 100) * inject_Z height - inject_Z total))
     <= (inject_Z height + inject_Z (Z.abs total)) * pow2 (-51))%Q.
Proof.
  intros Hh Ht.
  assert (Eh : (of_int height == inject_Z height)%Q) by (apply of_int_exact; unfold INT_MAX in Hh; lia).
  assert (Et : (of_int total == inject_Z total)%Q) by (apply of_int_exact; unfold INT_MAX in Ht; lia).
  assert (Ph : (0 <= inject_Z height)%Q) by (change 0%Q with (inject_Z 0); rewrite <- Zle_Qle; lia).
  assert (Pa : (0 <= inject_Z (Z.abs total))%Q) by (change 0%Q with (inject_Z 0); rewrite <- Zle_Qle; lia).
  assert (A1 : (inject_Z total <= inject_Z (Z.abs total))%Q) by (rewrite <- Zle_Qle; lia).
  assert (A2 : (- inject_Z total <= inject_Z (Z.abs total))%Q).
  { rewrite <- inject_Z_opp, <- Zle_Qle. lia. }
  assert (Sp := spacing_tiny).
  destruct (Z.eq_dec (height + Z.abs total) 0) as [Z0 | Nz].
  { assert (height = 0) as -> by lia. assert (total = 0) as -> by lia.
    vm_compute. discriminate. }
  assert (One : (1 <= inject_Z height + inject_Z (Z.abs total))%Q).
  { rewrite <- inject_Z_plus. change 1%Q with (inject_Z 1). rewrite <- Zle_Qle. lia. }
  unfold fsub, fmul. rewrite Eh, Et, literal_85.
  set (x := (inject_Z height * (7656119366529843 # 9007199254740992))%Q).
  assert (Px : (0 <= x)%Q) by (unfold x; lra).
  pose proof (round_abs_err x) as R. rewrite (Qabs_pos x Px) in R.
  apply Qabs_Qle_condition in R. rewrite pow2_m53 in R.
  set (p := round x) in *.
  pose proof (round_abs_err (p - inject_Z total)) as S. rewrite pow2_m53 in S.
  set (y := round (p - inject_Z total)) in *.
  rewrite pow2_m51. apply Qabs_Qle_condition.
  destruct (Qlt_le_dec (p - inject_Z total) 0) as [N | N].
  - rewrite (Qabs_neg (p - inject_Z total)) in S by lra.
    apply Qabs_Qle_condition in S. unfold x in *. split; lra.
  - rewrite (Qabs_pos (p - inject_Z total)) in S by lra.
    apply Qabs_Qle_condition in S. unfold x in *. split; lra.
Qed.

(** C6. [totalTextHeight] is the title height, plus the CTA height and
    a gap of 30 when a CTA is present, plus 40.  The vertical start is
    15% of the canvas height for ['top'], 85% of it less
    [totalTextHeight] for ['bottom'] (both computed in double
    precision) and [(canvasHeight - totalTextHeight) / 2] for
    ['center']; any other anchor resolves as ['center'] does. *)
Theorem text_layout_anchor (width height : Z) (bbox_title bbox_cta : Box)
    (cta position : string) :
  0 <= height <= INT_MAX ->
  Z.abs (total_text_height
           (text_layout width height bbox_title bbox_cta cta position)) <= INT_MAX ->
  let lay := text_layout width height bbox_title bbox_cta cta position in
  let total := total_text_height lay in
  total = box_height bbox_title
          + (if decide (cta = "") then 0 else box_height bbox_cta + 30) + 40 /\
  (position = "top" ->
     exists y, y_start lay = Py.Float y /\
       y = fmul (of_int height) (literal 15 100) /\
       (Qabs (y - (15 # 100) * inject_Z height) <= inject_Z height * pow2 (-52))%Q) /\
  (position = "bottom" ->
     exists y, y_start lay = Py.Float y /\
       y = fsub (fmul (of_int height) (literal 85 100)) (of_int total) /\
       (Qabs (y - ((85 # 100) * inject_Z height - inject_Z total))
          <= (inject_Z height + inject_Z (Z.abs total)) * pow2 (-51))%Q) /\
  (position = "center" -> y_start lay = Py.Int ((height - total) / 2)) /\
  (position <> "top" -> position <> "bottom" ->
     y_start lay = y_start (text_layout width height bbox_title bbox_cta cta "center")).
Proof.
  intros Hh Ht lay total.
  assert (Etot : total = box_height bbox_title
            + (if decide (cta = "") then 0 else box_height bbox_cta + 30) + 40).
  { unfold total, lay, text_layout. cbn [total_text_height]. unfold Py.truthy.
    destruct (String.eqb_spec cta ""); case_decide; try congruence; reflexivity. }
  split; [exact Etot |]. repeat split.
  - intros ->. eexists. split; [reflexivity |]. split; [reflexivity |].
    apply top_anchor_accuracy, Hh.
  - intros ->. eexists. split; [reflexivity |]. split; [reflexivity |].
    apply bottom_anchor_accuracy; assumption.
  - intros ->. reflexivity.
  - intros N1 N2. unfold lay, text_layout. cbn [y_start].
    destruct (String.eqb_spec position "top"); [contradiction |].
    destruct (String.eqb_spec position "bottom"); [contradiction |].
    reflexivity.
Qed.

Lemma text_layout_anchor_witness :
  0 <= 675 <= INT_MAX /\
  Z.abs (total_text_height
           (text_layout 1200 675 (0, 10, 300, 70) (0, 5, 100, 30) "Shop" "top")) <= INT_MAX /\
  total_text_height (text_layout 1200 675 (0, 10, 300, 70) (0, 5, 100, 30) "Shop" "top")
  = box_height (0, 10, 300, 70)
    + (if decide ("Shop" = "") then 0 else box_height (0, 5, 100, 30) + 30) + 40.
Proof.
  assert (H1 : 0 <= 675 <= INT_MAX) by (unfold INT_MAX; lia).
  assert (H2 : Z.abs (total_text_height
           (text_layout 1200 675 (0, 10, 300, 70) (0, 5, 100, 30) "Shop" "top")) <= INT_MAX)
    by (vm_compute; discriminate).
  exact (conj H1 (conj H2 (proj1
    (text_layout_anchor 1200 675 (0, 10, 300, 70) (0, 5, 100, 30) "Shop" "top" H1 H2)))).
Defined.

End LayoutFacts.

(* ===================================================================== *)
(** * Frame properties *)
(* ===================================================================== *)

Section ObjectFacts.
Import PIL Objects.

(** An allocation returns an address that no live object has and
    leaves every live object as it was. *)
Lemma alloc_frame (new_im : Image) (s : store) (r : ref) (im : Image) :
  s !! r = Some im ->
  (alloc new_im s).1 <> r /\ (alloc new_im s).2 !! r = Some im.
Proof.
  intros H. unfold alloc. cbn [fst snd].
  assert (N : fresh (dom s) <> r).
  { intros E. apply (is_fresh (dom s)). rewrite E. apply elem_of_dom. eauto. }
  split; [exact N |]. rewrite lookup_insert_ne by exact N. exact H.
Qed.

Lemma update_frame (k : ref) (f : Image -> Image) (s : store) (r : ref) (im : Image) :
  s !! r = Some im -> k <> r -> update k f s !! r = Some im.
Proof. intros H N. unfold update. rewrite lookup_insert_ne by exact N. exact H. Qed.

(** [paste] does write: the object it is applied to holds the pasted
    pixels afterwards, under every name bound to it. *)
Lemma paste_writes_its_target (pil : Backend) (base layer mask : ref)
    (pos : Z * Z) (s : store) :
  paste pil base layer pos mask s !! base
  = Some (PIL.paste pil (s !!! base) (s !!! layer) pos (s !!! mask)).
Proof. unfold paste, update. apply lookup_insert_eq. Qed.

(** One allocation on the store that [H] speaks about: the new address
    [k], the new store [s'], [N : k <> r] and [H' : s' !! r = Some im]. *)
Tactic Notation "alloc_step" hyp(H) "as" ident(k) ident(s') ident(N) ident(H') :=
  match type of H with
  | ?s !! _ = Some _ =>
      match goal with
      | |- context [alloc ?o s] =>
          destruct (alloc_frame o s _ _ H) as [N H'];
          destruct (alloc o s) as [k s']; cbn [fst snd] in N, H'
      end
  end.

(** One in-place update of [k] on the store that [H] speaks about. *)
Tactic Notation "update_step" hyp(H) hyp(N) "as" ident(s') ident(H') :=
  match type of H with
  | ?s !! _ = Some _ =>
      match goal with
      | |- context [update ?k ?f s] =>
          pose proof (update_frame k f s _ _ H N) as H';
          set (s' := update k f s) in *
      end
  end.

Section WithBackend.
Variable pil : Backend.
Variable image_open : string -> Py.result Image.
Variable path_exists : string -> bool.

Lemma add_text_overlay_frame (s : store) (image : ref) (im : Image)
    (title cta : string) (font_size : Z) (position : string) :
  s !! image = Some im ->
  (add_text_overlay pil path_exists image title cta font_size position s).1 <> image /\
  (add_text_overlay pil path_exists image title cta font_size position s).2 !! image = Some im.
Proof.
  intros H. unfold add_text_overlay, copy, convert, alpha_composite.
  alloc_step H as img s1 Nimg H1.
  destruct (size _) as [width height].
  alloc_step H1 as overlay s2 Nov H2.
  destruct (load_fonts pil path_exists font_size) as [font_title font_cta].
  (* the panel and the title are drawn on the overlay *)
  update_step H2 Nov as s3 H3.
  update_step H3 Nov as s4 H4.
  (* so are the chip and the CTA, when there is a CTA *)
  match goal with
  | |- context [if Py.truthy cta then ?a else s4] =>
      assert (H5 : (if Py.truthy cta then a else s4) !! image = Some im);
      [ destruct (Py.truthy cta); [| exact H4];
        repeat apply update_frame; assumption
      | set (s5 := if Py.truthy cta then a else s4) in * ]
  end.
  alloc_step H5 as rgba s6 Nrgba H6.
  alloc_step H6 as blended s7 Nbl H7.
  apply alloc_frame. exact H7.
Qed.

Lemma add_image_logo_frame (s : store) (image : ref) (im : Image)
    (logo_path position : string) (logo_width : Z) (opacity : Q)
    (remove_background : bool) :
  s !! image = Some im ->
  (add_image_logo pil image_open image logo_path position logo_width opacity
     remove_background s).1 <> Py.Ok image /\
  (add_image_logo pil image_open image logo_path position logo_width opacity
     remove_background s).2 !! image = Some im.
Proof.
  intros H. unfold add_image_logo, copy, convert.
  destruct (LogoHandler.logo_layer _ _ _ _ _ _) as [layer | e];
    [| split; [discriminate | exact H]].
  alloc_step H as logo s1 Nlogo H1.
  destruct (size _) as [logo_w logo_h].
  (* the image itself when it is RGBA already, a converted copy otherwise *)
  assert (C : exists image' s2,
            (if Mode_eqb (mode (s1 !!! image)) RGBA then (image, s1)
             else alloc (PIL.convert pil (s1 !!! image) RGBA) s1) = (image', s2) /\
            s2 !! image = Some im).
  { destruct (Mode_eqb _ _); [eauto |].
    destruct (alloc_frame (PIL.convert pil (s1 !!! image) RGBA) s1 _ _ H1) as [_ K].
    destruct (alloc _ s1) as [k s2]. eauto. }
  destruct C as (image' & s2 & -> & H2).
  (* the paste goes to the copy *)
  alloc_step H2 as result s3 Nres H3.
  unfold paste.
  update_step H3 Nres as s4 H4.
  alloc_step H4 as out s5 Nout H5.
  cbn [fst snd]. split; [congruence | exact H5].
Qed.

End WithBackend.

(** C10. The text overlay and the image logo leave the canvas they are
    given as it was, pixel for pixel: each works on a copy or on an
    overlay of its own and returns a canvas that is a new object. *)
Theorem compositing_leaves_input_unchanged (pil : Backend)
    (image_open : string -> Py.result Image) (path_exists : string -> bool)
    (s : store) (image : ref) (im : Image) :
  s !! image = Some im ->
  (forall title cta font_size position,
     let out := add_text_overlay pil path_exists image title cta font_size position s in
     out.2 !! image = Some im /\ out.1 <> image) /\
  (forall logo_path position logo_width opacity remove_background,
     let out := add_image_logo pil image_open image logo_path position logo_width
                  opacity remove_background s in
     out.2 !! image = Some im /\ out.1 <> Py.Ok image).
Proof.
  intros H. split.
  - intros title cta font_size position out.
    destruct (add_text_overlay_frame pil path_exists s image im title cta font_size position H).
    split; assumption.
  - intros logo_path position logo_width opacity remove_background out.
    destruct (add_image_logo_frame pil image_open s image im logo_path position
                logo_width opacity remove_background H).
    split; assumption.
Qed.

Lemma compositing_leaves_input_unchanged_witness :
  (<[1%positive := Samples.photo]> ∅ : store) !! 1%positive = Some Samples.photo /\
  (add_text_overlay Samples.plain (fun _ => true) 1%positive "Sale" "Shop" 68 "center"
     (<[1%positive := Samples.photo]> ∅)).2 !! 1%positive = Some Samples.photo.
Proof.
  assert (H : (<[1%positive := Samples.photo]> ∅ : store) !! 1%positive = Some Samples.photo)
    by reflexivity.
  exact (conj H (proj1 (proj1 (compositing_leaves_input_unchanged Samples.plain
    (fun _ => Py.Ok Samples.photo) (fun _ => true) _ 1%positive Samples.photo H)
    "Sale" "Shop" 68 "center"))).
Defined.

End ObjectFacts.
(* ===================================================================== *)
(** * The pipeline *)
(* ===================================================================== *)

Section FlowFacts.
Import Flow.

Lemma output_not_input ts k : output_path_of ts k <> input_path ts.
Proof. unfold output_path_of, input_path. cbn. intros E. discriminate E. Qed.

Lemma output_not_logo ts k : output_path_of ts k <> "/tmp/logo_" ++ ts ++ ".png".
Proof. unfold output_path_of. cbn. intros E. discriminate E. Qed.

Lemma default_logo_not_dot world : default_logo_path world <> ".".
Proof.
  unfold default_logo_path. destruct (root world) as [| a r]; cbn; [discriminate |].
  intros E. injection E as _ E. destruct r; discriminate.
Qed.

(** What the steps return, when they return. *)
Lemma smart_crop_inv world img width height c :
  smart_crop world img width height = Py.Ok c -> c = SmartCrop img width height.
Proof.
  unfold smart_crop. destruct (canvas_size world img) as [w h].
  destruct (ImageProcessor.smart_crop_box w h width height) as [box | e]; [| discriminate].
  cbn [mbind Py.result_bind].
  destruct (PIL.crop_size box) as [sz | e]; [| discriminate].
  cbn [mbind Py.result_bind].
  destruct (PIL.resize_outcome _ sz (width, height)) as [how | e]; [| discriminate].
  cbn. intros [= <-]. reflexivity.
Qed.

Lemma add_text_overlay_inv world img title cta font_size position c :
  add_text_overlay world img title cta font_size position = Py.Ok c ->
  c = AddTextOverlay img title cta font_size position.
Proof.
  unfold add_text_overlay. destruct (text_error _ _ _ _ _ _); [discriminate |].
  cbn. intros [= <-]. reflexivity.
Qed.

(** [smart_crop] goes through for a canvas that passed the size check
    and a target that fits. *)
Lemma smart_crop_ok world img width height :
  (let '(w, h) := canvas_size world img in
   0 < w /\ 0 < h /\ w * h <= 2 * PIL.MAX_IMAGE_PIXELS) ->
  0 < width <= PIL.INT_MAX -> 0 < height <= PIL.INT_MAX ->
  allocates world (width, height) = true ->
  smart_crop world img width height = Py.Ok (SmartCrop img width height).
Proof.
  intros Hs Hw Hh M. unfold smart_crop.
  destruct (canvas_size world img) as [w h]. destruct Hs as (Pw & Ph & A).
  destruct (area_bounds w h Pw Ph A) as [Bw Bh].
  destruct (smart_crop_steps (allocates world) w h width height)
    as (box & sz & how & E1 & E2 & E3); try assumption; try lia.
  rewrite E1. cbn [mbind Py.result_bind]. rewrite E2. cbn [mbind Py.result_bind].
  rewrite E3. reflexivity.
Qed.

Lemma readable_bounds world content :
  readable world content ->
  let '(w, h) := canvas_size world (Decoded content) in
  0 < w <= PIL.INT_MAX /\ 0 < h <= PIL.INT_MAX /\ w * h <= 2 * PIL.MAX_IMAGE_PIXELS.
Proof.
  unfold readable. cbn [canvas_size]. destruct (size_of world content) as [w h].
  intros [_ A].
  destruct (area_bounds (Z.pos w) (Z.pos h) ltac:(lia) ltac:(lia) A). lia.
Qed.

(** [resize_logo] goes through for a logo that can be read and scaled. *)
Lemma resize_logo_ok world content size :
  readable world content -> scalable world content size ->
  exists new_height,
    resize_logo world (Decoded content) size
    = Py.Ok (ResizeLogo (Decoded content) size new_height).
Proof.
  intros R. apply readable_bounds in R. revert R.
  unfold scalable, resize_logo. cbn [canvas_size].
  destruct (size_of world content) as [w h].
  set (nh := F64.trunc _). intros (Bw & Bh & _) (Hs & Hn & M).
  unfold ImageProcessor.resize_logo_size.
  destruct (ratio_float (Z.pos w) (Z.pos h) Bw Bh) as (E1 & _ & Rg).
  rewrite E1. cbn [mbind Py.result_bind].
  rewrite float_of_int_ok by lia. cbn [mbind Py.result_bind].
  destruct (int_truediv_ok size _ Hs Rg) as [E2 _]. rewrite E2.
  cbn [mbind Py.result_bind mret Py.result_ret]. fold nh.
  destruct (resize_outcome_ok (allocates world) (Z.pos w, Z.pos h) (size, nh))
    as [how E3]; cbn [fst snd]; try assumption; try lia.
  rewrite E3. cbn [mbind Py.result_bind mret Py.result_ret fst snd]. eauto.
Qed.

(** The sizes of the catalog fit a C integer. *)
Lemma catalog_dimensions k w h :
  k ∈ catalog -> default (1080, 1080) (dimensions !! k) = (w, h) ->
  0 < w <= PIL.INT_MAX /\ 0 < h <= PIL.INT_MAX.
Proof.
  unfold catalog. intros Hk E.
  repeat (apply elem_of_cons in Hk as [-> | Hk]);
    [| | | | apply elem_of_nil in Hk; contradiction];
    vm_compute in E; injection E as <- <-; vm_compute; repeat split; congruence.
Qed.

Section Request.
Variable world : World.
Variables (timestamp mode title cta : string) (title_font_size : Z)
  (text_position : string) (logo_position : string) (logo_size : Z).

Abbreviation each logo_enabled :=
  (generate_each world timestamp title cta title_font_size
     text_position logo_enabled logo_position logo_size).
Abbreviation out_path := (output_path_of timestamp).
Abbreviation in_path := (input_path timestamp).

(** A format outside the catalog is passed over. *)
Lemma generate_each_skip le k rest lp fs results :
  k ∉ catalog -> each le (k :: rest) lp fs results = each le rest lp fs results.
Proof.
  intros H. cbn [generate_each]. rewrite bool_decide_eq_false_2 by exact H. reflexivity.
Qed.

Lemma generate_each_filter le format_list lp fs results :
  each le format_list lp fs results
  = each le (filter (fun k => k ∈ catalog) format_list) lp fs results.
Proof.
  revert fs results. induction format_list as [| k rest IH]; intros fs results; [reflexivity |].
  rewrite filter_cons. destruct (decide (k ∈ catalog)) as [Hin | Hout].
  - cbn [generate_each]. rewrite bool_decide_eq_true_2 by exact Hin. cbn [negb].
    destruct (default (1080, 1080) (dimensions !! k)) as [width height].
    destruct (generate_asset _ _ _ _ _ _ _ _ _ _ _ _ _) as [[p fs'] | e]; [| reflexivity].
    cbn [mbind Py.result_bind].
    destruct (read_file fs' (out_path k)) as [f | e]; [| reflexivity].
    cbn [mbind Py.result_bind]. apply IH.
  - rewrite generate_each_skip by exact Hout. apply IH.
Qed.

(** ** One format *)

(** What [generate_asset] returns, when it returns: the output path and
    the disk with one canvas saved there. *)
Lemma generate_asset_inv fs output width height lp p fs' :
  generate_asset world fs in_path output width height title cta
    title_font_size text_position lp logo_position logo_size = Py.Ok (p, fs') ->
  p = output /\ writable world output = true /\
  exists c, fs' = <[output := Saved c]> fs /\
            (lp = None ->
             forall c0, image_open world fs in_path = Py.Ok c0 ->
                        has_watermark c0 = false -> has_watermark c = false).
Proof.
  unfold generate_asset.
  destruct (image_open world fs in_path) as [c0 | e]; [| discriminate].
  cbn [mbind Py.result_bind].
  destruct (smart_crop world c0 width height) as [c1 | e] eqn:E1; [| discriminate].
  apply smart_crop_inv in E1. subst c1.
  cbn [mbind Py.result_bind].
  match goal with
  | |- context [mbind _ ?m] => destruct m as [c2 | e] eqn:E2; [| discriminate]
  end.
  cbn [mbind Py.result_bind].
  match goal with
  | |- context [mbind _ ?m] => destruct m as [c3 | e] eqn:E3; [| discriminate]
  end.
  cbn [mbind Py.result_bind]. unfold image_save, write_file.
  destruct (writable world output); [| discriminate].
  cbn. intros [= <- <-]. split; [reflexivity |]. split; [reflexivity |].
  exists c3. split; [reflexivity |].
  intros -> c0' [= <-] Hc0. cbn in E2. injection E2 as <-.
  destruct (Py.truthy title || Py.truthy cta).
  - apply add_text_overlay_inv in E3. subst c3. exact Hc0.
  - cbn in E3. injection E3 as <-. exact Hc0.
Qed.


Lemma generate_asset_ok fs output width height lp c0 :
  image_open world fs in_path = Py.Ok c0 ->
  smart_crop world c0 width height = Py.Ok (SmartCrop c0 width height) ->
  (forall p, lp = Some p ->
     exists l l', image_open world fs p = Py.Ok l /\
                  resize_logo world l logo_size = Py.Ok l') ->
  (Py.truthy title || Py.truthy cta = true ->
   text_error world (width, height) title cta title_font_size text_position = None) ->
  writable world output = true ->
  exists c,
    generate_asset world fs in_path output width height title cta
      title_font_size text_position lp logo_position logo_size
    = Py.Ok (output, <[output := Saved c]> fs).
Proof.
  intros Hin Hcrop Hlogo Htext W. unfold generate_asset. rewrite Hin.
  cbn [mbind Py.result_bind]. rewrite Hcrop. cbn [mbind Py.result_bind].
  assert (L : exists c1,
            match lp with
            | Some p =>
                if Py.truthy p
                then logo ← image_open world fs p;
                     logo ← resize_logo world logo logo_size;
                     add_logo_image (SmartCrop c0 width height) logo logo_position
                else mret (SmartCrop c0 width height)
            | None => mret (SmartCrop c0 width height)
            end = Py.Ok c1 /\ canvas_size world c1 = (width, height)).
  { destruct lp as [p |]; [| eexists; split; reflexivity].
    destruct (Py.truthy p); [| eexists; split; reflexivity].
    destruct (Hlogo p eq_refl) as (l & l' & -> & E).
    cbn [mbind Py.result_bind]. rewrite E. cbn [mbind Py.result_bind].
    eexists; split; reflexivity. }
  destruct L as (c1 & -> & Sz). cbn [mbind Py.result_bind].
  assert (T : exists c2,
            (if Py.truthy title || Py.truthy cta
             then add_text_overlay world c1 title cta title_font_size text_position
             else mret c1) = Py.Ok c2).
  { destruct (Py.truthy title || Py.truthy cta); [| eexists; reflexivity].
    unfold add_text_overlay. rewrite Sz, (Htext eq_refl). eexists; reflexivity. }
  destruct T as (c2 & ->). cbn [mbind Py.result_bind].
  unfold image_save, write_file. rewrite W.
  cbn [mbind Py.result_bind mret Py.result_ret]. eauto.
Qed.

Lemma image_open_after fs output f q :
  q <> output ->
  image_open world (delete output (<[output := f]> fs)) q = image_open world fs q.
Proof.
  intros N. unfold image_open.
  rewrite lookup_delete_ne by congruence. rewrite lookup_insert_ne by congruence.
  reflexivity.
Qed.

(** ** The loop *)


(** When the loop returns, it has added one asset for each catalog
    format of the request, in order. *)
Lemma generate_each_formats le format_list lp fs results out :
  each le format_list lp fs results = Py.Ok out ->
  exists assets,
    out = (results ++ assets)%list /\
    map asset_format assets = filter (fun k => k ∈ catalog) format_list.
Proof.
  revert fs results. induction format_list as [| k0 rest IH]; intros fs results.
  - cbn. intros [= <-]. exists []. rewrite app_nil_r. split; reflexivity.
  - rewrite filter_cons. destruct (decide (k0 ∈ catalog)) as [Hc | Hout].
    + cbn [generate_each]. rewrite bool_decide_eq_true_2 by exact Hc. cbn [negb].
      destruct (default (1080, 1080) (dimensions !! k0)) as [width height].
      destruct (generate_asset _ _ _ _ _ _ _ _ _ _ _ _ _) as [[p fs'] | e]; [| discriminate].
      cbn [mbind Py.result_bind].
      destruct (read_file fs' (out_path k0)) as [f | e]; [| discriminate].
      cbn [mbind Py.result_bind]. intros E.
      destruct (IH _ _ E) as (assets & -> & F).
      eexists (_ :: assets). rewrite <- app_assoc. split; [reflexivity |].
      cbn [map asset_format]. rewrite F. reflexivity.
    + rewrite generate_each_skip by exact Hout. apply IH.
Qed.

(** When the world lets every catalog format through, each yields one
    asset, in the order of the request. *)
Lemma generate_each_ok (le : bool) format_list (lp : option string) fs results c0 :
  image_open world fs in_path = Py.Ok c0 ->
  (forall p, (if le then lp else None) = Some p ->
     (exists l l', image_open world fs p = Py.Ok l /\
                   resize_logo world l logo_size = Py.Ok l') /\
     forall k, p <> out_path k) ->
  (forall k w h, k ∈ format_list -> k ∈ catalog ->
     default (1080, 1080) (dimensions !! k) = (w, h) ->
     smart_crop world c0 w h = Py.Ok (SmartCrop c0 w h) /\
     (Py.truthy title || Py.truthy cta = true ->
      text_error world (w, h) title cta title_font_size text_position = None) /\
     writable world (out_path k) = true) ->
  exists assets,
    each le format_list lp fs results = Py.Ok (results ++ assets)%list /\
    map asset_format assets = filter (fun k => k ∈ catalog) format_list.
Proof.
  revert fs results. induction format_list as [| k0 rest IH]; intros fs results Hin Hlogo W.
  - exists []. cbn. rewrite app_nil_r. split; reflexivity.
  - rewrite filter_cons. destruct (decide (k0 ∈ catalog)) as [Hc | Hout].
    + cbn [generate_each]. rewrite bool_decide_eq_true_2 by exact Hc. cbn [negb].
      destruct (default (1080, 1080) (dimensions !! k0)) as [width height] eqn:D.
      destruct (W k0 width height ltac:(left) Hc D) as (Hcrop & Htext & Hw).
      destruct (generate_asset_ok fs (out_path k0) width height
                  (if le then lp else None) c0 Hin Hcrop) as [c G].
      { intros p E. apply (Hlogo p E). }
      { exact Htext. }
      { exact Hw. }
      rewrite G. cbn [mbind Py.result_bind].
      unfold read_file. rewrite lookup_insert_eq. cbn [mbind Py.result_bind].
      match goal with
      | |- context [generate_each _ _ _ _ _ _ _ _ _ rest lp ?fs' (results ++ [?a])%list] =>
          destruct (IH fs' (results ++ [a])%list) as (assets & E & F)
      end.
      * rewrite image_open_after; [exact Hin |].
        apply not_eq_sym, output_not_input.
      * intros p E. destruct (Hlogo p E) as [(l & l' & Hl & Hr) N]. split; [| exact N].
        exists l, l'. split; [| exact Hr]. rewrite image_open_after; [exact Hl | apply N].
      * intros k w h Hk. apply W. right. exact Hk.
      * eexists (_ :: assets). rewrite E, <- app_assoc. split; [reflexivity |].
        cbn [map asset_format]. rewrite F. reflexivity.
    + rewrite generate_each_skip by exact Hout. apply (IH _ _ Hin Hlogo).
      intros k w h Hk. apply W. right. exact Hk.
Qed.

(** The assets of a request without a logo file carry no logo step. *)
Lemma generate_each_clean le format_list fs results out :
  (forall c0, image_open world fs in_path = Py.Ok c0 -> has_watermark c0 = false) ->
  Forall clean results ->
  each le format_list None fs results = Py.Ok out ->
  Forall clean out.
Proof.
  revert fs results. induction format_list as [| k0 rest IH]; intros fs results Hin Hres.
  - cbn. intros E. injection E as <-. exact Hres.
  - destruct (decide (k0 ∈ catalog)) as [Hc | Hout].
    + cbn [generate_each]. rewrite bool_decide_eq_true_2 by exact Hc. cbn [negb].
      destruct (default (1080, 1080) (dimensions !! k0)) as [width height].
      replace (if le then None else None) with (@None string)
        by (destruct le; reflexivity).
      destruct (generate_asset _ _ _ _ _ _ _ _ _ _ _ _ _) as [[p fs'] | e] eqn:G;
        [| discriminate].
      destruct (generate_asset_inv _ _ _ _ _ _ _ G) as (-> & _ & c & -> & Hw).
      cbn [mbind Py.result_bind].
      unfold read_file. rewrite lookup_insert_eq. cbn [mbind Py.result_bind].
      apply IH.
      * intros c0. rewrite image_open_after; [apply Hin |].
        apply not_eq_sym, output_not_input.
      * apply Forall_app. split; [exact Hres |].
        apply Forall_cons. split; [| apply Forall_nil; exact I].
        exists c. split; [reflexivity |].
        destruct (image_open world fs in_path) as [c0 | e] eqn:O.
        -- apply (Hw eq_refl c0 eq_refl). apply Hin. reflexivity.
        -- unfold generate_asset in G. rewrite O in G. discriminate.
    + rewrite generate_each_skip by exact Hout. apply IH; assumption.
Qed.

(** ** The request *)

Abbreviation respond logo_enabled :=
  (generate_assets world timestamp mode title cta title_font_size text_position
     logo_enabled logo_position logo_size).
Abbreviation logo_tmp := ("/tmp/logo_" ++ timestamp ++ ".png").

Lemma logo_not_input : logo_tmp <> in_path.
Proof. unfold input_path. cbn. intros E. discriminate E. Qed.

Lemma input_not_dot : String.eqb in_path "." = false.
Proof. reflexivity. Qed.

Lemma logo_not_dot : String.eqb logo_tmp "." = false.
Proof. reflexivity. Qed.

Lemma bomb_check_ok w h :
  0 < w -> 0 < h -> w * h <= 2 * PIL.MAX_IMAGE_PIXELS ->
  PIL.decompression_bomb_check (w, h) = Py.Ok tt.
Proof.
  intros Hw Hh A. unfold PIL.decompression_bomb_check. cbn [fst snd].
  rewrite !Z.max_r by lia.
  destruct (Z.ltb_spec (2 * PIL.MAX_IMAGE_PIXELS) (w * h)); [lia | reflexivity].
Qed.

Lemma image_open_upload fs path content :
  String.eqb path "." = false -> fs !! path = Some (Upload content) ->
  readable world content ->
  image_open world fs path = Py.Ok (Decoded content).
Proof.
  intros N L R. unfold image_open. rewrite N, L. unfold decode.
  pose proof (readable_bounds world content R) as B.
  destruct R as [D _]. rewrite D.
  destruct (canvas_size world (Decoded content)) as [w h].
  rewrite bomb_check_ok by lia. reflexivity.
Qed.

(** The image the request starts from can be opened and passes the
    size check. *)
Lemma base_image_opens disk image fs :
  writable world in_path = true ->
  (forall content, image = Some content -> readable world content) ->
  match image with
  | Some content => write_file world disk in_path (Upload content)
  | None => image_save world disk Placeholder in_path
  end = Py.Ok fs ->
  exists c0,
    image_open world fs in_path = Py.Ok c0 /\
    (let '(w, h) := canvas_size world c0 in
     0 < w /\ 0 < h /\ w * h <= 2 * PIL.MAX_IMAGE_PIXELS).
Proof.
  intros W R. unfold image_save, write_file. rewrite W.
  destruct image as [content |]; intros [= <-].
  - exists (Decoded content). split.
    + apply image_open_upload; [reflexivity | apply lookup_insert_eq | apply R; reflexivity].
    + pose proof (readable_bounds world content (R content eq_refl)) as B.
      destruct (canvas_size world (Decoded content)). lia.
  - exists Placeholder. split.
    + unfold image_open. rewrite input_not_dot, lookup_insert_eq. reflexivity.
    + cbn. repeat split; try lia. vm_compute. discriminate.
Qed.

(** C8. Labels outside the catalog are passed over without an error:
    the loop treats the request as if they were not there, and a
    response that is a success holds one asset per catalog label of
    the request, in order, and reports their number.  The response is
    that success when the uploads can be written to their temporary
    files and read back as images, the logo, if one is supplied and
    enabled, can be scaled to the logo size, and for each catalog
    label of the request there is memory for the canvas, the texts can
    be drawn and the output can be written.  For ["16:9,bogus,1:1"]
    these are the two assets of 16:9 and 1:1. *)
Theorem catalog_formats_each_yield_an_asset (logo_enabled : bool)
    (disk : gmap string File) (image logo_file : option string) (formats : string) :
  let format_list := map Py.strip (Py.split "," formats) in
  let wanted := filter (fun k => k ∈ catalog) format_list in
  (forall lp fs results,
     each logo_enabled format_list lp fs results
     = each logo_enabled wanted lp fs results) /\
  (forall assets n m,
     respond logo_enabled disk image logo_file formats = Success assets n m ->
     map asset_format assets = wanted /\ n = length assets) /\
  (formats = "16:9,bogus,1:1" -> wanted = ["16:9"; "1:1"]) /\
  (writable world in_path = true ->
   (forall content, image = Some content -> readable world content) ->
   (forall content, logo_file = Some content -> logo_enabled = true ->
      writable world logo_tmp = true /\
      readable world content /\ scalable world content logo_size) ->
   (forall k, k ∈ wanted ->
      writable world (out_path k) = true /\
      allocates world (default (1080, 1080) (dimensions !! k)) = true /\
      (Py.truthy title || Py.truthy cta = true ->
       text_error world (default (1080, 1080) (dimensions !! k)) title cta
         title_font_size text_position = None)) ->
   exists assets,
     respond logo_enabled disk image logo_file formats
     = Success assets (length assets) mode /\
     map asset_format assets = wanted /\
     (formats = "16:9,bogus,1:1" ->
      map asset_format assets = ["16:9"; "1:1"] /\ length assets = 2%nat)).
Proof.
  intros format_list wanted.
  assert (Two : formats = "16:9,bogus,1:1" -> wanted = ["16:9"; "1:1"]).
  { intros E. unfold wanted, format_list. rewrite E. reflexivity. }
  split; [| split; [| split; [exact Two |]]].
  - intros lp fs results. apply generate_each_filter.
  - intros assets n m. unfold generate_assets. fold format_list.
    match goal with
    | |- context [mbind _ ?m0] => destruct m0 as [fs0 | e]; [| discriminate]
    end.
    cbn [mbind Py.result_bind].
    match goal with
    | |- context [mbind _ ?m1] => destruct m1 as [[lp fs1] | e]; [| discriminate]
    end.
    cbn [mbind Py.result_bind].
    destruct (each logo_enabled format_list lp fs1 []) as [out | e] eqn:E; [| discriminate].
    intros [= <- <- _].
    destruct (generate_each_formats _ _ _ _ _ _ E) as (assets & -> & F).
    split; [exact F | reflexivity].
  - intros Win Rimg Hlogo Hfmt. unfold generate_assets. fold format_list.
    destruct (match image with
              | Some content => write_file world disk in_path (Upload content)
              | None => image_save world disk Placeholder in_path
              end) as [fs0 | e] eqn:E0.
    2:{ unfold image_save, write_file in E0. rewrite Win in E0.
        destruct image; discriminate. }
    destruct (base_image_opens disk image fs0 Win Rimg E0) as (c0 & O0 & S0).
    cbn [mbind Py.result_bind].
    assert (G : exists lp fs,
              match logo_file with
              | Some content =>
                  if logo_enabled
                  then fs ← write_file world fs0 logo_tmp (Upload content);
                       mret (Some logo_tmp, fs)
                  else mret (None, fs0)
              | None => mret (None, fs0)
              end = Py.Ok (lp, fs) /\
              image_open world fs in_path = Py.Ok c0 /\
              (forall p, (if logo_enabled then lp else None) = Some p ->
                 (exists l l', image_open world fs p = Py.Ok l /\
                               resize_logo world l logo_size = Py.Ok l') /\
                 forall k, p <> out_path k)).
    { destruct logo_file as [content |].
      - destruct logo_enabled eqn:Le.
        + destruct (Hlogo content eq_refl eq_refl) as (Wl & Rl & Sl).
          unfold write_file. rewrite Wl. cbn [mbind Py.result_bind mret Py.result_ret].
          do 2 eexists. split; [reflexivity |]. split.
          * unfold image_open in *. rewrite input_not_dot in *.
            rewrite lookup_insert_ne by apply logo_not_input. exact O0.
          * intros p [= <-]. split.
            -- destruct (resize_logo_ok world content logo_size Rl Sl) as [nh Hr].
               exists (Decoded content). eexists. split; [| exact Hr].
               apply image_open_upload; [reflexivity | apply lookup_insert_eq | exact Rl].
            -- intros k. apply not_eq_sym, output_not_logo.
        + do 2 eexists. split; [reflexivity |]. split; [exact O0 | discriminate].
      - do 2 eexists. split; [reflexivity |]. split; [exact O0 |].
        destruct logo_enabled; discriminate. }
    destruct G as (lp & fs & -> & Hin & Hlp). cbn [mbind Py.result_bind].
    destruct (generate_each_ok logo_enabled format_list lp fs [] c0 Hin Hlp)
      as (assets & E & F).
    { intros k w h Hk Hc D.
      destruct (Hfmt k) as (Wk & Mk & Tk).
      { apply list_elem_of_filter. split; assumption. }
      rewrite D in Mk, Tk.
      destruct (catalog_dimensions k w h Hc D) as [Bw Bh].
      split; [| split; [exact Tk | exact Wk]].
      apply smart_crop_ok; assumption. }
    rewrite E. cbn [app]. exists assets.
    split; [reflexivity |]. split; [exact F |].
    intros Ef. pose proof (Two Ef) as T. unfold wanted in T.
    rewrite F, T. split; [reflexivity |].
    rewrite <- (length_map asset_format), F, T. reflexivity.
Qed.


(** C9, amended. [logo_handler.add_logo], called without a logo path,
    looks for the logo at [static/logo/mako_logo.png].  When the file
    is absent the call goes to the text watermark ["KESHET"] at
    opacity 0.35, an alpha of 89: the missing file is not an error,
    and the watermark is returned whenever that text can be drawn.
    When the file is there the call is [add_image_logo] on it, which
    composites the image.  The asset pipeline does not go through
    [add_logo]: a request that supplies no logo file yields assets with
    no logo or watermark step at all. *)
Theorem default_watermark_resolution (fs : gmap string File) (canvas : Canvas)
    (position : string) (logo_width : Z) (opacity : Q) :
  (fs !! default_logo_path world = None ->
     add_logo world fs canvas position None logo_width opacity
     = add_transparent_logo world canvas "KESHET" position (F64.literal 35 100) /\
     (watermark_error world (canvas_size world canvas) "KESHET" position = None ->
      add_logo world fs canvas position None logo_width opacity
      = Py.Ok (AddTransparentLogo canvas "KESHET" position (F64.literal 35 100))) /\
     (forall e, add_logo world fs canvas position None logo_width opacity = Py.Raise e ->
                watermark_error world (canvas_size world canvas) "KESHET" position
                = Some e)) /\
  (is_Some (fs !! default_logo_path world) ->
     add_logo world fs canvas position None logo_width opacity
     = add_image_logo world fs canvas (PathLike (default_logo_path world))
         position logo_width opacity /\
     (forall c, add_logo world fs canvas position None logo_width opacity = Py.Ok c ->
                c = AddImageLogo canvas (PathLike (default_logo_path world))
                      position logo_width opacity)) /\
  LogoHandler.alpha_value (F64.literal 35 100) = 89 /\
  (forall logo_enabled disk image formats assets n m,
     respond logo_enabled disk image None formats = Success assets n m ->
     Forall clean assets).
Proof.
  assert (N : String.eqb (default_logo_path world) "." = false)
    by (apply String.eqb_neq, default_logo_not_dot).
  split; [| split; [| split]].
  - intros H.
    assert (E : add_logo world fs canvas position None logo_width opacity
                = add_transparent_logo world canvas "KESHET" position (F64.literal 35 100)).
    { unfold add_logo, path_exists. rewrite N. cbn [orb].
      rewrite bool_decide_eq_false_2; [reflexivity |].
      rewrite H. intros [x Hx]. discriminate. }
    split; [exact E |]. rewrite E. unfold add_transparent_logo.
    destruct (watermark_error world (canvas_size world canvas) "KESHET" position).
    + split; [discriminate |]. intros e' [= <-]. reflexivity.
    + split; [reflexivity | discriminate].
  - intros H.
    assert (E : add_logo world fs canvas position None logo_width opacity
                = add_image_logo world fs canvas (PathLike (default_logo_path world))
                    position logo_width opacity).
    { unfold add_logo, path_exists. rewrite N. cbn [orb].
      rewrite bool_decide_eq_true_2 by exact H. reflexivity. }
    split; [exact E |]. rewrite E. unfold add_image_logo. intros c.
    destruct (image_open world fs (default_logo_path world)) as [l | e]; [| discriminate].
    cbn [mbind Py.result_bind]. destruct (canvas_size world l) as [w h].
    destruct (LogoHandler.resized_logo_size w h logo_width) as [sz | e]; [| discriminate].
    cbn [mbind Py.result_bind].
    destruct (PIL.resize_outcome _ _ sz) as [how | e]; [| discriminate].
    cbn [mbind Py.result_bind].
    destruct (opacity_table opacity) as [u | e]; [| discriminate].
    cbn. intros [= <-]. reflexivity.
  - vm_compute. reflexivity.
  - intros logo_enabled disk image formats assets n m. unfold generate_assets.
    match goal with
    | |- context [mbind _ ?m0] => destruct m0 as [fs0 | e] eqn:E0; [| discriminate]
    end.
    cbn [mbind Py.result_bind mret Py.result_ret].
    match goal with
    | |- context [generate_each _ _ _ _ _ _ _ _ _ ?fl None fs0 []] =>
        destruct (each logo_enabled fl None fs0 []) as [out | e] eqn:E; [| discriminate];
        pose proof (generate_each_clean logo_enabled fl fs0 [] out) as C
    end.
    intros R. injection R as <- _ _. apply C; [| apply Forall_nil; exact I | exact E].
    intros c0. unfold image_save, write_file in E0.
    destruct (writable world in_path); [| destruct image; discriminate].
    unfold image_open. rewrite input_not_dot.
    destruct image as [content |]; injection E0 as <-; rewrite lookup_insert_eq.
    + unfold decode. destruct (decodable world content); [| discriminate].
      destruct (PIL.decompression_bomb_check _); [| discriminate].
      cbn. intros [= <-]. reflexivity.
    + destruct (PIL.decompression_bomb_check _); [| discriminate].
      cbn. intros [= <-]. reflexivity.
Qed.

End Request.


(** C9 as stated fails: with the logo enabled, no logo file and no
    default logo on the disk, where [add_logo] would render the text
    watermark, the asset produced carries no logo or watermark step. *)
Lemma pipeline_renders_no_watermark :
  (∅ : gmap string File) !! default_logo_path Samples.kind = None /\
  add_logo Samples.kind ∅ (SmartCrop (Decoded "img") 1200 675) "top-right" None 90 (85 # 100)
  = Py.Ok (AddTransparentLogo (SmartCrop (Decoded "img") 1200 675) "KESHET" "top-right"
             (F64.literal 35 100)) /\
  exists a,
    generate_assets Samples.kind "ts" "from-image" "Sale" "" 68 "center" true
      "top-right" 90 ∅ (Some "img") None "16:9"
    = Success [a] 1 "from-image" /\
    asset_url a = Saved (AddTextOverlay (SmartCrop (Decoded "img") 1200 675)
                           "Sale" "" 68 "center") /\
    clean a.
Proof.
  split; [reflexivity |]. split; [vm_compute; reflexivity |].
  eexists. split; [vm_compute; reflexivity |]. split; [reflexivity |].
  eexists. split; reflexivity.
Qed.

Lemma catalog_formats_witness :
  writable Samples.kind (input_path "ts") = true /\
  (forall content, Some "img" = Some content -> readable Samples.kind content) /\
  (forall content, Some "logo" = Some content -> true = true ->
     writable Samples.kind ("/tmp/logo_" ++ "ts" ++ ".png") = true /\
     readable Samples.kind content /\ scalable Samples.kind content 90) /\
  (forall k,
     k ∈ filter (fun k => k ∈ catalog) (map Py.strip (Py.split "," "16:9,bogus,1:1")) ->
     writable Samples.kind (output_path_of "ts" k) = true /\
     allocates Samples.kind (default (1080, 1080) (dimensions !! k)) = true /\
     (Py.truthy "Sale" || Py.truthy "" = true ->
      text_error Samples.kind (default (1080, 1080) (dimensions !! k)) "Sale" ""
        68 "center" = None)) /\
  exists assets,
    generate_assets Samples.kind "ts" "from-image" "Sale" "" 68 "center" true
      "top-right" 90 ∅ (Some "img") (Some "logo") "16:9,bogus,1:1"
    = Success assets (length assets) "from-image" /\
    map asset_format assets
    = filter (fun k => k ∈ catalog) (map Py.strip (Py.split "," "16:9,bogus,1:1")) /\
    ("16:9,bogus,1:1" = "16:9,bogus,1:1" ->
     map asset_format assets = ["16:9"; "1:1"] /\ length assets = 2%nat).
Proof.
  assert (R : forall content, readable Samples.kind content).
  { intros content. split; [reflexivity | vm_compute; discriminate]. }
  assert (H1 : writable Samples.kind (input_path "ts") = true) by reflexivity.
  assert (H2 : forall content, Some "img" = Some content -> readable Samples.kind content)
    by (intros content _; apply R).
  assert (H3 : forall content, Some "logo" = Some content -> true = true ->
            writable Samples.kind ("/tmp/logo_" ++ "ts" ++ ".png") = true /\
            readable Samples.kind content /\ scalable Samples.kind content 90).
  { intros content _ _. split; [reflexivity |]. split; [apply R |].
    vm_compute. repeat split; discriminate. }
  assert (H4 : forall k,
            k ∈ filter (fun k => k ∈ catalog)
                  (map Py.strip (Py.split "," "16:9,bogus,1:1")) ->
            writable Samples.kind (output_path_of "ts" k) = true /\
            allocates Samples.kind (default (1080, 1080) (dimensions !! k)) = true /\
            (Py.truthy "Sale" || Py.truthy "" = true ->
             text_error Samples.kind (default (1080, 1080) (dimensions !! k)) "Sale" ""
               68 "center" = None))
    by (intros k _; repeat split; reflexivity).
  exact (conj H1 (conj H2 (conj H3 (conj H4
    (proj2 (proj2 (proj2
      (catalog_formats_each_yield_an_asset Samples.kind "ts" "from-image" "Sale" "" 68
         "center" "top-right" 90 true ∅ (Some "img") (Some "logo") "16:9,bogus,1:1")))
       H1 H2 H3 H4))))).
Defined.


Lemma default_watermark_witness :
  (∅ : gmap string File) !! default_logo_path Samples.kind = None /\
  watermark_error Samples.kind (canvas_size Samples.kind Placeholder) "KESHET" "top-right"
  = None /\
  add_logo Samples.kind ∅ Placeholder "top-right" None 150 (85 # 100)
  = Py.Ok (AddTransparentLogo Placeholder "KESHET" "top-right" (F64.literal 35 100)).
Proof.
  assert (H : (∅ : gmap string File) !! default_logo_path Samples.kind = None) by reflexivity.
  assert (W : watermark_error Samples.kind (canvas_size Samples.kind Placeholder)
                "KESHET" "top-right" = None) by reflexivity.
  exact (conj H (conj W
    (proj1 (proj2 (proj1 (default_watermark_resolution Samples.kind "ts" "from-image"
       "Sale" "" 68 "center" "top-right" 90 ∅ Placeholder "top-right" 150 (85 # 100)) H))
       W))).
Defined.

End FlowFacts.
(* ===================================================================== *)
(** * Cropping and logo scaling: edge behaviour

    Further properties of [ImageProcessor.smart_crop] and
    [ImageProcessor.resize_logo], read off
    [services/image_processor.py]. *)
(* ===================================================================== *)

Section CropEdges.
Import F64 F64Facts PIL ImageProcessor.

Lemma ratio_nonneg a b : 0 <= a -> 0 < b -> (0 <= inject_Z a / inject_Z b)%Q.
Proof.
  intros Ha Hb. apply Qle_shift_div_l; [apply inject_Z_pos, Hb |].
  rewrite Qmult_0_l. apply inject_Z_nonneg, Ha.
Qed.

Lemma rgb_source_dims (pil : Backend) (img : Image) :
  let img' := if Mode_eqb (mode img) RGB then img else convert pil img RGB in
  width img' = width img /\ height img' = height img /\ mode img' = RGB.
Proof.
  cbv zeta. destruct (Mode_eqb (mode img) RGB) eqn:E.
  - repeat split. destruct (mode img); try discriminate; reflexivity.
  - repeat split.
Qed.

(** What [resize] returns keeps the mode and has the size asked for. *)
Lemma resize_mode_size (pil : Backend) (im out : Image) (sz : Z * Z) :
  resize pil im sz = Py.Ok out -> mode out = mode im /\ size out = sz.
Proof.
  intros E. split; [| apply (resize_size pil im sz out E)].
  revert E. unfold resize.
  destruct (PIL.resize_outcome (allocates pil) (size im) sz) as [[|] | e];
    cbn; [intros [= <-]; reflexivity | intros [= <-]; reflexivity | discriminate].
Qed.

Lemma resize_never_divides (pil : Backend) (im : Image) (sz : Z * Z) :
  resize pil im sz <> Py.Raise Py.ZeroDivisionError.
Proof.
  unfold resize, PIL.resize_outcome.
  destruct (bool_decide _); [discriminate |]. destruct (negb _); [discriminate |].
  destruct (_ || _); [discriminate |]. destruct (negb _); discriminate.
Qed.

Lemma crop_never_divides (im : Image) (box : Box) :
  crop im box <> Py.Raise Py.ZeroDivisionError.
Proof.
  unfold crop, crop_size. destruct box as [[[x0 y0] x1] y1].
  destruct (x1 <? x0); [discriminate |]. destruct (y1 <? y0); [discriminate |].
  unfold decompression_bomb_check. destruct (_ <? _); discriminate.
Qed.

Lemma int_of_rounded_never_divides x :
  Py.int_of_rounded x <> Py.Raise Py.ZeroDivisionError.
Proof. unfold Py.int_of_rounded. destruct (overflows x); discriminate. Qed.

Lemma float_of_int_never_divides z :
  Py.float_of_int z <> Py.Raise Py.ZeroDivisionError.
Proof. unfold Py.float_of_int. destruct (overflows _); discriminate. Qed.

(** The quotient of a size by a positive size does not overflow. *)
Lemma size_ratio_finite a b :
  0 <= a <= INT_MAX -> 0 < b ->
  Py.truediv_int a b = Py.Ok (round (inject_Z a / inject_Z b)) /\
  (0 <= round (inject_Z a / inject_Z b))%Q.
Proof.
  intros Ha Hb. split.
  - unfold Py.truediv_int. destruct (Z.eqb_spec b 0); [lia |].
    rewrite finite_below; [reflexivity |].
    assert (P := ratio_nonneg a b ltac:(lia) Hb). rewrite Qabs_pos by exact P.
    assert (Pb := inject_Z_pos b Hb).
    apply Qle_shift_div_r; [exact Pb |].
    assert (L1 : (1 <= inject_Z b)%Q)
      by (change 1%Q with (inject_Z 1); rewrite <- Zle_Qle; lia).
    assert (Ua : (inject_Z a <= inject_Z (2 ^ 31))%Q)
      by (rewrite <- Zle_Qle; unfold INT_MAX in Ha; lia).
    assert (E : (pow2 64 == inject_Z (2 ^ 64))%Q) by (apply pow2_Z; lia).
    assert (inject_Z (2 ^ 31) <= inject_Z (2 ^ 64))%Q by (rewrite <- Zle_Qle; lia).
    assert (P64 := pow2_pos 64).
    assert (pow2 64 * 1 <= pow2 64 * inject_Z b)%Q by (apply Qmult_le_l; assumption).
    lra.
  - apply round_nonneg, ratio_nonneg; lia.
Qed.

(** X1. [smart_crop] divides by the image height and by the target
    height: on an image (its sides are C integers, never negative) it
    raises [ZeroDivisionError] exactly when one of the two heights is
    zero. *)
Theorem smart_crop_division_by_zero (pil : Backend) (img : Image) (tw th : Z) :
  0 <= width img <= INT_MAX -> 0 <= height img ->
  (smart_crop pil img tw th = Py.Raise Py.ZeroDivisionError
   <-> height img = 0 \/ th = 0).
Proof.
  intros Hw Hh. unfold smart_crop.
  destruct (rgb_source_dims pil img) as (Ew & Eh & _).
  set (img' := if Mode_eqb (mode img) RGB then img else convert pil img RGB) in *.
  rewrite Ew, Eh. unfold smart_crop_box.
  destruct (Z.eq_dec (height img) 0) as [H0 | H0].
  { unfold Py.truediv_int. rewrite H0. cbn. split; [auto | reflexivity]. }
  destruct (size_ratio_finite (width img) (height img) Hw ltac:(lia)) as [E1 P1].
  rewrite E1. cbn [mbind Py.result_bind].
  set (ir := round (inject_Z (width img) / inject_Z (height img))) in *.
  destruct (Z.eq_dec th 0) as [T0 | T0].
  { unfold Py.truediv_int. rewrite T0. cbn. split; [auto | reflexivity]. }
  split; [| intros [H | H]; contradiction].
  unfold Py.truediv_int. destruct (Z.eqb_spec th 0); [contradiction |].
  destruct (overflows (inject_Z tw / inject_Z th)); [discriminate |].
  cbn [mbind Py.result_bind].
  set (tr := round (inject_Z tw / inject_Z th)).
  assert (Tail : forall box : Py.result Box,
            box <> Py.Raise Py.ZeroDivisionError ->
            (box ≫= fun box => crop img' box ≫= fun c => resize pil c (tw, th))
            <> Py.Raise Py.ZeroDivisionError).
  { intros [box | e] N; cbn [mbind Py.result_bind]; [| congruence].
    destruct (crop img' box) as [c | e] eqn:C; cbn [mbind Py.result_bind].
    - apply resize_never_divides.
    - intros [= ->]. apply (crop_never_divides img' box). exact C. }
  intros E. exfalso. revert E. apply Tail.
  destruct (Py.gt tr ir) eqn:G.
  - apply gt_true in G.
    destruct (Py.float_of_int (width img)) as [f | e] eqn:F;
      cbn [mbind Py.result_bind];
      [| intros [= ->]; apply (float_of_int_never_divides (width img)); exact F].
    unfold Py.int_truediv. destruct (Qeq_bool tr 0) eqn:Z0.
    { apply Qeq_bool_iff in Z0. lra. }
    destruct (Py.int_of_rounded (f / tr)) as [nh | e] eqn:I;
      cbn [mbind Py.result_bind]; [discriminate |].
    intros [= ->]. apply (int_of_rounded_never_divides (f / tr)). exact I.
  - destruct (Py.float_of_int (height img)) as [f | e] eqn:F;
      cbn [mbind Py.result_bind];
      [| intros [= ->]; apply (float_of_int_never_divides (height img)); exact F].
    unfold Py.int_mul.
    destruct (Py.int_of_rounded (f * tr)) as [nw | e] eqn:I;
      cbn [mbind Py.result_bind]; [discriminate |].
    intros [= ->]. apply (int_of_rounded_never_divides (f * tr)). exact I.
Qed.

Lemma smart_crop_division_by_zero_witness :
  0 <= width Samples.photo <= INT_MAX /\ 0 <= height Samples.photo /\
  (smart_crop Samples.plain Samples.photo 1200 0 = Py.Raise Py.ZeroDivisionError
   <-> height Samples.photo = 0 \/ 0 = 0).
Proof.
  assert (H1 : 0 <= width Samples.photo <= INT_MAX) by (cbn; unfold INT_MAX; lia).
  assert (H2 : 0 <= height Samples.photo) by (cbn; lia).
  exact (conj H1 (conj H2
    (smart_crop_division_by_zero Samples.plain Samples.photo 1200 0 H1 H2))).
Defined.

(** X2. Whatever it is given, what [smart_crop] returns is an RGB image
    of exactly the target size. *)
Theorem smart_crop_returns_rgb (pil : Backend) (img out : Image) (tw th : Z) :
  smart_crop pil img tw th = Py.Ok out ->
  mode out = RGB /\ size out = (tw, th).
Proof.
  unfold smart_crop.
  destruct (rgb_source_dims pil img) as (_ & _ & Em).
  set (img' := if Mode_eqb (mode img) RGB then img else convert pil img RGB) in *.
  destruct (smart_crop_box _ _ tw th) as [box | e]; [| discriminate].
  cbn [mbind Py.result_bind].
  destruct (crop img' box) as [c | e] eqn:C; [| discriminate].
  cbn [mbind Py.result_bind]. intros R.
  destruct (resize_mode_size pil c out (tw, th) R) as [M S].
  split; [| exact S]. rewrite M.
  unfold crop in C. destruct (crop_size box); [| discriminate].
  destruct box as [[[x0 y0] x1] y1]. cbn in C. injection C as <-. exact Em.
Qed.

Lemma smart_crop_returns_rgb_witness :
  exists out,
    smart_crop Samples.plain Samples.photo 1080 1080 = Py.Ok out /\
    mode out = RGB /\ size out = (1080, 1080).
Proof.
  eexists. split; [vm_compute; reflexivity |].
  match goal with
  | |- mode ?o = _ /\ _ =>
      pose proof (smart_crop_returns_rgb Samples.plain Samples.photo o 1080 1080) as H
  end.
  split; apply H; vm_compute; reflexivity.
Defined.

End CropEdges.

Section CropAspect.
Import F64 F64Facts PIL ImageProcessor.

(** X3. A source of exactly the target's aspect ratio keeps all its
    rows and all its columns but at most one: the box starts at the
    origin, has the full height and a width of [w] or [w - 1]. *)
Theorem equal_aspect_crop (w h tw th : Z) :
  0 < w <= INT_MAX -> 0 < h <= INT_MAX -> 0 < tw <= INT_MAX -> 0 < th <= INT_MAX ->
  tw * h = w * th ->
  exists nw, w - 1 <= nw <= w /\ smart_crop_box w h tw th = Py.Ok (0, 0, nw, h).
Proof.
  intros Hw Hh Htw Hth Eq.
  rewrite smart_crop_box_eval by assumption.
  set (ir := round (inject_Z w / inject_Z h)).
  set (tr := round (inject_Z tw / inject_Z th)).
  assert (Pw := inject_Z_pos w ltac:(lia)). assert (Ph := inject_Z_pos h ltac:(lia)).
  assert (Ptw := inject_Z_pos tw ltac:(lia)). assert (Pth := inject_Z_pos th ltac:(lia)).
  assert (E : (inject_Z tw * inject_Z h == inject_Z w * inject_Z th)%Q)
    by (rewrite <- !inject_Z_mult, Eq; reflexivity).
  assert (Er : (inject_Z tw / inject_Z th == inject_Z w / inject_Z h)%Q).
  { apply (Qmult_inj_r _ _ (inject_Z th * inject_Z h)).
    - assert (0 < inject_Z th * inject_Z h)%Q by (apply Qmult_lt_0_compat; assumption). lra.
    - transitivity (inject_Z tw * inject_Z h)%Q; [field; lra |].
      rewrite E. field. lra. }
  assert (Etr : (tr == ir)%Q) by (unfold tr, ir; rewrite Er; reflexivity).
  assert (G : Py.gt tr ir = false) by (apply gt_false; lra).
  rewrite G.
  destruct (new_width_range w h tw th Hw Hh Htw Hth) as [Q0 Q1].
  { fold tr ir. lra. }
  fold tr in Q0, Q1.
  destruct (floor_below _ _ (conj Q0 Q1)) as [Et Rg].
  (* the product is above w - 1 *)
  destruct (product_accuracy h tw th Hh Htw Hth) as [Lo _]. fold tr in Lo.
  assert (Ew : (inject_Z h * inject_Z tw / inject_Z th == inject_Z w)%Q).
  { apply (Qmult_inj_r _ _ (inject_Z th)); [lra |].
    transitivity (inject_Z tw * inject_Z h)%Q; [field; lra | exact E]. }
  rewrite Ew, pow2_m51 in Lo.
  assert (Uw : (inject_Z w <= 2147483648)%Q).
  { assert (inject_Z w <= inject_Z (2 ^ 31))%Q
      by (rewrite <- Zle_Qle; unfold INT_MAX in Hw; lia).
    assert (inject_Z (2 ^ 31) == 2147483648)%Q by reflexivity. lra. }
  set (q := fmul (of_int h) tr) in *.
  assert (Lw : w - 1 <= Qfloor q).
  { rewrite <- (Qfloor_Z (w - 1)). apply Qfloor_resp_le.
    unfold Z.sub. rewrite inject_Z_plus. change (inject_Z (- (1))) with (-1)%Q. lra. }
  exists (Qfloor q). split; [lia |].
  cbv zeta. rewrite Et.
  assert (Eo : (w - Qfloor q) / 2 = 0) by (apply Z.div_small; lia).
  rewrite Eo. reflexivity.
Qed.

Lemma equal_aspect_crop_witness :
  0 < 1920 <= INT_MAX /\ 0 < 1080 <= INT_MAX /\
  0 < 1200 <= INT_MAX /\ 0 < 675 <= INT_MAX /\
  1200 * 1080 = 1920 * 675 /\
  exists nw, 1920 - 1 <= nw <= 1920 /\
             smart_crop_box 1920 1080 1200 675 = Py.Ok (0, 0, nw, 1080).
Proof.
  assert (H1 : 0 < 1920 <= INT_MAX) by (unfold INT_MAX; lia).
  assert (H2 : 0 < 1080 <= INT_MAX) by (unfold INT_MAX; lia).
  assert (H3 : 0 < 1200 <= INT_MAX) by (unfold INT_MAX; lia).
  assert (H4 : 0 < 675 <= INT_MAX) by (unfold INT_MAX; lia).
  assert (H5 : 1200 * 1080 = 1920 * 675) by reflexivity.
  exact (conj H1 (conj H2 (conj H3 (conj H4 (conj H5
    (equal_aspect_crop 1920 1080 1200 675 H1 H2 H3 H4 H5)))))).
Defined.

(** ** resize_logo *)

Section WithBackend.
Variable pil : Backend.

(** X4. [resize_logo] asks for the requested width and the height
    [size * h / w] up to a relative [2^-51] and the truncation to whole
    pixels, so that a square logo stays square.  When that height falls
    below one pixel it raises [ValueError], when it exceeds a C integer
    [OverflowError]; otherwise, given the memory, it returns a logo of
    that size and of the same mode. *)
Theorem resize_logo_keeps_aspect (logo : Image) (size : Z) :
  0 < width logo <= INT_MAX -> 0 < height logo <= INT_MAX -> 0 < size <= INT_MAX ->
  let e := (inject_Z size * inject_Z (height logo) / inject_Z (width logo))%Q in
  exists new_height,
    resize_logo_size (width logo) (height logo) size = Py.Ok (size, new_height) /\
    (e * (1 - pow2 (-51)) - 1 < inject_Z new_height <= e * (1 + pow2 (-51)))%Q /\
    (width logo = height logo -> new_height = size) /\
    (new_height < 1 ->
       resize_logo pil logo size
       = Py.Raise (Py.ValueError "height and width must be > 0")) /\
    (INT_MAX < new_height -> resize_logo pil logo size = Py.Raise Py.OverflowError) /\
    (1 <= new_height <= INT_MAX -> allocates pil (size, new_height) = true ->
       exists out, resize_logo pil logo size = Py.Ok out /\
                   PIL.size out = (size, new_height) /\ mode out = mode logo).
Proof.
  intros Hw Hh Hs e.
  destruct (quotient_accuracy size (width logo) (height logo) Hs Hw Hh) as [Lo Hi].
  fold e in Lo, Hi.
  destruct (ratio_float (width logo) (height logo) Hw Hh) as (E1 & _ & Rg).
  set (r := round (inject_Z (width logo) / inject_Z (height logo))) in *.
  set (q := fdiv (of_int size) r) in *.
  assert (Pe : (0 <= e)%Q).
  { unfold e. apply Qle_shift_div_l; [apply inject_Z_pos; lia |]. rewrite Qmult_0_l.
    apply Qmult_le_0_compat; apply inject_Z_nonneg; lia. }
  rewrite pow2_m51 in Lo, Hi.
  assert (Pq : (0 <= q)%Q) by lra.
  assert (Es : resize_logo_size (width logo) (height logo) size = Py.Ok (size, Qfloor q)).
  { unfold resize_logo_size. rewrite E1. cbn [mbind Py.result_bind].
    rewrite float_of_int_ok by lia. cbn [mbind Py.result_bind].
    destruct (int_truediv_ok size r Hs Rg) as [-> _].
    cbn [mbind Py.result_bind]. fold q. rewrite (trunc_nonneg q Pq). reflexivity. }
  assert (E : resize_logo pil logo size = resize pil logo (size, Qfloor q)).
  { unfold resize_logo. rewrite Es. reflexivity. }
  exists (Qfloor q). split; [exact Es |]. rewrite pow2_m51.
  split; [| split; [| split; [| split]]].
  - pose proof (Qfloor_le q). pose proof (Qlt_floor q) as F.
    rewrite inject_Z_plus in F. change (inject_Z 1) with 1%Q in F. split; lra.
  - intros Sq.
    assert (Er : (r == 1)%Q).
    { unfold r. rewrite Sq.
      assert (P := inject_Z_pos (height logo) ltac:(lia)).
      assert (X : (inject_Z (height logo) / inject_Z (height logo) == 1)%Q)
        by (field; lra).
      rewrite X. apply (round_int 1). lia. }
    assert (Eq : (q == inject_Z size)%Q).
    { unfold q, fdiv. rewrite Er, (dim_exact size Hs).
      assert (X : (inject_Z size / 1 == inject_Z size)%Q) by field.
      rewrite X. apply round_int. unfold INT_MAX in Hs. lia. }
    rewrite (Qfloor_comp _ _ Eq). apply Qfloor_Z.
  - intros Small. rewrite E. unfold resize, resize_outcome, PIL.size.
    rewrite bool_decide_eq_false_2 by (intros [= _ X]; lia).
    unfold c_int. cbn [fst snd].
    assert (0 <= Qfloor q) by (rewrite <- (Qfloor_Z 0); apply Qfloor_resp_le, Pq).
    destruct (Z.leb_spec (- INT_MAX - 1) size); [| lia].
    destruct (Z.leb_spec size INT_MAX); [| lia].
    destruct (Z.leb_spec (- INT_MAX - 1) (Qfloor q)); [| unfold INT_MAX in *; lia].
    destruct (Z.leb_spec (Qfloor q) INT_MAX); [| unfold INT_MAX in *; lia].
    cbn [andb negb].
    destruct (Z.ltb_spec size 1); [lia |].
    destruct (Z.ltb_spec (Qfloor q) 1); [reflexivity | lia].
  - intros Big. rewrite E. unfold resize, resize_outcome, PIL.size.
    rewrite bool_decide_eq_false_2 by (intros [= _ X]; lia).
    unfold c_int. cbn [fst snd].
    destruct (Z.leb_spec (Qfloor q) INT_MAX); [lia |].
    rewrite !andb_false_r. reflexivity.
  - intros Fit M. rewrite E.
    destruct (resize_outcome_ok (allocates pil) (PIL.size logo) (size, Qfloor q))
      as [how Ho]; cbn [fst snd]; try assumption; try lia.
    destruct (resize pil logo (size, Qfloor q)) as [out | err] eqn:R.
    + exists out. split; [reflexivity |].
      destruct (resize_mode_size pil logo out _ R). split; assumption.
    + unfold resize in R. rewrite Ho in R. destruct how; discriminate.
Qed.

End WithBackend.

Lemma resize_logo_keeps_aspect_witness :
  0 < width Samples.photo <= INT_MAX /\ 0 < height Samples.photo <= INT_MAX /\
  0 < 150 <= INT_MAX /\
  exists new_height,
    resize_logo_size (width Samples.photo) (height Samples.photo) 150
    = Py.Ok (150, new_height).
Proof.
  assert (H1 : 0 < width Samples.photo <= INT_MAX) by (cbn; unfold INT_MAX; lia).
  assert (H2 : 0 < height Samples.photo <= INT_MAX) by (cbn; unfold INT_MAX; lia).
  assert (H3 : 0 < 150 <= INT_MAX) by (unfold INT_MAX; lia).
  destruct (resize_logo_keeps_aspect Samples.plain Samples.photo 150 H1 H2 H3)
    as (nh & B & _).
  exact (conj H1 (conj H2 (conj H3 (ex_intro _ nh B)))).
Defined.

End CropAspect.

(* ===================================================================== *)
(** * Watermark preparation: edge behaviour

    Further properties of [services/logo_handler.py]: the opacity
    table, the white mask, [prepare_logo] and the scaling of the
    logo. *)
(* ===================================================================== *)

Section LogoEdges.
Import F64 F64Facts PIL LogoHandler.

Lemma trunc_mono x y : (x <= y)%Q -> trunc x <= trunc y.
Proof.
  intros H. unfold trunc.
  destruct (Qle_bool 0 x) eqn:Ex, (Qle_bool 0 y) eqn:Ey.
  - apply Qfloor_resp_le, H.
  - apply Qle_bool_iff in Ex. assert (~ (0 <= y)%Q) by (rewrite <- Qle_bool_iff; congruence). lra.
  - assert (Nx : ~ (0 <= x)%Q) by (rewrite <- Qle_bool_iff; congruence).
    apply Qle_bool_iff in Ey.
    assert (Qceiling x <= 0).
    { rewrite <- (Qceiling_Z 0). apply Qceiling_resp_le. change (inject_Z 0) with 0%Q. lra. }
    assert (0 <= Qfloor y).
    { rewrite <- (Qfloor_Z 0). apply Qfloor_resp_le. exact Ey. }
    lia.
  - apply Qceiling_resp_le, H.
Qed.






(** ** The white mask *)



Section WithBackend.
Variable pil : Backend.
Variable image_open : string -> Py.result Image.

(** X7. Without feathering, [remove_white_background] is idempotent on
    an RGBA image: every pixel it makes transparent it would make
    transparent again, and the rest are left as they are.  The result
    is RGBA and has the size of the input whatever the arguments. *)
Theorem remove_white_background_idempotent (image : Image) (threshold feather : Z) :
  let once := remove_white_background pil image threshold 0 in
  let twice := remove_white_background pil once threshold 0 in
  (forall x y, getpixel twice x y = getpixel once x y) /\
  mode twice = RGBA /\ size twice = size image /\
  mode (remove_white_background pil image threshold feather) = RGBA /\
  size (remove_white_background pil image threshold feather) = size image.
Proof.
  cbv zeta. unfold remove_white_background.
  change (0 <? 0) with false. cbv iota.
  repeat split.
  - intros x y. cbn [mode white_removed Mode_eqb getpixel].
    set (src := if Mode_eqb (mode image) RGBA then image else convert pil image RGBA).
    set (p := getpixel src x y).
    unfold masked_alpha, white_mask, set_alpha. cbn [red green blue alpha].
    destruct ((threshold <? red p) && (threshold <? green p) && (threshold <? blue p));
      reflexivity.
  - cbn. destruct (Mode_eqb (mode image) RGBA); reflexivity.
  - destruct (0 <? feather); reflexivity.
  - destruct (0 <? feather); cbn; destruct (Mode_eqb (mode image) RGBA); reflexivity.
Qed.

Lemma prepare_logo_opened (logo_path : string) (file : Image)
    (remove_background : bool) (threshold : Z) :
  image_open logo_path = Py.Ok file ->
  exists logo,
    prepare_logo pil image_open logo_path remove_background threshold = Py.Ok logo /\
    mode logo = RGBA /\ size logo = size file.
Proof.
  intros Op. unfold prepare_logo. rewrite Op.
  cbn [mbind Py.result_bind mret Py.result_ret].
  eexists. split; [reflexivity |].
  destruct remove_background.
  - unfold remove_white_background. change (0 <? 2) with true. cbv iota. cbn.
    destruct (Mode_eqb (mode file) RGBA) eqn:E; cbn; rewrite ?E; cbn; split; reflexivity.
  - destruct (Mode_eqb (mode file) RGBA) eqn:E; cbn; split; try reflexivity.
    destruct (mode file); try discriminate; reflexivity.
Qed.


End WithBackend.

(** ** The text watermark's alpha *)

(** X9. [int(255 * opacity)], the alpha of the text watermark, is
    monotone in the opacity; for an opacity in [[0,1]] it is a byte, 0
    at opacity 0 and 255 at opacity 1; the default 0.35 gives 89. *)
Theorem alpha_value_range (o1 o2 : Q) :
  (0 <= o1 <= o2)%Q -> (o2 <= 1)%Q ->
  0 <= alpha_value o1 <= alpha_value o2 /\ alpha_value o2 <= 255 /\
  alpha_value 0 = 0 /\ alpha_value 1 = 255 /\
  alpha_value (literal 35 100) = 89.
Proof.
  intros [O1 O2] O3.
  assert (M : forall x y, (0 <= x <= y)%Q -> alpha_value x <= alpha_value y).
  { intros x y [X Y]. apply trunc_mono, round_mono.
    assert (E : (of_int 255 == 255)%Q) by reflexivity. rewrite E.
    lra. }
  assert (Z0 : alpha_value 0 = 0) by reflexivity.
  assert (Z1 : alpha_value 1 = 255) by reflexivity.
  repeat split; try reflexivity.
  - rewrite <- Z0. apply M. lra.
  - apply M. lra.
  - rewrite <- Z1. apply M. lra.
Qed.

Lemma alpha_value_range_witness :
  (0 <= (1 # 4) <= (1 # 2))%Q /\ ((1 # 2) <= 1)%Q /\
  0 <= alpha_value (1 # 4) <= alpha_value (1 # 2) /\ alpha_value (1 # 2) <= 255.
Proof.
  assert (H1 : (0 <= (1 # 4) <= (1 # 2))%Q) by (split; discriminate).
  assert (H2 : ((1 # 2) <= 1)%Q) by discriminate.
  pose proof (alpha_value_range _ _ H1 H2) as (A & B & _).
  exact (conj H1 (conj H2 (conj A B))).
Defined.

End LogoEdges.

Section LogoScale.
Import F64 F64Facts PIL LogoHandler.

Section WithBackend.
Variable pil : Backend.
Variable image_open : string -> Py.result Image.

(** X10. The logo that [add_image_logo] pastes has the requested width
    and the height [logo_width * h / w] of the file's aspect ratio, up
    to a relative [2^-51] and the truncation to whole pixels; a square
    file gives a square logo.  It is RGBA.  When that height falls
    below one pixel the call raises [ValueError], and when it exceeds
    a C integer [OverflowError]. *)
Theorem logo_layer_keeps_aspect (logo_path : string) (file : Image) (logo_width : Z)
    (opacity : Q) (remove_background : bool) :
  image_open logo_path = Py.Ok file ->
  0 < width file <= INT_MAX -> 0 < height file <= INT_MAX -> 0 < logo_width <= INT_MAX ->
  (0 <= opacity <= 1)%Q ->
  let e := (inject_Z logo_width * inject_Z (height file) / inject_Z (width file))%Q in
  exists new_height,
    resized_logo_size (width file) (height file) logo_width
    = Py.Ok (logo_width, new_height) /\
    (e * (1 - pow2 (-51)) - 1 < inject_Z new_height <= e * (1 + pow2 (-51)))%Q /\
    (width file = height file -> new_height = logo_width) /\
    (new_height < 1 ->
       logo_layer pil image_open logo_path logo_width opacity remove_background
       = Py.Raise (Py.ValueError "height and width must be > 0")) /\
    (INT_MAX < new_height ->
       logo_layer pil image_open logo_path logo_width opacity remove_background
       = Py.Raise Py.OverflowError) /\
    (1 <= new_height <= INT_MAX -> allocates pil (logo_width, new_height) = true ->
       exists layer,
         logo_layer pil image_open logo_path logo_width opacity remove_background
         = Py.Ok layer /\
         size layer = (logo_width, new_height) /\ mode layer = RGBA).
Proof.
  intros Op Hw Hh Hs _ e.
  destruct (product_accuracy logo_width (height file) (width file) Hs Hh Hw) as [Lo Hi].
  fold e in Lo, Hi.
  destruct (ratio_float (height file) (width file) Hh Hw) as (E1 & _ & Rg).
  set (r := round (inject_Z (height file) / inject_Z (width file))) in *.
  set (q := fmul (of_int logo_width) r) in *.
  assert (Pe : (0 <= e)%Q).
  { unfold e. apply Qle_shift_div_l; [apply inject_Z_pos; lia |]. rewrite Qmult_0_l.
    apply Qmult_le_0_compat; apply inject_Z_nonneg; lia. }
  rewrite pow2_m51 in Lo, Hi.
  assert (Pq : (0 <= q)%Q) by lra.
  assert (P0 : 0 <= Qfloor q) by (rewrite <- (Qfloor_Z 0); apply Qfloor_resp_le, Pq).
  assert (Es : resized_logo_size (width file) (height file) logo_width
               = Py.Ok (logo_width, Qfloor q)).
  { unfold resized_logo_size. rewrite E1. cbn [mbind Py.result_bind].
    rewrite float_of_int_ok by lia. cbn [mbind Py.result_bind].
    destruct (int_mul_ok logo_width r Hs Rg) as [-> _].
    cbn [mbind Py.result_bind]. fold q. rewrite (trunc_nonneg q Pq). reflexivity. }
  destruct (prepare_logo_opened pil image_open logo_path file remove_background 240 Op)
    as (logo & Eprep & Mlogo & Slogo).
  pose proof Slogo as Slogo'. injection Slogo' as Wl Hl.
  assert (E : logo_layer pil image_open logo_path logo_width opacity remove_background
              = (logo ← resize pil logo (logo_width, Qfloor q);
                 mret (with_opacity logo opacity))).
  { unfold logo_layer, resized_logo. rewrite Eprep. cbn [mbind Py.result_bind].
    rewrite Wl, Hl, Es. reflexivity. }
  exists (Qfloor q). split; [exact Es |]. rewrite pow2_m51.
  split; [| split; [| split; [| split]]].
  - pose proof (Qfloor_le q). pose proof (Qlt_floor q) as F.
    rewrite inject_Z_plus in F. change (inject_Z 1) with 1%Q in F. split; lra.
  - intros Sq.
    assert (Er : (r == 1)%Q).
    { unfold r. rewrite Sq.
      assert (P := inject_Z_pos (height file) ltac:(lia)).
      assert (X : (inject_Z (height file) / inject_Z (height file) == 1)%Q)
        by (field; lra).
      rewrite X. apply (round_int 1). lia. }
    assert (Eq : (q == inject_Z logo_width)%Q).
    { unfold q, fmul. rewrite Er, (dim_exact logo_width Hs).
      assert (X : (inject_Z logo_width * 1 == inject_Z logo_width)%Q) by ring.
      rewrite X. apply round_int. unfold INT_MAX in Hs. lia. }
    rewrite (Qfloor_comp _ _ Eq). apply Qfloor_Z.
  - intros Small. rewrite E. unfold resize, resize_outcome. rewrite Slogo.
    rewrite bool_decide_eq_false_2 by (unfold size; intros [= _ X]; lia).
    unfold c_int. cbn [fst snd].
    destruct (Z.leb_spec (- INT_MAX - 1) logo_width); [| lia].
    destruct (Z.leb_spec logo_width INT_MAX); [| lia].
    destruct (Z.leb_spec (- INT_MAX - 1) (Qfloor q)); [| unfold INT_MAX in *; lia].
    destruct (Z.leb_spec (Qfloor q) INT_MAX); [| unfold INT_MAX in *; lia].
    cbn [andb negb].
    destruct (Z.ltb_spec logo_width 1); [lia |].
    destruct (Z.ltb_spec (Qfloor q) 1); [reflexivity | lia].
  - intros Big. rewrite E. unfold resize, resize_outcome. rewrite Slogo.
    rewrite bool_decide_eq_false_2 by (unfold size; intros [= _ X]; lia).
    unfold c_int. cbn [fst snd].
    destruct (Z.leb_spec (Qfloor q) INT_MAX); [lia |].
    rewrite !andb_false_r. reflexivity.
  - intros Fit M. rewrite E.
    destruct (resize_outcome_ok (allocates pil) (size logo) (logo_width, Qfloor q))
      as [how Ho]; cbn [fst snd]; try assumption; try lia.
    destruct (resize pil logo (logo_width, Qfloor q)) as [out | err] eqn:R.
    + cbn [mbind Py.result_bind mret Py.result_ret]. eexists. split; [reflexivity |].
      pose proof (resize_size pil logo _ out R) as S.
      unfold size in *. cbn [with_opacity width height mode]. split; [exact S | reflexivity].
    + unfold resize in R. rewrite Ho in R. destruct how; discriminate.
Qed.

End WithBackend.

Lemma logo_layer_keeps_aspect_witness :
  0 < width Samples.photo <= INT_MAX /\ 0 < height Samples.photo <= INT_MAX /\
  0 < 150 <= INT_MAX /\ (0 <= 3 # 4 <= 1)%Q /\
  exists new_height,
    resized_logo_size (width Samples.photo) (height Samples.photo) 150
    = Py.Ok (150, new_height).
Proof.
  assert (H1 : 0 < width Samples.photo <= INT_MAX) by (cbn; unfold INT_MAX; lia).
  assert (H2 : 0 < height Samples.photo <= INT_MAX) by (cbn; unfold INT_MAX; lia).
  assert (H3 : 0 < 150 <= INT_MAX) by (unfold INT_MAX; lia).
  assert (H4 : (0 <= 3 # 4 <= 1)%Q) by (split; discriminate).
  destruct (logo_layer_keeps_aspect Samples.plain (fun _ => Py.Ok Samples.photo)
              "logo.png" Samples.photo 150 (3 # 4) true eq_refl H1 H2 H3 H4)
    as (nh & B & _).
  exact (conj H1 (conj H2 (conj H3 (conj H4 (ex_intro _ nh B))))).
Defined.

End LogoScale.

(* ===================================================================== *)
(** * Compositing: results and frame

    What [ImageProcessor.add_logo], [ImageProcessor.add_text_overlay],
    [logo_handler.add_image_logo] and
    [logo_handler.add_transparent_logo] return and what they leave
    alone. *)
(* ===================================================================== *)

Section ObjectResults.
Import PIL Objects.

(** What an allocation does: the new address holds the new object,
    was not live before, and the live objects stay. *)
Lemma alloc_spec (o : Image) (s : store) :
  (alloc o s).2 !! (alloc o s).1 = Some o /\
  s !! (alloc o s).1 = None /\
  forall r im, s !! r = Some im -> (alloc o s).2 !! r = Some im.
Proof.
  unfold alloc. cbn [fst snd]. split; [apply lookup_insert_eq |].
  assert (F : s !! fresh (dom s) = None) by (apply not_elem_of_dom, is_fresh).
  split; [exact F |]. intros r im H. rewrite lookup_insert_ne; [exact H |].
  intros E. rewrite E in F. congruence.
Qed.

Lemma update_spec (k : ref) (f : Image -> Image) (s : store) :
  update k f s !! k = Some (f (s !!! k)) /\
  forall r im, r <> k -> s !! r = Some im -> update k f s !! r = Some im.
Proof.
  unfold update. split; [apply lookup_insert_eq |].
  intros r im N H. rewrite lookup_insert_ne by congruence. exact H.
Qed.

(** One allocation: names the address and the store, and records what
    [alloc_spec] says of them. *)
Ltac alloc_as k s' L F K :=
  match goal with
  | |- context [alloc ?o ?s] =>
      destruct (alloc_spec o s) as (L & F & K);
      destruct (alloc o s) as [k s']; cbn [fst snd] in L, F, K
  end.

(** One in-place update on the store [s]. *)
Ltac update_on s s' L K :=
  match goal with
  | |- context [update ?k ?f s] =>
      destruct (update_spec k f s) as (L & K);
      set (s' := update k f s) in *
  end.

Section WithBackend.
Variable pil : Backend.
Variable image_open : string -> Py.result Image.
Variable path_exists : string -> bool.

(** X11. Given an RGBA logo, which is its own mask,
    [ImageProcessor.add_logo] returns a new RGB image of the canvas's
    size and modifies no image that existed before the call, neither
    the canvas nor the logo: the paste goes to the RGBA copy it makes
    first. *)
Theorem add_logo_result (s : store) (img logo_image : ref) (im lg : Image)
    (position : string) :
  s !! img = Some im -> s !! logo_image = Some lg -> mode lg = RGBA ->
  let out := add_logo pil img logo_image position s in
  (exists res, out.2 !! out.1 = Some res /\ mode res = RGB /\ size res = size im) /\
  (forall r o, s !! r = Some o -> out.2 !! r = Some o /\ out.1 <> r).
Proof.
  intros H _ _. cbv zeta. unfold add_logo, convert, paste.
  rewrite (lookup_total_correct _ _ _ H).
  alloc_as base s1 L1 F1 K1.
  destruct (size (s1 !!! base)) as [w h] eqn:Sb.
  destruct (size (s1 !!! logo_image)) as [lw lh].
  update_on s1 s2 L2 K2.
  alloc_as out s3 L3 F3 K3. cbn [fst snd].
  split.
  - eexists. split; [exact L3 |]. split; [reflexivity |].
    rewrite (lookup_total_correct _ _ _ L2), (lookup_total_correct _ _ _ L1).
    reflexivity.
  - intros r o Hr.
    assert (Nb : r <> base) by (intros ->; rewrite F1 in Hr; discriminate).
    assert (H2 : s2 !! r = Some o) by (apply K2; auto).
    split; [apply K3, H2 |]. intros E. rewrite E in F3. rewrite F3 in H2. discriminate.
Qed.


(** X13. For an opacity in [[0,1]], [add_image_logo] either fails with
    the error of the logo's preparation or scaling, before it has
    created or changed any image, or returns a new RGB image of the
    canvas's size; in both cases no image that existed before the call
    is modified. *)
Theorem add_image_logo_result (s : store) (image : ref) (im : Image)
    (logo_path position : string) (logo_width : Z) (opacity : Q)
    (remove_background : bool) :
  s !! image = Some im -> (0 <= opacity <= 1)%Q ->
  let out := add_image_logo pil image_open image logo_path position logo_width
               opacity remove_background s in
  match LogoHandler.logo_layer pil image_open logo_path logo_width opacity
          remove_background with
  | Py.Raise e => out = (Py.Raise e, s)
  | Py.Ok _ =>
      (exists k res, out.1 = Py.Ok k /\ out.2 !! k = Some res /\
                     mode res = RGB /\ size res = size im) /\
      (forall r o, s !! r = Some o -> out.2 !! r = Some o /\ out.1 <> Py.Ok r)
  end.
Proof.
  intros H _. cbv zeta. unfold add_image_logo, copy, convert.
  destruct (LogoHandler.logo_layer _ _ _ _ _ _) as [layer | e]; [| reflexivity].
  alloc_as logo s1 L1 F1 K1.
  destruct (size _) as [logo_w logo_h].
  assert (H1 : s1 !! image = Some im) by (apply K1, H).
  rewrite !(lookup_total_correct _ _ _ H1).
  (* the image itself when it is RGBA already, a converted copy otherwise *)
  assert (C : exists image' s2 im',
            (if Mode_eqb (mode im) RGBA then (image, s1)
             else alloc (PIL.convert pil im RGBA) s1) = (image', s2) /\
            s2 !! image' = Some im' /\ size im' = size im /\
            forall r o, s1 !! r = Some o -> s2 !! r = Some o).
  { destruct (Mode_eqb (mode im) RGBA).
    - exists image, s1, im. auto.
    - destruct (alloc_spec (PIL.convert pil im RGBA) s1) as (L & _ & K).
      destruct (alloc _ s1) as [k s2]. cbn [fst snd] in L, K.
      exists k, s2, (PIL.convert pil im RGBA). auto. }
  destruct C as (image' & s2 & im' & -> & L2 & Sz & K2).
  rewrite (lookup_total_correct _ _ _ L2).
  (* the paste goes to the copy *)
  alloc_as dup s3 L3 F3 K3.
  unfold paste.
  update_on s3 s4 L4 K4.
  rewrite (lookup_total_correct _ _ _ L4).
  alloc_as out s5 L5 F5 K5. cbn [fst snd].
  split.
  - exists out. eexists. split; [reflexivity |]. split; [exact L5 |].
    split; [reflexivity |]. rewrite (lookup_total_correct _ _ _ L3). exact Sz.
  - intros r o Hr.
    assert (H3 : s3 !! r = Some o) by (apply K3, K2, K1, Hr).
    assert (Nr : r <> dup).
    { intros E. assert (X : s2 !! r = Some o) by (apply K2, K1, Hr).
      rewrite E in X. rewrite F3 in X. discriminate. }
    assert (H4 : s4 !! r = Some o) by (apply K4; assumption).
    split; [apply K5, H4 |]. intros E. injection E as E.
    rewrite E in F5. rewrite F5 in H4. discriminate.
Qed.

(** ** The text watermark *)



End WithBackend.

Lemma add_logo_result_witness :
  let s : store := <[2%positive := Samples.white_then_black]> (<[1%positive := Samples.photo]> ∅) in
  s !! 1%positive = Some Samples.photo /\
  s !! 2%positive = Some Samples.white_then_black /\
  mode Samples.white_then_black = RGBA /\
  (add_logo Samples.plain 1%positive 2%positive "top-left" s).2 !! 1%positive
  = Some Samples.photo.
Proof.
  intros s.
  assert (H1 : s !! 1%positive = Some Samples.photo) by reflexivity.
  assert (H2 : s !! 2%positive = Some Samples.white_then_black) by reflexivity.
  assert (H3 : mode Samples.white_then_black = RGBA) by reflexivity.
  exact (conj H1 (conj H2 (conj H3
    (proj1 (proj2 (add_logo_result Samples.plain s 1%positive 2%positive
                     Samples.photo Samples.white_then_black "top-left" H1 H2 H3)
              _ _ H1))))).
Defined.


Lemma add_image_logo_result_witness :
  (<[1%positive := Samples.photo]> ∅ : store) !! 1%positive = Some Samples.photo /\
  (0 <= 3 # 4 <= 1)%Q /\
  (add_image_logo Samples.plain (fun _ => Py.Raise (Py.FileNotFoundError "logo.png"))
     1%positive "logo.png" "top-right" 150 (3 # 4) true (<[1%positive := Samples.photo]> ∅))
  = (Py.Raise (Py.FileNotFoundError "logo.png"), <[1%positive := Samples.photo]> ∅).
Proof.
  assert (H : (<[1%positive := Samples.photo]> ∅ : store) !! 1%positive = Some Samples.photo)
    by reflexivity.
  assert (O : (0 <= 3 # 4 <= 1)%Q) by (split; discriminate).
  exact (conj H (conj O (add_image_logo_result Samples.plain
                   (fun _ => Py.Raise (Py.FileNotFoundError "logo.png")) _ 1%positive
                   Samples.photo "logo.png" "top-right" 150 (3 # 4) true H O))).
Defined.


End ObjectResults.
(* ===================================================================== *)
(** * The request: what a response holds and what it leaves on the disk

    Further properties of [generate_assets] in [api/media_studio.py]
    and of [ImageProcessor.generate_asset]. *)
(* ===================================================================== *)

Section RequestFacts.
Import Flow.

Variable world : World.
Variables (timestamp mode title cta : string) (title_font_size : Z)
  (text_position : string) (logo_enabled : bool) (logo_position : string)
  (logo_size : Z).

Abbreviation each := (generate_each world timestamp title cta title_font_size
                    text_position logo_enabled logo_position logo_size).
Abbreviation asset_of := (generate_asset world).
Abbreviation out_path := (output_path_of timestamp).
Abbreviation in_path := (input_path timestamp).
Abbreviation logo_tmp := ("/tmp/logo_" ++ timestamp ++ ".png").
Abbreviation respond := (generate_assets world timestamp mode title cta
                           title_font_size text_position logo_enabled
                           logo_position logo_size).
Abbreviation save_uploads := (Endpoint.save_uploads world timestamp logo_enabled).
Abbreviation base_file image :=
  (match image with
   | Some content => Upload content
   | None => Saved Placeholder
   end).

(** ** The uploads *)

(** The response is decided by the two writes and the loop. *)
Lemma respond_cases disk image logo_file formats :
  respond disk image logo_file formats =
  match save_uploads disk image logo_file with
  | (Py.Raise e, _) => Failure 500 e
  | (Py.Ok lp, fs) =>
      match each (map Py.strip (Py.split "," formats)) lp fs [] with
      | Py.Ok results => Success results (length results) mode
      | Py.Raise e => Failure 500 e
      end
  end.
Proof.
  unfold generate_assets, Endpoint.save_uploads.
  destruct (match image with
            | Some content => write_file world disk in_path (Upload content)
            | None => image_save world disk Placeholder in_path
            end) as [fs0 | e]; [| reflexivity].
  cbn [mbind Py.result_bind].
  destruct logo_file as [lc |]; [destruct logo_enabled |]; try reflexivity.
  destruct (write_file world fs0 logo_tmp (Upload lc)) as [fs1 | e]; reflexivity.
Qed.

(** What the two writes leave when both go through. *)
Lemma save_uploads_ok disk image logo_file lp fs :
  save_uploads disk image logo_file = (Py.Ok lp, fs) ->
  writable world in_path = true /\
  ((lp = None /\ (logo_file = None \/ logo_enabled = false) /\
    fs = <[in_path := base_file image]> disk) \/
   (exists lc, lp = Some logo_tmp /\ logo_file = Some lc /\ logo_enabled = true /\
               writable world logo_tmp = true /\
               fs = <[logo_tmp := Upload lc]> (<[in_path := base_file image]> disk))).
Proof.
  unfold Endpoint.save_uploads, image_save, write_file.
  destruct (writable world in_path); [| destruct image; discriminate].
  assert (E : match image with
              | Some content => Py.Ok (<[in_path := Upload content]> disk)
              | None => Py.Ok (<[in_path := Saved Placeholder]> disk)
              end = Py.Ok (<[in_path := base_file image]> disk))
    by (destruct image; reflexivity).
  rewrite E. clear E. split; [reflexivity |].
  destruct logo_file as [lc |]; [destruct logo_enabled eqn:Le |].
  - destruct (writable world logo_tmp) eqn:W; [| discriminate].
    injection H as <- <-. right. exists lc. auto 10.
  - injection H as <- <-. left. auto.
  - injection H as <- <-. left. auto.
Qed.

(** What they leave when one fails: nothing, or the input alone. *)
Lemma save_uploads_raise disk image logo_file e fs :
  save_uploads disk image logo_file = (Py.Raise e, fs) ->
  (writable world in_path = false /\ e = Py.OSError in_path /\ fs = disk) \/
  (writable world in_path = true /\ writable world logo_tmp = false /\
   e = Py.OSError logo_tmp /\ logo_enabled = true /\ is_Some logo_file /\
   fs = <[in_path := base_file image]> disk).
Proof.
  unfold Endpoint.save_uploads, image_save, write_file.
  destruct (writable world in_path).
  2:{ destruct image; intros [= <- <-]; left; auto. }
  assert (E : match image with
              | Some content => Py.Ok (<[in_path := Upload content]> disk)
              | None => Py.Ok (<[in_path := Saved Placeholder]> disk)
              end = Py.Ok (<[in_path := base_file image]> disk))
    by (destruct image; reflexivity).
  rewrite E. clear E.
  destruct logo_file as [lc |]; [destruct logo_enabled eqn:Le |]; try discriminate.
  destruct (writable world logo_tmp) eqn:W; [discriminate |].
  intros [= <- <-]. right. repeat split; eauto.
Qed.

Lemma save_uploads_writable disk image logo_file :
  writable world in_path = true ->
  (logo_enabled = true -> is_Some logo_file -> writable world logo_tmp = true) ->
  exists lp fs, save_uploads disk image logo_file = (Py.Ok lp, fs).
Proof.
  intros Wi Wl.
  destruct (save_uploads disk image logo_file) as [[lp | e] fs] eqn:E; [eauto |].
  apply save_uploads_raise in E.
  destruct E as [(W & _) | (_ & W & _ & Le & Hf & _)]; [congruence |].
  rewrite (Wl Le Hf) in W. discriminate.
Qed.

(** ** The loop *)

(** Induction over the loop: a property [Inv] of the disk that every
    turn keeps and a property [P] that every turn gives its entry hold
    of the disk throughout and of every entry of a result. *)
Lemma generate_each_invariant (Inv : gmap string File -> Prop) (P : Asset -> Prop)
    (lp : option string) :
  (forall fs k p fs' f,
     Inv fs -> k ∈ catalog ->
     asset_of fs in_path (out_path k)
       (default (1080, 1080) (dimensions !! k)).1 (default (1080, 1080) (dimensions !! k)).2
       title cta title_font_size text_position
       (if logo_enabled then lp else None) logo_position logo_size = Py.Ok (p, fs') ->
     read_file fs' (out_path k) = Py.Ok f ->
     P {| asset_format := k;
          asset_platform := default "Social Media" (platform_names !! k);
          asset_width := (default (1080, 1080) (dimensions !! k)).1;
          asset_height := (default (1080, 1080) (dimensions !! k)).2;
          asset_url := f;
          asset_filename :=
            "media_studio_" ++ Py.replace ":" "x" k ++ "_" ++ timestamp ++ ".jpg" |}
     /\ Inv (delete (out_path k) fs')) ->
  forall format_list fs results out,
    Inv fs ->
    each format_list lp fs results = Py.Ok out ->
    exists assets,
      out = (results ++ assets)%list /\
      map asset_format assets = filter (fun k => k ∈ catalog) format_list /\
      Forall P assets.
Proof.
  intros Step. induction format_list as [| k rest IH]; intros fs results out Hfs.
  - cbn. intros [= <-]. exists []. rewrite app_nil_r. repeat split. apply Forall_nil. exact I.
  - rewrite filter_cons. destruct (decide (k ∈ catalog)) as [Hc | Hout].
    + cbn [generate_each]. rewrite bool_decide_eq_true_2 by exact Hc. cbn [negb].
      pose proof (Step fs k) as S.
      destruct (default (1080, 1080) (dimensions !! k)) as [width height].
      cbn [fst snd] in S.
      destruct (generate_asset _ _ _ _ _ _ _ _ _ _ _ _ _) as [[p fs'] | e];
        [| discriminate].
      cbn [mbind Py.result_bind].
      destruct (read_file fs' (out_path k)) as [f | e] eqn:Rd; [| discriminate].
      cbn [mbind Py.result_bind].
      destruct (S p fs' f Hfs Hc eq_refl Rd) as [Pa Hfs'].
      intros E. destruct (IH _ _ _ Hfs' E) as (assets & -> & F & A).
      eexists (_ :: assets). rewrite <- app_assoc. split; [reflexivity |].
      split; [cbn [map asset_format]; rewrite F; reflexivity |].
      apply Forall_cons. split; assumption.
    + cbn [generate_each]. rewrite bool_decide_eq_false_2 by exact Hout. cbn [negb].
      apply IH, Hfs.
Qed.

Lemma catalog_cases k :
  k ∈ catalog -> k = "16:9" \/ k = "1:1" \/ k = "9:16" \/ k = "4:5".
Proof.
  unfold catalog. rewrite !elem_of_cons, elem_of_nil. tauto.
Qed.

(** X16. Every asset of a successful response is an entry of the table
    that [GET /formats] lists: its format, platform name and
    dimensions are those of one [FORMATS] entry, so the defaults of the
    two [dict.get] calls are never used.  The assets follow the catalog
    labels of the request in order, repeated labels included, [count]
    is their number and the mode is echoed. *)
Theorem success_lists_catalog_entries (disk : gmap string File)
    (image logo_file : option string) (formats : string)
    (assets : list Asset) (n : nat) (m : string) :
  respond disk image logo_file formats = Success assets n m ->
  n = length assets /\ m = mode /\
  map asset_format assets
  = filter (fun k => k ∈ catalog) (map Py.strip (Py.split "," formats)) /\
  Forall (fun a =>
            (exists spec, spec ∈ Assets.FORMATS /\
               Assets.format spec = asset_format a /\
               Assets.name spec = asset_platform a /\
               Assets.width spec = asset_width a /\
               Assets.height spec = asset_height a) /\
            asset_filename a
            = "media_studio_" ++ Py.replace ":" "x" (asset_format a) ++ "_"
                ++ timestamp ++ ".jpg") assets.
Proof.
  rewrite respond_cases.
  destruct (save_uploads disk image logo_file) as [[lp | e] fs]; [| discriminate].
  destruct (each _ lp fs []) as [out | e] eqn:E; [| discriminate].
  intros [= <- <- <-]. split; [reflexivity |]. split; [reflexivity |].
  eapply (generate_each_invariant (fun _ => True)) in E; [| | exact I].
  - destruct E as (assets & -> & F & A). cbn [app]. split; [exact F | exact A].
  - intros fs1 k p fs' f _ Hc _ _. split; [| exact I]. split; [| reflexivity].
    cbn [asset_format asset_platform asset_width asset_height].
    destruct (catalog_cases k Hc) as [-> | [-> | [-> | ->]]].
    + exists {| Assets.name := "Facebook Feed"; Assets.format := "16:9";
                Assets.width := 1200; Assets.height := 675 |}.
      split; [apply list_elem_of_here | repeat split].
    + exists {| Assets.name := "Instagram Square"; Assets.format := "1:1";
                Assets.width := 1080; Assets.height := 1080 |}.
      split; [apply list_elem_of_further, list_elem_of_here | repeat split].
    + exists {| Assets.name := "Instagram Story"; Assets.format := "9:16";
                Assets.width := 1080; Assets.height := 1920 |}.
      split; [do 2 apply list_elem_of_further; apply list_elem_of_here | repeat split].
    + exists {| Assets.name := "Facebook/Instagram Portrait"; Assets.format := "4:5";
                Assets.width := 1080; Assets.height := 1350 |}.
      split; [do 3 apply list_elem_of_further; apply list_elem_of_here | repeat split].
Qed.

(** The loop opens nothing when no label is in the catalog. *)
Lemma generate_each_nothing format_list lp fs results :
  (forall k, k ∈ format_list -> k ∉ catalog) ->
  each format_list lp fs results = Py.Ok results.
Proof.
  induction format_list as [| k rest IH]; intros H; [reflexivity |].
  rewrite generate_each_skip by (apply H; left).
  apply IH. intros k' Hk. apply H. right. exact Hk.
Qed.

(** X17. A request none of whose labels is in the catalog succeeds with
    no assets once the uploads are written to their temporary files,
    whatever was uploaded: the image is not opened, so an upload that
    is no image goes unnoticed.  Labels are compared after stripping
    blanks only, so a list with another separator is such a
    request. *)
Theorem no_catalog_label_is_an_empty_success (disk : gmap string File)
    (image logo_file : option string) (formats : string) :
  (forall k, k ∈ map Py.strip (Py.split "," formats) -> k ∉ catalog) ->
  writable world in_path = true ->
  (logo_enabled = true -> is_Some logo_file -> writable world logo_tmp = true) ->
  respond disk image logo_file formats = Success [] 0 mode.
Proof.
  intros H Wi Wl. rewrite respond_cases.
  destruct (save_uploads_writable disk image logo_file Wi Wl) as (lp & fs & ->).
  rewrite (generate_each_nothing _ lp fs [] H). reflexivity.
Qed.



(** ** The composition *)

Lemma resize_logo_inv l size l' :
  resize_logo world l size = Py.Ok l' -> exists new_height, l' = ResizeLogo l size new_height.
Proof.
  unfold resize_logo. destruct (canvas_size world l) as [w h].
  unfold ImageProcessor.resize_logo_size.
  destruct (Py.truediv_int w h) as [r | e]; [| discriminate].
  cbn [mbind Py.result_bind].
  destruct (Py.float_of_int size) as [f | e]; [| discriminate].
  cbn [mbind Py.result_bind].
  destruct (Py.int_truediv f r) as [nh | e]; [| discriminate].
  cbn [mbind Py.result_bind mret Py.result_ret].
  destruct (PIL.resize_outcome _ _ _) as [how | e]; [| discriminate].
  cbn. intros [= <-]. eauto.
Qed.

(** What a successful [generate_asset] has read and written. *)
Lemma generate_asset_composition fs output width height lp p fs' :
  asset_of fs in_path output width height title cta title_font_size text_position
    lp logo_position logo_size = Py.Ok (p, fs') ->
  exists c0 logoed,
    image_open world fs in_path = Py.Ok c0 /\
    fs' = <[output := Saved (if Py.truthy title || Py.truthy cta
                             then AddTextOverlay logoed title cta title_font_size
                                    text_position
                             else logoed)]> fs /\
    match lp with
    | Some q =>
        if Py.truthy q
        then exists l new_height,
               image_open world fs q = Py.Ok l /\
               logoed = AddLogo (SmartCrop c0 width height)
                          (ResizeLogo l logo_size new_height) logo_position
        else logoed = SmartCrop c0 width height
    | None => logoed = SmartCrop c0 width height
    end.
Proof.
  unfold generate_asset.
  destruct (image_open world fs in_path) as [c0 | e]; [| discriminate].
  cbn [mbind Py.result_bind].
  destruct (smart_crop world c0 width height) as [c1 | e] eqn:E1; [| discriminate].
  apply smart_crop_inv in E1. subst c1. cbn [mbind Py.result_bind].
  assert (Save : forall logoed,
            (img ← (if Py.truthy title || Py.truthy cta
                    then add_text_overlay world logoed title cta title_font_size
                           text_position
                    else mret logoed);
             fs0 ← image_save world fs img output;
             mret (output, fs0)) = Py.Ok (p, fs') ->
            fs' = <[output := Saved (if Py.truthy title || Py.truthy cta
                                     then AddTextOverlay logoed title cta title_font_size
                                            text_position
                                     else logoed)]> fs).
  { intros logoed.
    destruct (Py.truthy title || Py.truthy cta).
    - destruct (add_text_overlay world logoed title cta title_font_size text_position)
        as [c | e] eqn:T; [| discriminate].
      apply add_text_overlay_inv in T. subst c.
      cbn [mbind Py.result_bind]. unfold image_save, write_file.
      destruct (writable world output); [| discriminate].
      cbn. intros [= _ <-]. reflexivity.
    - cbn [mbind Py.result_bind mret Py.result_ret]. unfold image_save, write_file.
      destruct (writable world output); [| discriminate].
      cbn. intros [= _ <-]. reflexivity. }
  destruct lp as [q |]; [destruct (Py.truthy q) |].
  - destruct (image_open world fs q) as [l | e]; [| discriminate].
    cbn [mbind Py.result_bind].
    destruct (resize_logo world l logo_size) as [l' | e] eqn:R; [| discriminate].
    apply resize_logo_inv in R. destruct R as [nh ->].
    cbn [mbind Py.result_bind]. unfold add_logo_image.
    cbn [mbind Py.result_bind mret Py.result_ret].
    intros E. apply Save in E. exists c0. eexists. split; [reflexivity |].
    split; [exact E |]. eauto.
  - cbn [mbind Py.result_bind mret Py.result_ret].
    intros E. apply Save in E. exists c0. eexists. split; [reflexivity |].
    split; [exact E | reflexivity].
  - cbn [mbind Py.result_bind mret Py.result_ret].
    intros E. apply Save in E. exists c0. eexists. split; [reflexivity |].
    split; [exact E | reflexivity].
Qed.

(** X19. Every asset of a successful response is the same
    composition: the upload (or the placeholder), cropped to the
    dimensions of the format, then the uploaded logo scaled to the
    width [logo_size] and pasted, when the logo is enabled and a file
    came with the request, then the text overlay, when the title or
    the CTA is not empty.  The logo goes on the cropped canvas and
    under the text. *)
Theorem asset_composition (disk : gmap string File)
    (image logo_file : option string) (formats : string)
    (assets : list Asset) (n : nat) (m : string) :
  respond disk image logo_file formats = Success assets n m ->
  Forall (fun a =>
            let base := match image with
                        | Some content => Decoded content
                        | None => Placeholder
                        end in
            let cropped := SmartCrop base (asset_width a) (asset_height a) in
            exists logoed,
              match logo_file with
              | Some content =>
                  if logo_enabled
                  then exists new_height,
                         logoed = AddLogo cropped
                                    (ResizeLogo (Decoded content) logo_size new_height)
                                    logo_position
                  else logoed = cropped
              | None => logoed = cropped
              end /\
              asset_url a
              = Saved (if Py.truthy title || Py.truthy cta
                       then AddTextOverlay logoed title cta title_font_size text_position
                       else logoed)) assets.
Proof.
  rewrite respond_cases.
  set (base := match image with Some content => Decoded content | None => Placeholder end).
  set (Inv := fun (lp : option string) (fs : gmap string File) =>
         (forall c, image_open world fs in_path = Py.Ok c -> c = base) /\
         ((lp = None /\ (logo_file = None \/ logo_enabled = false)) \/
          (exists lc, lp = Some logo_tmp /\ logo_file = Some lc /\ logo_enabled = true /\
                      forall l, image_open world fs logo_tmp = Py.Ok l -> l = Decoded lc))).
  destruct (save_uploads disk image logo_file) as [[lp | e] fs] eqn:Su; [| discriminate].
  assert (Hfs : Inv lp fs).
  { apply save_uploads_ok in Su. destruct Su as [_ Su].
    assert (B : forall c, image_open world (<[in_path := base_file image]> disk) in_path
                          = Py.Ok c -> c = base).
    { intros c. unfold image_open, base. rewrite input_not_dot, lookup_insert_eq.
      destruct image as [content |].
      - unfold decode. destruct (decodable world content); [| discriminate].
        destruct (PIL.decompression_bomb_check _); [| discriminate].
        cbn [mbind Py.result_bind mret Py.result_ret]. intros [= <-]. reflexivity.
      - destruct (PIL.decompression_bomb_check _); [| discriminate]. cbn [mbind Py.result_bind mret Py.result_ret]. intros [= <-]. reflexivity. }
    destruct Su as [(-> & Off & ->) | (lc & -> & El & Le & _ & ->)].
    - split; [exact B | left; auto].
    - split.
      + intros c. unfold image_open in *. rewrite input_not_dot in *.
        rewrite lookup_insert_ne by apply logo_not_input. apply B.
      + right. exists lc. repeat split; try assumption.
        intros l. unfold image_open. rewrite logo_not_dot, lookup_insert_eq.
        unfold decode. destruct (decodable world lc); [| discriminate].
        destruct (PIL.decompression_bomb_check _); [| discriminate]. cbn [mbind Py.result_bind mret Py.result_ret]. intros [= <-]. reflexivity. }
  destruct (each _ lp fs []) as [out | e] eqn:E; [| discriminate].
  intros [= <- _ _].
  eapply (generate_each_invariant (Inv lp)) in E; [| | exact Hfs].
  { destruct E as (assets & -> & _ & A). exact A. }
  intros fs1 k p fs' f [Hb Hl] Hc Ga Rd.
  apply generate_asset_composition in Ga.
  destruct Ga as (c0 & logoed & Op & -> & Lg).
  unfold read_file in Rd. rewrite lookup_insert_eq in Rd. injection Rd as <-.
  rewrite (Hb c0 Op) in Lg. split.
  - cbn [asset_url asset_width asset_height]. cbv zeta. exists logoed.
    split; [| reflexivity].
    destruct Hl as [[-> Off] | (lc & -> & -> & Le & Hlogo)].
    + replace (if logo_enabled then @None string else None) with (@None string) in Lg
        by (destruct logo_enabled; reflexivity).
      destruct Off as [-> | Off]; [exact Lg |].
      destruct logo_file; [rewrite Off |]; exact Lg.
    + rewrite Le in Lg |- *. change (Py.truthy logo_tmp) with true in Lg.
      destruct Lg as (l & nh & Ol & ->). rewrite (Hlogo l Ol). eauto.
  - split.
    + intros c. rewrite image_open_after by (apply not_eq_sym, output_not_input).
      apply Hb.
    + destruct Hl as [L | (lc & L1 & L2 & L3 & Hlogo)]; [left; exact L | right].
      exists lc. repeat split; try assumption.
      intros l. rewrite image_open_after by (apply not_eq_sym, output_not_logo).
      apply Hlogo.
Qed.

(** ** The disk after the request *)

Abbreviation each_disk := (Endpoint.generate_each world timestamp title cta
                             title_font_size text_position logo_enabled
                             logo_position logo_size).
Abbreviation respond_disk := (Endpoint.generate_assets world timestamp mode title cta
                                title_font_size text_position logo_enabled
                                logo_position logo_size).

(** The two readings of the loop give the same result. *)
Lemma endpoint_each_result format_list lp fs results :
  (each_disk format_list lp fs results).1 = each format_list lp fs results.
Proof.
  revert fs results. induction format_list as [| k rest IH]; intros fs results;
    [reflexivity |].
  cbn [Endpoint.generate_each generate_each].
  destruct (negb (bool_decide (k ∈ catalog))); [apply IH |].
  destruct (default (1080, 1080) (dimensions !! k)) as [width height].
  destruct (generate_asset _ _ _ _ _ _ _ _ _ _ _ _ _) as [[p fs'] | e]; [| reflexivity].
  cbn [mbind Py.result_bind].
  destruct (read_file fs' (out_path k)) as [f | e]; [| reflexivity].
  cbn [mbind Py.result_bind]. apply IH.
Qed.

Lemma endpoint_response disk image logo_file formats :
  (respond_disk disk image logo_file formats).1 = respond disk image logo_file formats.
Proof.
  rewrite respond_cases. unfold Endpoint.generate_assets.
  destruct (save_uploads disk image logo_file) as [[lp | e] fs]; [| reflexivity].
  rewrite <- endpoint_each_result.
  destruct (each_disk _ lp fs []) as [[out | e] fs']; reflexivity.
Qed.

(** The loop touches its output paths only, and leaves none of them
    behind when it ends without an error. *)
Lemma endpoint_each_disk format_list lp fs results res fs' :
  each_disk format_list lp fs results = (res, fs') ->
  (forall p, (forall k, k ∈ format_list -> k ∈ catalog -> p <> out_path k) ->
     fs' !! p = fs !! p) /\
  (forall out, res = Py.Ok out ->
     (forall p, fs !! p = None -> fs' !! p = None) /\
     (forall k, k ∈ format_list -> k ∈ catalog -> fs' !! out_path k = None)).
Proof.
  revert fs results. induction format_list as [| k0 rest IH]; intros fs results.
  - cbn. intros [= <- <-]. split; [reflexivity |]. intros out _. split; [auto |].
    intros k Hk. apply elem_of_nil in Hk. contradiction.
  - cbn [Endpoint.generate_each].
    destruct (decide (k0 ∈ catalog)) as [Hc | Hout].
    + rewrite bool_decide_eq_true_2 by exact Hc. cbn [negb].
      destruct (default (1080, 1080) (dimensions !! k0)) as [width height].
      destruct (generate_asset _ _ _ _ _ _ _ _ _ _ _ _ _) as [[p0 fs1] | e] eqn:Ga.
      2:{ intros [= <- <-]. split; [reflexivity |]. discriminate. }
      apply generate_asset_composition in Ga.
      destruct Ga as (c0 & logoed & _ & -> & _).
      unfold read_file. rewrite lookup_insert_eq.
      intros E. apply IH in E. destruct E as [Fr Ok]. split.
      * intros p Hp. rewrite Fr by (intros k Hk; apply Hp; right; exact Hk).
        assert (N : p <> out_path k0) by (apply Hp; [left | exact Hc]).
        rewrite lookup_delete_ne, lookup_insert_ne by congruence. reflexivity.
      * intros out Eo. destruct (Ok out Eo) as [Ab Gone]. split.
        -- intros p Hp. apply Ab.
           destruct (decide (p = out_path k0)) as [-> | N].
           ++ apply lookup_delete_eq.
           ++ rewrite lookup_delete_ne, lookup_insert_ne by congruence. exact Hp.
        -- intros k Hk Hck. apply elem_of_cons in Hk. destruct Hk as [-> | Hk].
           ++ apply Ab, lookup_delete_eq.
           ++ apply Gone; assumption.
    + rewrite bool_decide_eq_false_2 by exact Hout. cbn [negb].
      intros E. apply IH in E. destruct E as [Fr Ok]. split.
      * intros p Hp. apply Fr. intros k Hk. apply Hp. right. exact Hk.
      * intros out Eo. destruct (Ok out Eo) as [Ab Gone]. split; [exact Ab |].
        intros k Hk Hck. apply elem_of_cons in Hk. destruct Hk as [-> | Hk];
          [contradiction | apply Gone; assumption].
Qed.

(** The uploads touch the two input paths only. *)
Lemma save_uploads_frame disk image logo_file res fs :
  save_uploads disk image logo_file = (res, fs) ->
  forall p, p <> in_path -> p <> logo_tmp -> fs !! p = disk !! p.
Proof.
  intros E p N1 N2. destruct res as [lp | e].
  - apply save_uploads_ok in E.
    destruct E as [_ [(_ & _ & ->) | (lc & _ & _ & _ & _ & ->)]];
      rewrite ?lookup_insert_ne by congruence; reflexivity.
  - apply save_uploads_raise in E.
    destruct E as [(_ & _ & ->) | (_ & _ & _ & _ & _ & ->)];
      rewrite ?lookup_insert_ne by congruence; reflexivity.
Qed.

(** X20. A successful request leaves none of its temporary files: the
    input, the outputs of the catalog labels and the logo it saved are
    gone, a file that was at one of these paths before the request
    included, and every other path of the disk is as it was.  The
    response is that of [Flow.generate_assets]. *)
Theorem temporary_files_removed_on_success (disk final : gmap string File)
    (image logo_file : option string) (formats : string)
    (assets : list Asset) (n : nat) (m : string) :
  respond_disk disk image logo_file formats = (Success assets n m, final) ->
  respond disk image logo_file formats = Success assets n m /\
  final !! in_path = None /\
  (forall k, k ∈ map Py.strip (Py.split "," formats) -> k ∈ catalog ->
     final !! out_path k = None) /\
  (logo_enabled = true -> is_Some logo_file -> final !! logo_tmp = None) /\
  (forall p, p <> in_path -> p <> logo_tmp -> (forall k, p <> out_path k) ->
     final !! p = disk !! p).
Proof.
  intros E. split; [rewrite <- endpoint_response, E; reflexivity |].
  revert E. unfold Endpoint.generate_assets.
  destruct (save_uploads disk image logo_file) as [[lp | e] fs] eqn:Su; [| discriminate].
  pose proof (save_uploads_frame _ _ _ _ _ Su) as Fr0.
  apply save_uploads_ok in Su. destruct Su as [_ Su].
  assert (Lp : lp = None \/ lp = Some logo_tmp)
    by (destruct Su as [(-> & _) | (lc & -> & _)]; auto).
  assert (Lp' : logo_enabled = true -> is_Some logo_file -> lp = Some logo_tmp).
  { destruct Su as [(_ & [Off | Off] & _) | (lc & -> & _)]; auto.
    - intros _ [x Hx]. congruence.
    - congruence. }
  destruct (each_disk _ lp fs []) as [[out | e] fs'] eqn:E; [| discriminate].
  apply endpoint_each_disk in E. destruct E as [Fr Ok].
  destruct (Ok out eq_refl) as [Ab Gone].
  intros [= <- <- <- <-].
  assert (D : forall (g : gmap string File) p,
            g !! p = None ->
            match lp with Some q => delete q (delete in_path g) | None => delete in_path g end
              !! p = None).
  { intros g p Hp. destruct lp as [q |].
    - destruct (decide (p = q)) as [-> | N]; [apply lookup_delete_eq |].
      rewrite lookup_delete_ne by congruence.
      destruct (decide (p = in_path)) as [-> | N']; [apply lookup_delete_eq |].
      rewrite lookup_delete_ne by congruence. exact Hp.
    - destruct (decide (p = in_path)) as [-> | N']; [apply lookup_delete_eq |].
      rewrite lookup_delete_ne by congruence. exact Hp. }
  repeat split.
  - destruct lp as [q |].
    + destruct Lp as [Lp | [= ->]]; [discriminate |].
      rewrite lookup_delete_ne by apply logo_not_input.
      apply lookup_delete_eq.
    + apply lookup_delete_eq.
  - intros k Hk Hc. apply D, Gone; assumption.
  - intros Le Hf. rewrite (Lp' Le Hf). apply lookup_delete_eq.
  - intros p N1 N2 N3.
    assert (X : match lp with
                | Some q => delete q (delete in_path fs')
                | None => delete in_path fs'
                end !! p = fs' !! p).
    { destruct Lp as [-> | ->]; rewrite ?lookup_delete_ne by congruence; reflexivity. }
    rewrite X, Fr by (intros k _ _; apply N3). apply Fr0; assumption.
Qed.

(** X21. A request that fails leaves its temporary inputs on the disk:
    the cleanup is the last step of the [try] block and the handler
    removes nothing.  The upload (or the placeholder) stays at the
    input path and a saved logo at the logo path, where they could be
    written; the paths that are not temporary files of the request
    are as they were, and when the input itself could not be written
    nothing has changed. *)
Theorem temporary_files_left_on_failure (disk final : gmap string File)
    (image logo_file : option string) (formats : string)
    (status_code : Z) (e : Py.exn) :
  respond_disk disk image logo_file formats = (Failure status_code e, final) ->
  respond disk image logo_file formats = Failure 500 e /\
  (writable world in_path = true -> final !! in_path = Some (base_file image)) /\
  (forall content, logo_enabled = true -> logo_file = Some content ->
     writable world in_path = true -> writable world logo_tmp = true ->
     final !! logo_tmp = Some (Upload content)) /\
  (writable world in_path = false -> final = disk) /\
  (forall p, p <> in_path -> p <> logo_tmp -> (forall k, p <> out_path k) ->
     final !! p = disk !! p).
Proof.
  intros E.
  assert (R : respond disk image logo_file formats = Failure status_code e)
    by (rewrite <- endpoint_response, E; reflexivity).
  assert (S : status_code = 500).
  { revert R. rewrite respond_cases.
    destruct (save_uploads disk image logo_file) as [[lp | e'] fs]; [| congruence].
    destruct (each _ lp fs []); [discriminate | congruence]. }
  split; [rewrite R, S; reflexivity |].
  revert E. unfold Endpoint.generate_assets.
  destruct (save_uploads disk image logo_file) as [[lp | e'] fs] eqn:Su.
  - pose proof (save_uploads_frame _ _ _ _ _ Su) as Fr0.
    apply save_uploads_ok in Su. destruct Su as [Wi Su].
    destruct (each_disk _ lp fs []) as [[out | e''] fs'] eqn:E; [discriminate |].
    apply endpoint_each_disk in E. destruct E as [Fr _].
    intros [= _ _ <-].
    assert (Hin : fs !! in_path = Some (base_file image)).
    { destruct Su as [(_ & _ & ->) | (lc & _ & _ & _ & _ & ->)];
        rewrite ?(lookup_insert_ne _ logo_tmp in_path) by apply logo_not_input;
        apply lookup_insert_eq. }
    split; [| split; [| split]].
    + intros _. rewrite Fr by (intros k _ _; apply not_eq_sym, output_not_input).
      exact Hin.
    + intros content Le Hf _ _.
      rewrite Fr by (intros k _ _; apply not_eq_sym, output_not_logo).
      destruct Su as [(_ & [Off | Off] & _) | (lc & _ & L & _ & _ & ->)]; try congruence.
      assert (lc = content) as -> by congruence. apply lookup_insert_eq.
    + congruence.
    + intros p N1 N2 N3. rewrite Fr by (intros k _ _; apply N3). apply Fr0; assumption.
  - pose proof (save_uploads_frame _ _ _ _ _ Su) as Fr0.
    apply save_uploads_raise in Su. intros [= _ _ <-].
    destruct Su as [(Wi & _ & ->) | (Wi & Wl & _ & _ & _ & ->)].
    + split; [congruence |]. split; [congruence |]. split; [reflexivity |]. auto.
    + split; [intros _; apply lookup_insert_eq |].
      split; [congruence |]. split; [congruence |]. intros p N1 N2 _. apply Fr0; assumption.
Qed.

End RequestFacts.

Lemma success_lists_catalog_entries_witness :
  exists assets,
    Flow.generate_assets Samples.kind "ts" "from-image" "Sale" "" 68 "center" true
      "top-right" 90 ∅ (Some "img") None "16:9,bogus,1:1,16:9"
    = Flow.Success assets 3 "from-image" /\
    map Flow.asset_format assets = ["16:9"; "1:1"; "16:9"].
Proof.
  assert (H : { assets |
            Flow.generate_assets Samples.kind "ts" "from-image" "Sale" "" 68 "center" true
              "top-right" 90 ∅ (Some "img") None "16:9,bogus,1:1,16:9"
            = Flow.Success assets 3 "from-image" })
    by (eexists; vm_compute; reflexivity).
  destruct H as [assets H]. exists assets.
  exact (conj H (proj1 (proj2 (proj2
    (success_lists_catalog_entries Samples.kind "ts" "from-image" "Sale" "" 68 "center"
       true "top-right" 90 ∅ (Some "img") None "16:9,bogus,1:1,16:9" assets 3
       "from-image" H))))).
Defined.

Lemma no_catalog_label_witness :
  (forall k, k ∈ map Py.strip (Py.split "," "16:9 1:1") -> k ∉ Flow.catalog) /\
  Flow.writable Samples.deaf (Flow.input_path "ts") = true /\
  (true = true -> is_Some (@None string) ->
   Flow.writable Samples.deaf ("/tmp/logo_" ++ "ts" ++ ".png") = true) /\
  Flow.generate_assets Samples.deaf "ts" "from-image" "Sale" "" 68 "center" true
    "top-right" 90 ∅ (Some "not an image") None "16:9 1:1"
  = Flow.Success [] 0 "from-image".
Proof.
  assert (H : forall k, k ∈ map Py.strip (Py.split "," "16:9 1:1") -> k ∉ Flow.catalog).
  { intros k Hk. change (map Py.strip (Py.split "," "16:9 1:1")) with ["16:9 1:1"] in Hk.
    apply list_elem_of_singleton in Hk. subst k. unfold Flow.catalog.
    rewrite !elem_of_cons, elem_of_nil. intros [E | [E | [E | [E | []]]]]; discriminate E. }
  assert (W1 : Flow.writable Samples.deaf (Flow.input_path "ts") = true) by reflexivity.
  assert (W2 : true = true -> is_Some (@None string) ->
               Flow.writable Samples.deaf ("/tmp/logo_" ++ "ts" ++ ".png") = true)
    by reflexivity.
  exact (conj H (conj W1 (conj W2
    (no_catalog_label_is_an_empty_success Samples.deaf "ts" "from-image"
       "Sale" "" 68 "center" true "top-right" 90 ∅ (Some "not an image")
       None "16:9 1:1" H W1 W2)))).
Defined.


Lemma asset_composition_witness :
  exists assets,
    Flow.generate_assets Samples.kind "ts" "from-image" "Sale" "" 68 "center" true
      "top-right" 90 ∅ (Some "img") (Some "logo") "1:1"
    = Flow.Success assets 1 "from-image" /\
    Forall (fun a =>
              exists logoed,
                (exists new_height,
                   logoed = Flow.AddLogo
                              (Flow.SmartCrop (Flow.Decoded "img")
                                 (Flow.asset_width a) (Flow.asset_height a))
                              (Flow.ResizeLogo (Flow.Decoded "logo") 90 new_height)
                              "top-right") /\
                Flow.asset_url a
                = Flow.Saved (Flow.AddTextOverlay logoed "Sale" "" 68 "center")) assets.
Proof.
  assert (H : { assets |
            Flow.generate_assets Samples.kind "ts" "from-image" "Sale" "" 68 "center" true
              "top-right" 90 ∅ (Some "img") (Some "logo") "1:1"
            = Flow.Success assets 1 "from-image" })
    by (eexists; vm_compute; reflexivity).
  destruct H as [assets H]. exists assets.
  exact (conj H (asset_composition Samples.kind "ts" "from-image" "Sale" "" 68 "center"
                   true "top-right" 90 ∅ (Some "img") (Some "logo") "1:1" assets 1
                   "from-image" H)).
Defined.

Lemma temporary_files_removed_witness :
  exists assets final,
    Endpoint.generate_assets Samples.kind "ts" "from-image" "Sale" "" 68 "center" true
      "top-right" 90 (<[Flow.input_path "ts" := Flow.Upload "older"]> ∅)
      (Some "img") (Some "logo") "16:9,1:1"
    = (Flow.Success assets 2 "from-image", final) /\
    final !! Flow.input_path "ts" = None.
Proof.
  assert (H : { r |
            Endpoint.generate_assets Samples.kind "ts" "from-image" "Sale" "" 68 "center"
              true "top-right" 90 (<[Flow.input_path "ts" := Flow.Upload "older"]> ∅)
              (Some "img") (Some "logo") "16:9,1:1"
            = (Flow.Success r.1 2 "from-image", r.2) })
    by (eexists (_, _); vm_compute; reflexivity).
  destruct H as [[assets final] H]. exists assets, final.
  exact (conj H (proj1 (proj2
    (temporary_files_removed_on_success Samples.kind "ts" "from-image" "Sale" "" 68
       "center" true "top-right" 90 _ final (Some "img") (Some "logo") "16:9,1:1"
       assets 2 "from-image" H)))).
Defined.

Lemma temporary_files_left_witness :
  exists e final,
    Endpoint.generate_assets Samples.square_unwritable "ts" "from-image" "Sale" "" 68
      "center" true "top-right" 90 ∅ (Some "img") (Some "logo") "16:9,1:1"
    = (Flow.Failure 500 e, final) /\
    final !! Flow.input_path "ts" = Some (Flow.Upload "img") /\
    final !! ("/tmp/logo_" ++ "ts" ++ ".png") = Some (Flow.Upload "logo").
Proof.
  assert (H : { r |
            Endpoint.generate_assets Samples.square_unwritable "ts" "from-image" "Sale" ""
              68 "center" true "top-right" 90 ∅ (Some "img") (Some "logo") "16:9,1:1"
            = (Flow.Failure 500 r.1, r.2) })
    by (eexists (_, _); vm_compute; reflexivity).
  destruct H as [[e final] H]. exists e, final.
  pose proof (temporary_files_left_on_failure Samples.square_unwritable "ts" "from-image"
                "Sale" "" 68 "center" true "top-right" 90 ∅ final (Some "img")
                (Some "logo") "16:9,1:1" 500 e H) as (_ & A & B & _).
  exact (conj H (conj (A eq_refl) (B "logo" eq_refl eq_refl eq_refl eq_refl))).
Defined.

(* ===================================================================== *)
(** * Text layout: geometry of the centred panel *)
(* ===================================================================== *)

Section LayoutGeometry.
Import F64 F64Facts PIL ImageProcessor.

(** X15. For the ['center'] anchor, and every anchor that is neither
    ['top'] nor ['bottom'], the panel behind the text is exactly 80
    pixels taller than the text block and is centred vertically: the
    margins above and below it differ by at most one pixel.  For every
    anchor the title is centred horizontally in the same sense, and a
    layout without a CTA does not depend on the CTA's metrics. *)
Theorem centred_layout (width height : Z) (bbox_title bbox_cta : Box)
    (cta position : string) :
  position <> "top" -> position <> "bottom" ->
  let lay := text_layout width height bbox_title bbox_cta cta position in
  bg_y2 lay - bg_y1 lay = total_text_height lay + 80 /\
  0 <= (height - bg_y2 lay) - bg_y1 lay <= 1 /\
  y_start lay = Py.Int (bg_y1 lay + 40) /\
  0 <= (width - (title_x lay + title_width lay)) - title_x lay <= 1 /\
  (forall other, text_layout width height bbox_title other "" position
                 = text_layout width height bbox_title bbox_cta "" position).
Proof.
  intros N1 N2 lay. unfold lay, text_layout.
  destruct (String.eqb_spec position "top"); [contradiction |].
  destruct (String.eqb_spec position "bottom"); [contradiction |].
  cbn [bg_y1 bg_y2 total_text_height y_start title_x title_width].
  set (total := box_height bbox_title + _ + 40).
  cbn [Py.sub Py.add Py.int].
  pose proof (Z.div_mod (height - total) 2 ltac:(lia)) as D.
  pose proof (Z.mod_pos_bound (height - total) 2 ltac:(lia)) as B.
  pose proof (Z.div_mod (width - box_width bbox_title) 2 ltac:(lia)) as D'.
  pose proof (Z.mod_pos_bound (width - box_width bbox_title) 2 ltac:(lia)) as B'.
  repeat split; try lia.
  f_equal. lia.
Qed.

Lemma centred_layout_witness :
  "center" <> "top" /\ "center" <> "bottom" /\
  let lay := text_layout 1080 1350 (0, 10, 300, 70) (0, 5, 100, 30) "Shop" "center" in
  bg_y2 lay - bg_y1 lay = total_text_height lay + 80.
Proof.
  assert (H1 : "center" <> "top") by discriminate.
  assert (H2 : "center" <> "bottom") by discriminate.
  exact (conj H1 (conj H2 (proj1
    (centred_layout 1080 1350 (0, 10, 300, 70) (0, 5, 100, 30) "Shop" "center" H1 H2)))).
Defined.

End LayoutGeometry.

(* ===================================================================== *)
(** * Deleting a generated asset

    Properties of [delete_asset] in [api/media_studio.py] and of the
    substring test it shares with [parse_command]. *)
(* ===================================================================== *)

Section Substrings.
Import Text.

Lemma prefix_spec (needle s : string) :
  String.prefix needle s = true <-> exists post, s = needle ++ post.
Proof.
  assert (A : forall a x y, String a x ++ y = String a (x ++ y)) by reflexivity.
  revert s. induction needle as [| a needle IH]; intros s.
  - destruct s; cbn; (split; [intros _; eexists; reflexivity | reflexivity]).
  - destruct s as [| b s]; cbn.
    + split; [discriminate | intros [post E]; discriminate E].
    + destruct (Ascii.ascii_dec a b) as [-> | N].
      * rewrite IH. split; intros [post E]; exists post; rewrite A in *; congruence.
      * split; [discriminate | intros [post E]; rewrite A in E; congruence].
Qed.

Lemma contains_occurs (needle s : string) :
  contains needle s = true <-> exists pre post, s = pre ++ needle ++ post.
Proof.
  assert (A : forall a x y, String a x ++ y = String a (x ++ y)) by reflexivity.
  induction s as [| a s IH]; cbn [contains].
  - rewrite orb_false_r, prefix_spec. split.
    + intros [post E]. exists "", post. exact E.
    + intros (pre & post & E). destruct pre; [eauto | rewrite A in E; discriminate].
  - rewrite orb_true_iff, prefix_spec, IH. split.
    + intros [[post E] | (pre & post & E)].
      * exists "", post. exact E.
      * exists (String a pre), post. rewrite A. congruence.
    + intros (pre & post & E). destruct pre as [| b pre].
      * left. eauto.
      * right. rewrite A in E. injection E as _ E. eauto.
Qed.

(** X22. [contains] is Python's [in] on strings: it holds exactly when
    the needle occurs as a contiguous part of the string.  The empty
    needle occurs in every string, and every string in itself. *)
Theorem contains_substring (needle s : string) :
  (contains needle s = true <-> exists pre post, s = pre ++ needle ++ post) /\
  contains "" s = true /\ contains s s = true.
Proof.
  split; [apply contains_occurs |]. split.
  - apply contains_occurs. exists "", s. reflexivity.
  - apply contains_occurs. exists "", "".
    assert (A : forall a x y, String a x ++ y = String a (x ++ y)) by reflexivity.
    assert (R : forall x : string, x ++ "" = x)
      by (induction x as [| a x IH]; [reflexivity | rewrite A, IH; reflexivity]).
    change ("" ++ s ++ "") with (s ++ ""). symmetry. apply R.
Qed.

End Substrings.

Section DeleteAsset.
Import Text Assets.
Variable output_dir : string.
Variable may_unlink : string -> bool.

Abbreviation delete_in := (delete_asset output_dir may_unlink).

Lemma delete_asset_cases disk filename :
  (delete_in disk filename = (HTTPException 400 (Message "Invalid filename"), disk) /\
   (contains ".." filename || contains "/" filename || contains "\" filename) = true) \/
  ((contains ".." filename || contains "/" filename || contains "\" filename) = false /\
   ((delete_in disk filename = (HTTPException 404 (Message "File not found"), disk) /\
     disk !! child output_dir filename = None) \/
    (delete_in disk filename
     = (HTTPException 500
          (FailedToDelete (Py.IsADirectoryError (child output_dir filename))), disk) /\
     disk !! child output_dir filename = Some Directory) \/
    (delete_in disk filename
     = (HTTPException 500 (FailedToDelete (Py.OSError (child output_dir filename))), disk) /\
     disk !! child output_dir filename = Some RegularFile /\
     may_unlink (child output_dir filename) = false) \/
    (delete_in disk filename
     = (Deleted filename, delete (child output_dir filename) disk) /\
     disk !! child output_dir filename = Some RegularFile /\
     may_unlink (child output_dir filename) = true))).
Proof.
  unfold delete_asset.
  destruct (contains ".." filename || contains "/" filename || contains "\" filename);
    [left; auto | right; split; [reflexivity |]].
  unfold unlink.
  destruct (disk !! child output_dir filename) as [[|] |] eqn:L.
  - rewrite bool_decide_eq_true_2 by eauto. cbn [negb].
    destruct (may_unlink (child output_dir filename)); auto 10.
  - rewrite bool_decide_eq_true_2 by eauto. cbn [negb]. auto 10.
  - rewrite bool_decide_eq_false_2 by (intros [x Hx]; discriminate). cbn [negb]. auto.
Qed.

(** X23. [delete_asset] is confined to the output directory.  When the
    output directory is a directory, the only path whose content a
    call can change is [OUTPUT_DIR/filename] for a name that holds no
    ["/"], no ["\"] and no [".."]: a regular file directly in the
    output directory, which is removed, with the response
    ["deleted"].  Nothing is ever created.  The name ["."], which
    passes the check, names the directory itself and ends in the
    response 500. *)
Theorem delete_asset_is_confined (disk : gmap string Node) (filename : string) :
  disk !! output_dir = Some Directory ->
  (forall p, (delete_in disk filename).2 !! p <> disk !! p ->
     p = output_dir ++ "/" ++ filename /\
     (forall pre post, filename <> pre ++ "/" ++ post) /\
     (forall pre post, filename <> pre ++ "\" ++ post) /\
     (forall pre post, filename <> pre ++ ".." ++ post) /\
     disk !! p = Some RegularFile /\
     (delete_in disk filename).2 !! p = None /\
     (delete_in disk filename).1 = Deleted filename) /\
  delete_in disk "."
  = (HTTPException 500 (FailedToDelete (Py.IsADirectoryError output_dir)), disk).
Proof.
  intros Dir. split.
  - intros p Hp.
    destruct (delete_asset_cases disk filename)
      as [[E _] | [Ok [[E _] | [[E _] | [[E _] | (E & L & M)]]]]];
      rewrite E in Hp |- *; cbn [fst snd] in *; try congruence.
    assert (Ep : p = child output_dir filename).
    { destruct (decide (p = child output_dir filename)) as [-> | N]; [reflexivity |].
      rewrite lookup_delete_ne in Hp by congruence. congruence. }
    assert (Ec : child output_dir filename = output_dir ++ "/" ++ filename).
    { unfold child in *. destruct (String.eqb filename "" || String.eqb filename ".");
        [congruence | reflexivity]. }
    apply orb_false_elim in Ok. destruct Ok as [Ok O3].
    apply orb_false_elim in Ok. destruct Ok as [O1 O2].
    subst p. rewrite <- Ec. repeat split.
    + intros pre post E'.
      assert (C : contains "/" filename = true) by (apply contains_occurs; eauto).
      congruence.
    + intros pre post E'.
      assert (C : contains "\" filename = true) by (apply contains_occurs; eauto).
      congruence.
    + intros pre post E'.
      assert (C : contains ".." filename = true) by (apply contains_occurs; eauto).
      congruence.
    + exact L.
    + apply lookup_delete_eq.
  - destruct (delete_asset_cases disk ".")
      as [[_ C] | [_ [[_ L] | [[E _] | [(_ & L & _) | (_ & L & _)]]]]].
    + discriminate C.
    + change (child output_dir ".") with output_dir in L. congruence.
    + exact E.
    + change (child output_dir ".") with output_dir in L. congruence.
    + change (child output_dir ".") with output_dir in L. congruence.
Qed.


End DeleteAsset.

Lemma delete_asset_is_confined_witness :
  let disk : gmap string Assets.Node :=
    <["/srv/static/generated" := Assets.Directory]>
    (<["/srv/static/generated/a.jpg" := Assets.RegularFile]> ∅) in
  disk !! "/srv/static/generated" = Some Assets.Directory /\
  Assets.delete_asset "/srv/static/generated" (fun _ => true) disk "."
  = (Assets.HTTPException 500
       (Assets.FailedToDelete (Py.IsADirectoryError "/srv/static/generated")), disk).
Proof.
  intros disk.
  assert (H : disk !! "/srv/static/generated" = Some Assets.Directory) by reflexivity.
  exact (conj H (proj2 (delete_asset_is_confined "/srv/static/generated" (fun _ => true)
                          disk "a.jpg" H))).
Defined.
(* ===================================================================== *)
(** * The command parser

    Properties of [parse_command] in [api/media_studio.py]. *)
(* ===================================================================== *)

Section CommandFacts.
Import Text Commands.
Variable normalize : string -> string.

(** What holds of the fallback and of whatever a block returns holds
    of the response. *)
Lemma first_response_elim (P : CommandResponse -> Prop) bs :
  P {| action := NotUnderstood; params := ∅ |} ->
  Forall (fun b => forall r, b = Some r -> P r) bs ->
  P (first_response bs).
Proof.
  intros P0. induction 1 as [| [r |] bs Hb _ IH]; cbn; auto.
Qed.

(** Splits every conditional of the goal. *)
Ltac split_ifs :=
  repeat match goal with
         | |- context [if ?c then _ else _] =>
             match type of c with bool => destruct c end
         end.

(** A block that returned: the response it built. *)
Ltac returned :=
  cbv zeta; unfold respond; split_ifs; cbn [app];
  let r := fresh "r" in let E := fresh "E" in
  intros r E; try discriminate E; injection E as <-.

Lemma parse_command_elim (P : CommandResponse -> Prop) command current_options :
  P {| action := NotUnderstood; params := ∅ |} ->
  Forall (fun b => forall r, b = Some r -> P r)
    (blocks (normalize command)
       (default (Py.Int 150) (default ∅ current_options !! "logoSize"))
       (default (Py.Int 90) (default ∅ current_options !! "titleFontSize"))
       (default (Py.Float (F64.literal 6 10)) (default ∅ current_options !! "textOpacity"))) ->
  P (parse_command normalize command current_options).
Proof.
  intros P0 Pb. unfold parse_command. apply first_response_elim; [exact P0 | exact Pb].
Qed.

(** Takes the blocks apart: one goal for each. *)
Ltac each_block :=
  match goal with
  | |- Forall _ (blocks ?a ?b ?c ?d) =>
      generalize a b c d; intros cmd logo font opacity
  end;
  unfold blocks; repeat apply List.Forall_cons; try apply List.Forall_nil;
  cbv beta;
  match goal with
  | |- forall r, ?b _ = Some r -> _ => unfold b
  | |- forall r, ?b _ _ = Some r -> _ => unfold b
  | |- forall r, ?b _ _ _ = Some r -> _ => unfold b
  end.

(** X25. With numbers for the current options, the opacity one not
    beyond [10^300], a response of [parse_command] changes one setting
    at a time: it holds exactly one parameter, or none when the
    command was not understood.  The parameter is one the generator takes, with a
    value it knows: a corner of the placement tables, an anchor of the
    text layout, or a list of catalog labels that is not empty and
    repeats none. *)
Theorem parse_command_sets_one_parameter (command : string)
    (current_options : option (gmap string Py.num)) :
  (forall n, default ∅ current_options !! "textOpacity" = Some n ->
     (Qabs (PyNum.value n) <= inject_Z (10 ^ 300))%Q) ->
  let r := parse_command normalize command current_options in
  (action r = NotUnderstood /\ params r = ∅) \/
  (action r <> NotUnderstood /\
   exists key v, params r = {[ key := v ]} /\
     match v with
     | VNum _ => key ∈ ["logo_size"; "title_font_size"; "title_opacity"]
     | VBool _ => key = "logo_enabled"
     | VStr s =>
         (key = "logo_position" /\
          forall w h lw lh, is_Some (ImageProcessor.add_logo_positions w h lw lh !! s)) \/
         (key = "title_position" /\ s ∈ ["top"; "bottom"; "center"])
     | VList l => key = "formats" /\ l <> [] /\ NoDup l /\ l ⊆ Flow.catalog
     end).
Proof.
  intros _. cbv zeta. apply parse_command_elim; [left; split; reflexivity |].
  each_block.
  all: returned.
  all: right; (split; [discriminate |]); do 2 eexists; (split; [reflexivity |]);
       cbv iota beta.
  all: try reflexivity.
  all: try (rewrite !elem_of_cons; auto; fail).
  all: try (left; split; [reflexivity |]; intros w h lw lh; eexists; reflexivity).
  all: try (right; split; [reflexivity |]; rewrite !elem_of_cons; auto; fail).
  all: split; [reflexivity |]; split; [discriminate |]; split;
       [ repeat (apply NoDup_cons; split;
                 [rewrite ?elem_of_cons, elem_of_nil; intuition discriminate |]);
         apply NoDup_nil; exact I
       | intros x; unfold Flow.catalog; rewrite !elem_of_cons, !elem_of_nil; tauto ].
Qed.

(** ** Clamping *)















End CommandFacts.

Lemma parse_command_sets_one_parameter_witness :
  (forall n, default ∅ (@None (gmap string Py.num)) !! "textOpacity" = Some n ->
     (Qabs (PyNum.value n) <= inject_Z (10 ^ 300))%Q) /\
  Commands.params (Commands.parse_command (fun s => s) "bigger logo" None)
  = {[ "logo_size" := Commands.VNum (Py.Int 200) ]}.
Proof.
  assert (H : forall n, default ∅ (@None (gmap string Py.num)) !! "textOpacity" = Some n ->
                (Qabs (PyNum.value n) <= inject_Z (10 ^ 300))%Q).
  { intros n E. cbn in E. rewrite lookup_empty in E. discriminate. }
  split; [exact H |].
  destruct (parse_command_sets_one_parameter (fun s => s) "bigger logo" None H)
    as [[A _] | (_ & key & v & E & _)].
  - vm_compute in A. discriminate A.
  - vm_compute. reflexivity.
Defined.
